(** * EXOTIC: the nested linear ephemeris fitter

    A shallow embedding of [exotic/api/nested_linear_fitter.py]: the
    constructor and [fit_nested] of class [linear_fitter], and the numerical
    part of [plot_periodogram] (period range, the two spectral passes, the
    harmonic refits, phase folding and binning).  Figure rendering is left
    out: it consumes the values computed here and computes nothing itself.

    Numbers.  The source computes in IEEE binary64.  Finite floats are
    modelled by exact rationals [Q], so the arithmetic below is the arithmetic
    the formulas of the source denote; rounding error, overflow and the
    [inf] or [nan] of a division by zero are outside the model (in [Q],
    [x / 0] is [0]), and the theorems on the epochs and on the frequency
    limits assume that the divisor is not zero.  [np.nan] appears as a value of its own ([npval]) where the source
    writes it.  Library functions that are not rational ([np.sqrt], [np.sin],
    [np.cos], [np.pi]) and the external capabilities (the nested sampler, the
    Lomb-Scargle estimator, the weighted least squares routine) are variables
    of a section: every theorem holds for all of them. *)

From Stdlib Require Import ZArith QArith Qround Qabs Lqa Lia.
From Stdlib Require Import List String Bool Permutation Sorted Mergesort Orders.
Import ListNotations.
Open Scope Q_scope.

(** ** Python: exceptions and dictionaries *)

Module Py.

(** The exceptions this module can raise itself, and [External] for whatever
    class an external capability raises. *)
Inductive exn : Type :=
| KeyError (key : string)
| AttributeError (msg : string)
| ValueError (msg : string)
| IndexError (msg : string)
| External (cls : string).

Definition exn_class (e : exn) : string :=
  match e with
  | KeyError _ => "KeyError"
  | AttributeError _ => "AttributeError"
  | ValueError _ => "ValueError"
  | IndexError _ => "IndexError"
  | External cls => cls
  end%string.

Inductive result (A : Type) : Type :=
| Ok (a : A)
| Raise (e : exn).

Arguments Ok {A} a.
Arguments Raise {A} e.

Definition bind {A B : Type} (r : result A) (k : A -> result B) : result B :=
  match r with
  | Ok a => k a
  | Raise e => Raise e
  end.

(** [raises cls r]: the computation [r] ends in an exception of class [cls]. *)
Definition raises {A : Type} (cls : string) (r : result A) : Prop :=
  match r with
  | Ok _ => False
  | Raise e => exn_class e = cls
  end.

(** A [dict] keeps insertion order: [list(d.keys())] is the order of the
    entries. *)
Definition dict (V : Type) : Type := list (string * V).

Definition keys {V : Type} (d : dict V) : list string := map fst d.

Definition values {V : Type} (d : dict V) : list V := map snd d.

(** [d[k]] *)
Fixpoint getitem {V : Type} (d : dict V) (k : string) : result V :=
  match d with
  | [] => Raise (KeyError k)
  | (k', v) :: d' => if String.eqb k k' then Ok v else getitem d' k
  end.

(** [l[i]] on a sequence *)
Definition getidx {A : Type} (l : list A) (i : nat) : result A :=
  match nth_error l i with
  | Some a => Ok a
  | None => Raise (IndexError "index out of range")
  end.

(** The builtin [max(a, b)]: [b] when [b > a], else [a]. *)
Definition max (a b : Q) : Q := if Qlt_le_dec a b then b else a.

End Py.

Import Py.

Notation "x <- e ;; k" := (bind e (fun x => k))
  (at level 61, e at next level, right associativity).

(** ** NumPy on one-dimensional float arrays *)

Module Np.

(** Round half to even, the rule of [np.round] and [np.rint]. *)
Definition rint (x : Q) : Z :=
  let f := Qfloor x in
  match Qcompare (x - inject_Z f) (1 # 2) with
  | Lt => f
  | Gt => (f + 1)%Z
  | Eq => if Z.even f then f else (f + 1)%Z
  end.

(** [np.round] returns a float holding the integer. *)
Definition round (x : Q) : Q := inject_Z (rint x).

Definition sum (a : list Q) : Q := fold_right Qplus 0 a.

Definition mean (a : list Q) : Q := sum a / inject_Z (Z.of_nat (List.length a)).

(** Elementwise binary operation on two arrays of the same shape (NumPy
    raises on shapes that do not broadcast; the theorems assume equal
    lengths). *)
Fixpoint map2 {A B C : Type} (f : A -> B -> C) (a : list A) (b : list B) : list C :=
  match a, b with
  | x :: a', y :: b' => f x y :: map2 f a' b'
  | _, _ => []
  end.

(** [np.diff(a)]: [a[1:] - a[:-1]]. *)
Fixpoint diff (a : list Q) : list Q :=
  match a with
  | x :: (y :: _) as a' => (y - x) :: diff a'
  | _ => []
  end.

Definition min2 (x y : Q) : Q := if Qlt_le_dec y x then y else x.

Definition max2 (x y : Q) : Q := if Qlt_le_dec x y then y else x.

(** [a.min()] and [a.max()]: [ValueError] on an empty array. *)
Definition min (a : list Q) : result Q :=
  match a with
  | [] => Raise (ValueError "zero-size array to reduction operation minimum which has no identity")
  | x :: a' => Ok (fold_left min2 a' x)
  end.

Definition max (a : list Q) : result Q :=
  match a with
  | [] => Raise (ValueError "zero-size array to reduction operation maximum which has no identity")
  | x :: a' => Ok (fold_left max2 a' x)
  end.

(** [np.argmax]: the first index of a maximal entry. *)
Fixpoint argmax_from (best : Q) (besti i : nat) (a : list Q) : nat :=
  match a with
  | [] => besti
  | x :: a' =>
      if Qlt_le_dec best x then argmax_from x i (S i) a'
      else argmax_from best besti (S i) a'
  end.

Definition argmax (a : list Q) : result nat :=
  match a with
  | [] => Raise (ValueError "attempt to get argmax of an empty sequence")
  | x :: a' => Ok (argmax_from x 0%nat 1%nat a')
  end.

(** Fancy indexing [a[idx]] (indices in range). *)
Definition take (a : list Q) (idx : list nat) : list Q :=
  map (fun i => nth i a 0) idx.

(** Boolean-mask indexing [a[mask]]. *)
Fixpoint compress (mask : list bool) (a : list Q) : list Q :=
  match mask, a with
  | m :: mask', x :: a' => if m then x :: compress mask' a' else compress mask' a'
  | _, _ => []
  end.

(** [mask.sum()] *)
Definition count (mask : list bool) : nat := List.length (filter (fun m => m) mask).

(** [np.linspace(start, stop, num)] for [num >= 2]. *)
Definition linspace (start stop : Q) (num : nat) : list Q :=
  map (fun i => start + inject_Z (Z.of_nat i) * ((stop - start) / inject_Z (Z.of_nat (num - 1))))
      (seq 0 num).

(** [np.digitize(x, bins)] for increasing [bins], [right=False]: the index
    [i] with [bins[i-1] <= x < bins[i]], that is the number of leading edges
    that are [<= x]. *)
Fixpoint digitize (x : Q) (bins : list Q) : nat :=
  match bins with
  | [] => 0%nat
  | e :: bins' => if Qle_bool e x then S (digitize x bins') else 0%nat
  end.

(** [x % 1]: the result has the sign of the divisor. *)
Definition mod1 (x : Q) : Q := x - inject_Z (Qfloor x).

(** [basis.T] for a [k x n] array given by its [k] rows. *)
Definition transpose (n : nat) (rows : list (list Q)) : list (list Q) :=
  map (fun j => map (fun row => nth j row 0) rows) (seq 0 n).

(** [np.dot(M, v)] for a matrix given by its rows. *)
Definition dot (m : list (list Q)) (v : list Q) : list Q :=
  map (fun row => sum (map2 Qmult row v)) m.

End Np.

(** Sorting keys with their positions, for [np.argsort]. *)
Module KeyOrder <: TotalLeBool.
Definition t : Type := (Q * nat)%type.
Definition leb (a b : t) : bool := Qle_bool (fst a) (fst b).
Lemma leb_total : forall a b, leb a b = true \/ leb b a = true.
Proof.
  intros [x i] [y j]. unfold leb. simpl.
  destruct (Qlt_le_dec x y) as [H | H].
  - left. apply Qle_bool_iff. apply Qlt_le_weak. exact H.
  - right. apply Qle_bool_iff. exact H.
Qed.
End KeyOrder.

Module KeySort := Sort KeyOrder.

(** [np.argsort(a)]: the positions of [a] in increasing order of value.  The
    order among equal values differs between sorting algorithms; nothing
    below depends on it. *)
Definition argsort (a : list Q) : list nat :=
  map snd (KeySort.sort (combine a (seq 0 (List.length a)))).

(** An entry of the arrays [binned] and [binned_std]. *)
Inductive npval : Type :=
| Fin (q : Q)
| NaN.

(** [np.var(a)] with the default [ddof=0]: [mean(abs(a - a.mean())**2)]. *)
Definition var (a : list Q) : Q :=
  Np.mean (map (fun x => (x - Np.mean a) ^ 2) a).

(** [d[k] = v] *)
Fixpoint setitem {V : Type} (d : dict V) (k : string) (v : V) : dict V :=
  match d with
  | [] => [(k, v)]
  | (k', v') :: d' => if String.eqb k k' then (k', v) :: d' else (k', v') :: setitem d' k v
  end.

(** ** External capabilities *)

(** [ReactiveNestedSampler(param_names, loglike, transform).run(max_ncalls=...,
    min_num_live_points=..., show_status=...)] *)
Record sampler_call : Type := {
  param_names : list string;
  loglike_fn : list Q -> Q;
  transform_fn : list Q -> list Q;
  max_ncalls : Q;
  min_num_live_points : Z;
  show_status : bool
}.

(** The entries of the sampler's result dictionary that the fitter reads:
    [results['maximum_likelihood']['point']] and
    [results['posterior']['stdev' | 'errlo' | 'errup']]. *)
Record sampler_results : Type := {
  maximum_likelihood_point : list Q;
  posterior_stdev : list Q;
  posterior_errlo : list Q;
  posterior_errup : list Q
}.

(** [LombScargle(t, y, dy=dy).autopower(minimum_frequency=...,
    maximum_frequency=..., nyquist_factor=...)] *)
Record ls_call : Type := {
  ls_t : list Q;
  ls_y : list Q;
  ls_dy : list Q;
  minimum_frequency : Q;
  maximum_frequency : Q;
  nyquist_factor : Q
}.

(** [sm.WLS(endog, exog, weights=weights).fit()] *)
Record wls_call : Type := {
  endog : list Q;
  exog : list (list Q);
  weights : list Q
}.

(** ** The fitter object *)

(** The attributes [__init__] sets before it calls [fit_nested]. *)
Record fitter_inputs : Type := {
  in_data : list Q;
  in_dataerr : list Q;
  in_bounds : dict (Q * Q);
  in_prior : dict (Q * Q)
}.

(** The attributes of a constructed [linear_fitter].  A bounds or prior entry
    is the two-element sequence [[low, high]] or [[mean, stdev]]. *)
Record linear_fitter : Type := {
  data : list Q;
  dataerr : list Q;
  bounds : dict (Q * Q);
  prior : dict (Q * Q);
  epochs : list Q;
  results : sampler_results;
  errors : dict Q;
  quantiles : dict (Q * Q);
  parameters : dict Q;
  model : list Q;
  residuals : list Q
}.

(** What [plot_periodogram] computes before it draws: the arguments of the two
    spectral passes and the phase-folded, binned summaries.  The source reuses
    the names [maxper], [coeffs], [newphase], [binned] and [binned_std] in the
    second pass; the second values carry the suffix 2 here. *)
Record periodogram : Type := {
  minper : Q;
  maxper : Q;
  pass1 : ls_call;
  periods : list Q;
  power : list Q;
  per : Q;
  newphase : list Q;
  coeffs : list Q;
  y_bestfit : list Q;
  binned : list npval;
  binned_std : list npval;
  detrended : list Q;
  maxper2 : Q;
  pass2 : ls_call;
  per2 : Q;
  coeffs2 : list Q;
  newphase2 : list Q;
  binned2 : list npval;
  binned_std2 : list npval
}.

Section Fitter.

(** [np.sqrt], [np.sin], [np.cos] and [np.pi] *)
Variable np_sqrt : Q -> Q.
Variable np_sin : Q -> Q.
Variable np_cos : Q -> Q.
Variable np_pi : Q.

(** The nested sampler; it may fail, and its exception propagates. *)
Variable run : sampler_call -> result sampler_results.

(** The spectral estimator: the frequency grid and the power on it. *)
Variable autopower : ls_call -> list Q * list Q.

(** The [params] of the weighted least squares fit. *)
Variable wls_params : wls_call -> list Q.

(** [np.std(a)] with the default [ddof=0]. *)
Definition std (a : list Q) : Q := np_sqrt (var a).

(** *** [fit_nested] *)

Definition freekeys (b : dict (Q * Q)) : list string := keys b.

Definition boundarray (b : dict (Q * Q)) : list (Q * Q) := values b.

(** [np.diff(boundarray, 1).reshape(-1)] *)
Definition bounddiff (b : dict (Q * Q)) : list Q :=
  map (fun row => snd row - fst row) (boundarray b).

(** Line 91: [np.round((self.data - np.mean(self.bounds['b'])) /
    np.mean(self.bounds['m']))]; the subscript ['b'] is evaluated first. *)
Definition fit_nested_epochs (d : list Q) (b : dict (Q * Q)) : result (list Q) :=
  bb <- getitem b "b" ;;
  bm <- getitem b "m" ;;
  Ok (map (fun t => Np.round ((t - Np.mean [fst bb; snd bb]) / Np.mean [fst bm; snd bm])) d).

(** The closure [loglike]: [pars[0]] is the slope and [pars[1]] the
    intercept, whatever the order of the keys of [bounds]. *)
Definition loglike (d derr ep : list Q) (pars : list Q) : Q :=
  let model := map (fun e => nth 0 pars 0 * e + nth 1 pars 0) ep in
  - (1 # 2) * Np.sum (map (fun x => x ^ 2) (Np.map2 Qdiv (Np.map2 Qminus d model) derr)).

(** The closure [prior_transform]: [boundarray[:,0] + bounddiff*upars]. *)
Definition prior_transform (b : dict (Q * Q)) (upars : list Q) : list Q :=
  Np.map2 Qplus (map fst (boundarray b)) (Np.map2 Qmult (bounddiff b) upars).

(** The call made at line 103, with the epochs of line 91. *)
Definition fit_nested_call (s : fitter_inputs) (ep : list Q) : sampler_call :=
  {| param_names := freekeys (in_bounds s);
     loglike_fn := loglike (in_data s) (in_dataerr s) ep;
     transform_fn := prior_transform (in_bounds s);
     max_ncalls := 400000;
     min_num_live_points := 420;
     show_status := false |}.

(** The loop of lines 110-115 over [enumerate(freekeys)]; the accumulator
    holds [self.parameters], [self.errors] and [self.quantiles]. *)
Fixpoint fit_nested_collect (res : sampler_results) (i : nat) (ks : list string)
    (acc : dict Q * dict Q * dict (Q * Q)) : result (dict Q * dict Q * dict (Q * Q)) :=
  match ks with
  | [] => Ok acc
  | key :: ks' =>
      p <- getidx (maximum_likelihood_point res) i ;;
      s <- getidx (posterior_stdev res) i ;;
      lo <- getidx (posterior_errlo res) i ;;
      up <- getidx (posterior_errup res) i ;;
      fit_nested_collect res (S i) ks'
        (setitem (fst (fst acc)) key p, setitem (snd (fst acc)) key s,
         setitem (snd acc) key (lo, up))
  end.

(** Lines 105-119: the point estimates, and the final model and residuals. *)
Definition fit_nested_finish (s : fitter_inputs) (ep : list Q) (res : sampler_results)
    : result linear_fitter :=
  dicts <- fit_nested_collect res 0 (freekeys (in_bounds s)) ([], [], []) ;;
  pm <- getitem (fst (fst dicts)) "m" ;;
  pb <- getitem (fst (fst dicts)) "b" ;;
  let mdl := map (fun e => e * pm + pb) ep in
  Ok {| data := in_data s;
        dataerr := in_dataerr s;
        bounds := in_bounds s;
        prior := in_prior s;
        epochs := ep;
        results := res;
        errors := snd (fst dicts);
        quantiles := snd dicts;
        parameters := fst (fst dicts);
        model := mdl;
        residuals := Np.map2 Qminus (in_data s) mdl |}.

Definition fit_nested (s : fitter_inputs) : result linear_fitter :=
  ep <- fit_nested_epochs (in_data s) (in_bounds s) ;;
  res <- run (fit_nested_call s ep) ;;
  fit_nested_finish s ep res.

(** *** [__init__]

    [prior.copy()] is called on the argument as it is given; with the default
    [prior=None] that is an [AttributeError]. *)
Definition __init__ (d derr : list Q) (b : option (dict (Q * Q)))
    (p : option (dict (Q * Q))) : result linear_fitter :=
  pr <- match p with
        | Some pd => Ok pd
        | None => Raise (AttributeError "'NoneType' object has no attribute 'copy'")
        end ;;
  bd <- match b with
        | Some bd => Ok bd
        | None =>
            (* use +- 3 sigma prior as bounds *)
            pm <- getitem pr "m" ;;
            pb <- getitem pr "b" ;;
            Ok [("m"%string, (fst pm - 3 * snd pm, fst pm + 3 * snd pm));
                ("b"%string, (fst pb - 3 * snd pb, fst pb + 3 * snd pb))]
        end ;;
  fit_nested {| in_data := d; in_dataerr := derr; in_bounds := bd; in_prior := pr |}.

(** *** [plot_periodogram] *)

(** [bins = np.linspace(0,1,8)] *)
Definition bins : list Q := Np.linspace 0 1 8.

(** One turn of the loop of lines 378-388 (and 471-481), on the arrays
    already sorted in phase: the pair [(binned[i], binned_std[i])]. *)
Definition bin_slot (phase_s resid_s err_s : list Q) (i : nat) : npval * npval :=
  let mask := map (fun p => Nat.eqb (Np.digitize p bins) i) phase_s in
  if (1 <? Np.count mask)%nat then
    (Fin (Np.mean (Np.compress mask resid_s)), Fin (std (Np.compress mask resid_s)))
  else if (Np.count mask =? 1)%nat then
    (Fin (hd 0 (Np.compress mask resid_s)), Fin (hd 0 (Np.compress mask err_s)))
  else (NaN, NaN).

(** Lines 371-388 (and 464-481): sort in phase, then fill [binned] and
    [binned_std], one entry for each element of [bins]. *)
Definition bin_phase_folded (phase resid err : list Q) : list npval * list npval :=
  let si := argsort phase in
  let slots := map (bin_slot (Np.take phase si) (Np.take resid si) (Np.take err si))
                   (seq 0 (List.length bins)) in
  (map fst slots, map snd slots).

(** The basis of a harmonic refit: a sine and a cosine row for each period,
    and a last row of ones. *)
Definition harmonic_basis (ep : list Q) (ps : list Q) : list (list Q) :=
  flat_map (fun p => [map (fun e => np_sin (2 * np_pi * e / p)) ep;
                      map (fun e => np_cos (2 * np_pi * e / p)) ep]) ps
  ++ [map (fun _ => 1) ep].

Definition plot_periodogram (self : linear_fitter) : result periodogram :=
  (* compute a period range *)
  let si := argsort (epochs self) in
  dmin <- Np.min (Np.diff (Np.take (epochs self) si)) ;;
  let minper := Py.max 2 (2 * dmin) in
  emax <- Np.max (epochs self) ;;
  emin <- Np.min (epochs self) ;;
  let maxper := (emax - emin) * 3 in
  let call1 := {| ls_t := epochs self; ls_y := residuals self; ls_dy := dataerr self;
                  minimum_frequency := 1 / maxper; maximum_frequency := 1 / minper;
                  nyquist_factor := 2 |} in
  let fp := autopower call1 in
  (* phase fold data at max peak *)
  mi <- Np.argmax (snd fp) ;;
  f <- getidx (fst fp) mi ;;
  let per := 1 / f in
  let newphase := map (fun e => Np.mod1 (e / per)) (epochs self) in
  (* find best fit signal with 1 period *)
  let n := List.length (epochs self) in
  let basis := harmonic_basis (epochs self) [per] in
  let w := map (fun e => 1 / e ^ 2) (dataerr self) in
  let coeffs := wls_params {| endog := residuals self; exog := Np.transpose n basis;
                              weights := w |} in
  let y_bestfit := Np.dot (Np.transpose n basis) coeffs in
  let b1 := bin_phase_folded newphase (residuals self) (dataerr self) in
  (* detrend data and fit again *)
  let resid2 := Np.map2 Qminus (residuals self) y_bestfit in
  let maxper2 := 50 in
  let call2 := {| ls_t := epochs self; ls_y := resid2; ls_dy := dataerr self;
                  minimum_frequency := 1 / maxper2; maximum_frequency := 1 / minper;
                  nyquist_factor := 2 |} in
  let fp2 := autopower call2 in
  mi2 <- Np.argmax (snd fp2) ;;
  f2 <- getidx (fst fp2) mi2 ;;
  let per2 := 1 / f2 in
  (* find best fit signal with 2 periods *)
  let basis2 := harmonic_basis (epochs self) [per; per2] in
  let coeffs2 := wls_params {| endog := residuals self; exog := Np.transpose n basis2;
                               weights := w |} in
  let newphase2 := map (fun e => Np.mod1 (e / per2)) (epochs self) in
  let b2 := bin_phase_folded newphase2 resid2 (dataerr self) in
  Ok {| minper := minper; maxper := maxper; pass1 := call1;
        periods := map (fun x => 1 / x) (fst fp); power := snd fp;
        per := per; newphase := newphase; coeffs := coeffs; y_bestfit := y_bestfit;
        binned := fst b1; binned_std := snd b1;
        detrended := resid2; maxper2 := maxper2; pass2 := call2; per2 := per2;
        coeffs2 := coeffs2; newphase2 := newphase2;
        binned2 := fst b2; binned_std2 := snd b2 |}.

End Fitter.

(** ** Deterministic stand-ins for the external capabilities

    Concrete instances of the section's variables, used to run the fitter on
    concrete data. *)

Module Stub.

(** The square root of a rational, rounded down to 53 fractional bits; exact
    on squares of such rationals. *)
Definition sqrt (x : Q) : Q :=
  let y := Qred x in
  Qmake (Z.sqrt (Qnum y * Zpos (Qden y) * 2 ^ 106)) (Qden y * 2 ^ 53).

(** The first terms of the series of sine and cosine, and a rational
    approximation of pi. *)
Definition sin (x : Q) : Q := x - x * x * x / 6.

Definition cos (x : Q) : Q := 1 - x * x / 2.

Definition pi : Q := 355 # 113.

(** A sampler that answers with the image of the centre of the unit cube as
    its maximum-likelihood point and with the images of its corners [0] and
    [1] as credible bounds. *)
Definition run (c : sampler_call) : result sampler_results :=
  let at_ (x : Q) := transform_fn c (map (fun _ => x) (param_names c)) in
  Ok {| maximum_likelihood_point := at_ (1 # 2);
        posterior_stdev := map (fun _ => 0) (param_names c);
        posterior_errlo := at_ 0;
        posterior_errup := at_ 1 |}.

(** The same sampler, refusing any call that does not carry the budget of
    line 103. *)
Definition strict_run (c : sampler_call) : result sampler_results :=
  if Qeq_bool (max_ncalls c) 400000 && Z.eqb (min_num_live_points c) 420
  then run c
  else Raise (External "UnexpectedBudget").

(** A spectral estimator whose grid is the two limits it was given, with
    all the power at the upper one. *)
Definition autopower (c : ls_call) : list Q * list Q :=
  ([minimum_frequency c; maximum_frequency c], [0; 1]).

(** A regression that finds no signal: every coefficient is zero. *)
Definition wls_params (c : wls_call) : list Q :=
  map (fun _ => 0) (hd [] (exog c)).

Definition init := __init__ run.

Definition periodogram_of := plot_periodogram sqrt sin cos pi autopower wls_params.

End Stub.

(** ** The properties the specification states, in its words *)

(** [k] is a nearest integer to [x]: no integer is closer. *)
Definition nearest_integer (x : Q) (k : Z) : Prop :=
  forall j : Z, Qabs (x - inject_Z k) <= Qabs (x - inject_Z j).

(** The sum over the indices [0 .. n-1]. *)
Definition sum_upto (n : nat) (f : nat -> Q) : Q := Np.sum (map f (seq 0 n)).

(** The log of the chi-square likelihood of the line [m*epoch + b]. *)
Definition log_chi_square (d derr ep : list Q) (m b : Q) : Q :=
  - (1 # 2) * sum_upto (List.length d)
      (fun i => ((nth i d 0 - (m * nth i ep 0 + b)) / nth i derr 0) ^ 2).

(** The unit cube and the box of the bounds, one coordinate for each key. *)
Definition in_unit_cube (b : dict (Q * Q)) (u : list Q) : Prop :=
  List.length u = List.length b /\ Forall (fun x => 0 <= x <= 1) u.

Definition in_bounds_box (b : dict (Q * Q)) (p : list Q) : Prop :=
  Forall2 (fun e x => fst (snd e) <= x <= snd (snd e)) b p.

Definition bounds_ordered (b : dict (Q * Q)) : Prop :=
  Forall (fun e => fst (snd e) < snd (snd e)) b.

(** The sample standard deviation: the divisor is [n - 1]. *)
Definition sample_std (np_sqrt : Q -> Q) (a : list Q) : Q :=
  np_sqrt (Np.sum (map (fun x => (x - Np.mean a) ^ 2) a)
           / inject_Z (Z.of_nat (List.length a - 1))).

(** The points that fall in slot [i] of the bins, each a residual paired with
    its own measurement uncertainty, in the order of the data. *)
Definition slot_points (phase resid err : list Q) (i : nat) : list (Q * Q) :=
  map snd (filter (fun pt => Nat.eqb (Np.digitize (fst pt) bins) i)
                  (combine phase (combine resid err))).

(** Two entries agree: both are [NaN], or both are numbers of the same
    value. *)
Definition npval_eq (a b : npval) : Prop :=
  match a, b with
  | Fin x, Fin y => x == y
  | NaN, NaN => True
  | _, _ => False
  end.

(** What a slot holding the points [pts] reports as [(mean, stdev)], for a
    given notion [stdev] of the standard deviation of two or more values
    (taken in some order). *)
Definition slot_summary (stdev : list Q -> Q) (pts : list (Q * Q)) (m s : npval) : Prop :=
  match pts with
  | [] => m = NaN /\ s = NaN
  | [(r, e)] => npval_eq m (Fin r) /\ npval_eq s (Fin e)
  | _ => exists rs, Permutation rs (map fst pts) /\
                    npval_eq m (Fin (Np.mean rs)) /\ npval_eq s (Fin (stdev rs))
  end.

(** A binning pass: phases in [[0,1)], eight entries, each the summary of the
    points of its slot. *)
Definition binning_pass (stdev : list Q -> Q) (phase resid err : list Q)
    (binned binned_std : list npval) : Prop :=
  Forall (fun p => 0 <= p < 1) phase /\
  List.length binned = 8%nat /\ List.length binned_std = 8%nat /\
  (forall p, In p phase -> (Np.digitize p bins < 8)%nat) /\
  forall i, (i < 8)%nat ->
    slot_summary stdev (slot_points phase resid err i)
                 (nth i binned NaN) (nth i binned_std NaN).

(** The least distance between neighbours of the sorted epochs: [dmin] is
    the distance of two neighbours, and no two neighbours are closer. *)
Definition min_spacing (ep : list Q) (dmin : Q) : Prop :=
  exists sorted, Permutation sorted ep /\ StronglySorted Qle sorted /\
    (exists i, (S i < List.length sorted)%nat /\
               dmin = nth (S i) sorted 0 - nth i sorted 0) /\
    (forall i, (S i < List.length sorted)%nat ->
               dmin <= nth (S i) sorted 0 - nth i sorted 0).

Definition is_minimum (a : list Q) (x : Q) : Prop := In x a /\ Forall (fun y => x <= y) a.

Definition is_maximum (a : list Q) (x : Q) : Prop := In x a /\ Forall (fun y => y <= x) a.

(** [m] is the larger of [a] and [b]. *)
Definition is_larger_of (a b m : Q) : Prop := a <= m /\ b <= m /\ (m = a \/ m = b).

(** The period [p] is the peak of what the estimator answers to the call
    [c]: the reciprocal of the frequency at the first index of greatest
    power. *)
Definition peak_of (autopower : ls_call -> list Q * list Q) (c : ls_call) (p : Q) : Prop :=
  exists mi f, Np.argmax (snd (autopower c)) = Ok mi /\
               getidx (fst (autopower c)) mi = Ok f /\ p = 1 / f.

(** Bounds the specification calls malformed: a parameter key is missing, or
    some entry has [low >= high]. *)
Definition malformed_bounds (b : dict (Q * Q)) : Prop :=
  raises "KeyError" (getitem b "m") \/ raises "KeyError" (getitem b "b") \/
  Exists (fun e => snd (snd e) <= fst (snd e)) b.

(** The budget and the live-point count are configuration: some input makes
    the call at line 103 carry other values than the built-in ones. *)
Definition budget_is_configurable : Prop :=
  exists (s : fitter_inputs) (ep : list Q),
    ~ max_ncalls (fit_nested_call s ep) == 400000 \/
    min_num_live_points (fit_nested_call s ep) <> 420%Z.

(** ** A small dataset *)

Module Example.

Definition d : list Q := [1 # 2; 8; 65 # 4].

Definition derr : list Q := [1 # 100; 2 # 100; 3 # 100].

Definition bounds : dict (Q * Q) := [("m"%string, (1, 3)); ("b"%string, (-1, 1))].

Definition prior : dict (Q * Q) := [("m"%string, (2, 1 # 10)); ("b"%string, (0, 1 # 10))].

(** Bounds with [low == high] for the slope. *)
Definition degenerate : dict (Q * Q) := [("m"%string, (5, 5)); ("b"%string, (0, 1))].

(** Bounds under other keys than 'm' and 'b'. *)
Definition misnamed : dict (Q * Q) := [("slope"%string, (5, 5))].

End Example.

(** The fitted object and the periodogram of the small dataset, with the
    stand-ins. *)
Definition example_run (b : dict (Q * Q)) : result (linear_fitter * periodogram) :=
  self <- Stub.init Example.d Example.derr (Some b) (Some Example.prior) ;;
  r <- Stub.periodogram_of self ;;
  Ok (self, r).

(** ** Auxiliary definitions for the proofs *)

(** The points read through an index array. *)
Definition points_at (phase resid err : list Q) (idx : list nat) : list (Q * (Q * Q)) :=
  map (fun j => (nth j phase 0, (nth j resid 0, nth j err 0))) idx.

Definition in_slot (i : nat) (pt : Q * (Q * Q)) : bool :=
  Nat.eqb (Np.digitize (fst pt) bins) i.

Definition slot_mask (phase : list Q) (idx : list nat) (i : nat) : list bool :=
  map (fun p => Nat.eqb (Np.digitize p bins) i) (Np.take phase idx).

(** The small dataset as the attributes set by the constructor. *)
Definition example_inputs : fitter_inputs :=
  {| in_data := Example.d; in_dataerr := Example.derr;
     in_bounds := Example.bounds; in_prior := Example.prior |}.

(** ** [plot_triangle], [plot_oc] and [main]: what they compute

    As for [plot_periodogram], the drawing itself is left out: the records
    below hold the values the three functions compute and hand to the
    plotting library. *)

(** [d.get(k, default)] *)
Definition dict_get {V : Type} (d : dict V) (k : string) (default : V) : V :=
  match getitem d k with
  | Ok v => v
  | Raise _ => default
  end.

(** The comparisons [a > c] and [a < c] of an array with a number, and the
    elementwise [&] of two masks of one shape. *)
Definition gt_mask (a : list Q) (c : Q) : list bool :=
  map (fun x => negb (Qle_bool x c)) a.

Definition lt_mask (a : list Q) (c : Q) : list bool :=
  map (fun x => negb (Qle_bool c x)) a.

Definition and_mask (m1 m2 : list bool) : list bool := Np.map2 andb m1 m2.

(** The column [points[:,i]] of an array given by its rows. *)
Definition column (points : list (list Q)) (i : nat) : list Q :=
  map (fun row => nth i row 0) points.

(** The entries of [self.results] that [plot_triangle] reads:
    [results['weighted_samples']['logl']],
    [results['weighted_samples']['points']] (one row for each sample) and
    [results['samples'].shape[0]]. *)
Record sample_set : Type := {
  ws_logl : list Q;
  ws_points : list (list Q);
  n_samples : nat
}.

(** What [plot_triangle] hands to [corner]: the labels and ranges of the
    axes, the three masks, [chi2], the number of bins and the contour
    levels.  The titles, which are formatted text, are left out. *)
Record triangle : Type := {
  labels : list string;
  ranges : list (Q * Q);
  mask1 : list bool;
  mask2 : list bool;
  mask3 : list bool;
  chi2 : list Q;
  hist_bins : nat;
  levels : list Q;
  vmin : Q;
  vmax : Q
}.

Definition flabels : dict string :=
  [("m", "Period [day]"); ("b", "T_mid [JD]")]%string.

(** The loop of lines 235-256 over [enumerate(self.quantiles)]; the
    accumulator holds [labels], [ranges], [mask1], [mask2] and [mask3].  The
    title reads [parameters[key]] and then [errors[key]]; the keys 'a1' and
    'a2' get a label and a range, and no cut. *)
Fixpoint plot_triangle_loop (self : linear_fitter) (points : list (list Q)) (i : nat)
    (ks : list string)
    (acc : list string * list (Q * Q) * list bool * list bool * list bool)
    : result (list string * list (Q * Q) * list bool * list bool * list bool) :=
  match ks with
  | [] => Ok acc
  | key :: ks' =>
      let '(lbls, rngs, m1, m2, m3) := acc in
      p <- getitem (parameters self) key ;;
      s <- getitem (errors self) key ;;
      let lbls' := lbls ++ [dict_get flabels key key] in
      let rngs' := rngs ++ [(p - 5 * s, p + 5 * s)] in
      if (String.eqb key "a2" || String.eqb key "a1")%bool then
        plot_triangle_loop self points (S i) ks' (lbls', rngs', m1, m2, m3)
      else
        let col := column points i in
        let m3' := and_mask (and_mask m3 (gt_mask col (p - 3 * s))) (lt_mask col (p + 3 * s)) in
        let m1' := and_mask (and_mask m1 (gt_mask col (p - s))) (lt_mask col (p + s)) in
        let m2' := and_mask (and_mask m2 (gt_mask col (p - 2 * s))) (lt_mask col (p + 2 * s)) in
        plot_triangle_loop self points (S i) ks' (lbls', rngs', m1', m2', m3')
  end.

(** What [plot_oc] computes: the upsampled epochs and model, the limits of
    the x axis, the Monte-Carlo differences and their bands (in minutes), the
    limits of the y axis when [ylim] asks for them, and the same for the prior
    ephemeris, with the line [(model - prior) * 24 * 60] that is drawn
    invisibly. *)
Record oc_plot : Type := {
  ylower : Q;
  yupper : Q;
  oc_epochs : list Q;
  xlim : Q * Q;
  oc_model : list Q;
  oc_diff : list (list Q);
  band : list Q * list Q;
  oc_epochs_p : list Q;
  oc_prior : list Q;
  oc_diff_p : list (list Q);
  hidden_line : list Q;
  band_p : list Q * list Q;
  ylim_set : option (Q * Q)
}.

(** The builtins [min] and [max] over a sequence. *)
Definition py_min_of (a : list Q) : result Q := Np.min a.

Definition py_max_of (a : list Q) : result Q := Np.max a.

Section Rendering.

Variable np_sqrt : Q -> Q.

(** [np.percentile(a, q)] of a one-dimensional array, which NumPy refuses
    with an exception when the array is empty, and along [axis=0] of an array
    given by its rows. *)
Variable np_percentile : list Q -> Q -> result Q.
Variable np_percentile0 : list (list Q) -> Q -> list Q.

(** [np.random.normal(loc, scale, size)], which raises [ValueError] on a
    negative [scale]; the first argument numbers the calls, each of which
    draws anew. *)
Variable np_random_normal : nat -> Q -> Q -> Z -> result (list Q).

(** *** [plot_triangle] *)

Definition plot_triangle (self : linear_fitter) (ws : sample_set) : result triangle :=
  let ones := map (fun _ => true) (ws_logl ws) in
  acc <- plot_triangle_loop self (ws_points ws) 0 (keys (quantiles self))
           ([], [], ones, ones, ones) ;;
  let '(lbls, rngs, m1, m2, m3) := acc in
  let c2 := map (fun l => l * -2) (ws_logl ws) in
  (* the arguments of [corner], in the order they are written *)
  l1 <- np_percentile (Np.compress m1 c2) 95 ;;
  l2 <- np_percentile (Np.compress m2 c2) 95 ;;
  l3 <- np_percentile (Np.compress m3 c2) 95 ;;
  lo <- np_percentile (Np.compress m3 c2) 1 ;;
  hi <- np_percentile (Np.compress m3 c2) 95 ;;
  Ok {| labels := lbls;
        ranges := rngs;
        mask1 := m1;
        mask2 := m2;
        mask3 := m3;
        chi2 := c2;
        hist_bins := Nat.sqrt (n_samples ws);
        levels := [l1; l2; l3];
        vmin := lo;
        vmax := hi |}.

(** *** [plot_oc] *)

(** [np.linspace(self.data.min()-7, self.data.max()+7, 1000)] *)
Definition oc_grid (dmin dmax : Q) : list Q := Np.linspace (dmin - 7) (dmax + 7) 1000.

(** [(grid - b) / m]: the upsampled epochs of an ephemeris, and
    [epochs * m + b]: its times at them. *)
Definition oc_upsample (grid : list Q) (b m : Q) : list Q := map (fun t => (t - b) / m) grid.

Definition oc_line (ep : list Q) (m b : Q) : list Q := map (fun e => e * m + b) ep.

(** [np.expand_dims(epochs,-1) * mc_m + mc_b], transposed, minus [model]:
    one row for each draw, one column for each upsampled epoch. *)
Definition mc_diff (ep mc_m mc_b mdl : list Q) : list (list Q) :=
  Np.map2 (fun m b => Np.map2 Qminus (map (fun e => e * m + b) ep) mdl) mc_m mc_b.

Definition minutes (a : list Q) : list Q := map (fun x => x * 24 * 60) a.

(** The draws number 10000. *)
Definition mc_size : Z := 10000.

(** The band that is filled: the percentiles 2 and 98 of the differences
    with [show_2sigma], and 36 and 64 without. *)
Definition oc_band (show_2sigma : bool) (diff : list (list Q)) : list Q * list Q :=
  if show_2sigma
  then (minutes (np_percentile0 diff 2), minutes (np_percentile0 diff 98))
  else (minutes (np_percentile0 diff 36), minutes (np_percentile0 diff 64)).

(** [min(np.percentile(diff,1,axis=0)*24*60)] and
    [max(np.percentile(diff,99,axis=0)*24*60)] *)
Definition oc_lower (diff : list (list Q)) : result Q :=
  py_min_of (minutes (np_percentile0 diff 1)).

Definition oc_upper (diff : list (list Q)) : result Q :=
  py_max_of (minutes (np_percentile0 diff 99)).

Definition plot_oc (self : linear_fitter) (ylim : string) (show_2sigma : bool)
    : result oc_plot :=
  let ylo := (Np.mean (residuals self) - 3 * std np_sqrt (residuals self)) * 24 * 60 in
  let yup := (Np.mean (residuals self) + 3 * std np_sqrt (residuals self)) * 24 * 60 in
  (* upsample data *)
  dmin <- Np.min (data self) ;;
  dmax <- Np.max (data self) ;;
  pb <- getitem (parameters self) "b" ;;
  pm <- getitem (parameters self) "m" ;;
  let ep := oc_upsample (oc_grid dmin dmax) pb pm in
  (* set the axis limits *)
  emax <- Np.max (epochs self) ;;
  emin <- Np.min (epochs self) ;;
  let depoch := emax - emin in
  let xl := (emin - depoch * (1 # 100), emax + depoch * (1 # 100)) in
  (* best fit solution *)
  let mdl := oc_line ep pm pb in
  (* MonteCarlo the new ephemeris for uncertainty *)
  em <- getitem (errors self) "m" ;;
  mc_m <- np_random_normal 0 pm em mc_size ;;
  eb <- getitem (errors self) "b" ;;
  mc_b <- np_random_normal 1 pb eb mc_size ;;
  let diff := mc_diff ep mc_m mc_b mdl in
  yl1 <- (if String.eqb ylim "diff"
          then lo <- oc_lower diff ;;
               hi <- oc_upper diff ;;
               Ok (Some (lo, hi))
          else Ok None) ;;
  (* overlay the prior ephemeris *)
  prb <- getitem (prior self) "b" ;;
  prm <- getitem (prior self) "m" ;;
  let ep_p := oc_upsample (oc_grid dmin dmax) (fst prb) (fst prm) in
  let pri := oc_line ep_p (fst prm) (fst prb) in
  mc_m_p <- np_random_normal 2 (fst prm) (snd prm) mc_size ;;
  mc_b_p <- np_random_normal 3 (fst prb) (snd prb) mc_size ;;
  let diff_p := mc_diff ep_p mc_m_p mc_b_p mdl in
  yl2 <- (if String.eqb ylim "prior"
          then lo <- oc_lower diff_p ;;
               hi <- oc_upper diff_p ;;
               Ok (Some (lo, hi))
          else if String.eqb ylim "average"
          then lo <- oc_lower diff ;;
               lo_p <- oc_lower diff_p ;;
               hi <- oc_upper diff ;;
               hi_p <- oc_upper diff_p ;;
               Ok (Some ((1 # 2) * (lo + lo_p), (1 # 2) * (hi + hi_p)))
          else Ok yl1) ;;
  Ok {| ylower := ylo; yupper := yup;
        oc_epochs := ep; xlim := xl; oc_model := mdl; oc_diff := diff;
        band := oc_band show_2sigma diff;
        oc_epochs_p := ep_p; oc_prior := pri; oc_diff_p := diff_p;
        hidden_line := minutes (Np.map2 Qminus mdl pri);
        band_p := oc_band show_2sigma diff_p; ylim_set := yl2 |}.

End Rendering.

(** *** [main]: the weighted least squares bootstrap and the fit *)

(** The measured mid-transit times, their uncertainties and the orbital
    period, as written in the source. *)
Definition Tc : list Q :=
  [245658869897499 # 100000000; 245659373645465 # 100000000;
   245664665419785 # 100000000; 245692385589088 # 100000000;
   245697173409754 # 100000000; 245804270521614 # 100000000;
   245804775761158 # 100000000; 245809562091434 # 100000000;
   245810066454441 # 100000000; 245391251471333 # 100000000;
   245446186099 # 100000; 245521532701 # 100000;
   2455530319700 # 1000000; 245654333866 # 100000; 2459854549103 # 1000000].

Definition Tc_error : list Q :=
  [237294 # 100000000; 290445 # 100000000; 647494 # 100000000; 445833 # 100000000;
   477952 # 100000000; 310127 # 100000000; 209248 # 100000000; 99052 # 100000000;
   563974 # 100000000; 54 # 100000;
   24 # 100000; 15 # 100000; 16 # 100000; 28 # 100000; 382 # 1000000].

Definition P : Q := 25199412024 # 10000000000.

(** The prior that reaches the constructor: the second assignment of line
    549, which replaces the one made from the regression. *)
Definition main_prior : dict (Q * Q) :=
  [("m"%string, (25199412024020322 # 10000000000000000, 259214970054424 # 100000000000000000000));
   ("b"%string, (245985454339036 # 100000000, 24412 # 10000000))].

Section Main.

Variable np_sqrt : Q -> Q.

(** [sm.WLS(endog, exog, weights=...).fit()]: [params] and
    [normalized_cov_params]. *)
Variable wls_fit : wls_call -> list Q * list (list Q).

Variable run : sampler_call -> result sampler_results.

(** [np.diagonal] *)
Definition diagonal (m : list (list Q)) : list Q :=
  map (fun i => nth i (nth i m []) 0) (seq 0 (List.length m)).

(** Lines 508-516: the number of orbits of each transit since the first
    observation, the matrix with a column of ones and a column of orbits, and
    the weighted regression of the mid-times on it. *)
Definition main_regression (tmin : Q) : wls_call :=
  let Tc_norm := map (fun t => t - tmin) Tc in
  let orbit := map (fun t => Np.round (t / P)) Tc_norm in
  let A := map (fun o => [1; o]) orbit in
  {| endog := Tc; exog := A; weights := map (fun e => 1 / e ^ 2) Tc_error |}.

(** Lines 492-554 of [main]: the regression, the bounds around the period
    and the regression's intercept, and the fitter.  (The lines after it print,
    call the three plot methods and save their figures.) *)
Definition main : result linear_fitter :=
  tmin <- Np.min Tc ;;
  let res := wls_fit (main_regression tmin) in
  let params := fst res in
  let std_dev := map np_sqrt (diagonal (snd res)) in
  slope <- getidx params 1 ;;
  slope_std_dev <- getidx std_dev 1 ;;
  intercept <- getidx params 0 ;;
  intercept_std_dev <- getidx std_dev 0 ;;
  let bnds := [("m"%string, (P - (1 # 10), P + (1 # 10)));
               ("b"%string, (intercept - (1 # 10), intercept + (1 # 10)))] in
  __init__ run Tc Tc_error (Some bnds) (Some main_prior).

End Main.

(** ** Further definitions for the statements *)

(** The four arrays of the sampler's answer have an entry at [i]. *)
Definition answers_at (res : sampler_results) (i : nat) : Prop :=
  (i < List.length (maximum_likelihood_point res))%nat /\
  (i < List.length (posterior_stdev res))%nat /\
  (i < List.length (posterior_errlo res))%nat /\
  (i < List.length (posterior_errup res))%nat.

(** The classes of the exceptions the constructor raises of itself. *)
Definition own_exception (e : exn) : Prop :=
  exn_class e = "AttributeError"%string \/
  exn_class e = "KeyError"%string \/
  exn_class e = "IndexError"%string.

(** The bounds [__init__] derives when none are given. *)
Definition three_sigma_bounds (mu_m sd_m mu_b sd_b : Q) : dict (Q * Q) :=
  [("m"%string, (mu_m - 3 * sd_m, mu_m + 3 * sd_m));
   ("b"%string, (mu_b - 3 * sd_b, mu_b + 3 * sd_b))].

(** A float that holds an integer. *)
Definition integer_valued (x : Q) : Prop := exists k : Z, x == inject_Z k.

(** The points of all the slots, slot after slot. *)
Definition all_slot_points (phase resid err : list Q) : list (Q * Q) :=
  List.concat (map (slot_points phase resid err) (seq 0 (List.length bins))).

(** A key that [plot_triangle] cuts on. *)
Definition cut_key (key : string) : bool :=
  negb (String.eqb key "a2" || String.eqb key "a1").

(** The coordinate [x] lies strictly within [c] deviations [s] of [p]. *)
Definition within (c p s x : Q) : bool :=
  negb (Qle_bool x (p - c * s)) && negb (Qle_bool (p + c * s) x).

(** The row of a sample passes the cut at [c] deviations: for every key at
    position [i], [i+1], ... that is cut on, the coordinate of the row at
    that position is within [c] deviations of the estimate. *)
Fixpoint row_within (self : linear_fitter) (c : Q) (row : list Q) (i : nat)
    (ks : list string) : bool :=
  match ks with
  | [] => true
  | key :: ks' =>
      (if cut_key key then
         match getitem (parameters self) key, getitem (errors self) key with
         | Ok p, Ok s => within c p s (nth i row 0)
         | _, _ => true
         end
       else true)
      && row_within self c row (S i) ks'
  end.

(** ** Stand-ins for the capabilities of the plots and of [main] *)

Module StubPlot.

(** The point at [q] percent of the way between the extremes of an array;
    0 on an empty one. *)
Definition between_extremes (a : list Q) (q : Q) : Q :=
  match a with
  | [] => 0
  | x :: a' =>
      let lo := fold_left Np.min2 a' x in
      let hi := fold_left Np.max2 a' x in
      lo + (hi - lo) * q / 100
  end.

(** A percentile that interpolates between the extremes of the array, and
    refuses an empty one. *)
Definition percentile (a : list Q) (q : Q) : result Q :=
  match a with
  | [] => Raise (IndexError "index -1 is out of bounds for axis 0 with size 0")
  | _ => Ok (between_extremes a q)
  end.

(** The same along [axis=0]: one value for each column of the first row. *)
Definition percentile0 (rows : list (list Q)) (q : Q) : list Q :=
  map (fun j => between_extremes (map (fun row => nth j row 0) rows) q)
      (seq 0 (List.length (hd [] rows))).

(** Three draws whatever the size asked for: the mean and one deviation to
    each side; a negative deviation is refused. *)
Definition random_normal (call : nat) (loc scale : Q) (size : Z) : result (list Q) :=
  if Qlt_le_dec scale 0 then Raise (ValueError "scale < 0")
  else Ok [loc - scale; loc; loc + scale].

(** A regression that answers with the first observation as intercept, a
    slope of zero, and the identity as covariance. *)
Definition wls_fit (c : wls_call) : list Q * list (list Q) :=
  ([hd 0 (endog c); 0], [[1; 0]; [0; 1]]).

(** Another one, with the same intercept. *)
Definition wls_fit' (c : wls_call) : list Q * list (list Q) :=
  ([hd 0 (endog c); 1; 0], [[4; 0]; [0; 9]]).

(** Two samples of the posterior: the first at the centre of the bounds of
    the small dataset, the second far from it. *)
Definition samples : sample_set :=
  {| ws_logl := [-1; -2]; ws_points := [[2; 0]; [5; 5]]; n_samples := 2 |}.

End StubPlot.

(** The bounds of the small dataset with the keys in the other order. *)
Definition example_swapped : dict (Q * Q) := [("b"%string, (-1, 1)); ("m"%string, (1, 3))].

Definition example_swapped_inputs : fitter_inputs :=
  {| in_data := Example.d; in_dataerr := Example.derr;
     in_bounds := example_swapped; in_prior := Example.prior |}.

(** A fitter with posterior deviations that are not zero, as [plot_triangle]
    needs them to select anything. *)
Definition example_fitter : linear_fitter :=
  {| data := Example.d; dataerr := Example.derr;
     bounds := Example.bounds; prior := Example.prior;
     epochs := [0; 4; 8];
     results := {| maximum_likelihood_point := [2; 0]; posterior_stdev := [1; 1];
                   posterior_errlo := [1; -1]; posterior_errup := [3; 1] |};
     errors := [("m"%string, 1); ("b"%string, 1)];
     quantiles := [("m"%string, (1, 3)); ("b"%string, (-1, 1))];
     parameters := [("m"%string, 2); ("b"%string, 0)];
     model := [0; 8; 16];
     residuals := [1 # 2; 0; 1 # 4] |}.

(** * Proofs *)

(** ** Rounding *)

Lemma floor_bounds (x : Q) : inject_Z (Qfloor x) <= x < inject_Z (Qfloor x) + 1.
Proof.
  split; [apply Qfloor_le|].
  pose proof (Qlt_floor x) as H. rewrite inject_Z_plus in H. exact H.
Qed.

Lemma rint_close (x : Q) : Qabs (x - inject_Z (Np.rint x)) <= 1 # 2.
Proof.
  unfold Np.rint.
  destruct (floor_bounds x) as [Hlo Hhi].
  destruct (Qcompare_spec (x - inject_Z (Qfloor x)) (1 # 2)) as [E | E | E].
  - destruct (Z.even (Qfloor x)).
    + apply Qabs_case; intros; lra.
    + rewrite inject_Z_plus; change (inject_Z 1) with 1; apply Qabs_case; intros; lra.
  - apply Qabs_case; intros; lra.
  - rewrite inject_Z_plus; change (inject_Z 1) with 1; apply Qabs_case; intros; lra.
Qed.

Lemma inject_Z_succ_le (j k : Z) : (j < k)%Z -> inject_Z j + 1 <= inject_Z k.
Proof.
  intros H. change 1 with (inject_Z 1). rewrite <- inject_Z_plus.
  rewrite <- Zle_Qle. lia.
Qed.

Lemma rint_nearest (x : Q) : nearest_integer x (Np.rint x).
Proof.
  intros j. pose proof (rint_close x) as Hc.
  destruct (Z.eq_dec j (Np.rint x)) as [-> | Hne]; [apply Qle_refl|].
  apply Qle_trans with (1 # 2); [exact Hc|].
  revert Hc. apply Qabs_case; intros H1 Hc.
  - destruct (Z.lt_total j (Np.rint x)) as [Hlt | [Heq | Hgt]]; [|contradiction|].
    + apply inject_Z_succ_le in Hlt. apply Qabs_case; intros; lra.
    + apply inject_Z_succ_le in Hgt. apply Qabs_case; intros; lra.
  - destruct (Z.lt_total j (Np.rint x)) as [Hlt | [Heq | Hgt]]; [|contradiction|].
    + apply inject_Z_succ_le in Hlt. apply Qabs_case; intros; lra.
    + apply inject_Z_succ_le in Hgt. apply Qabs_case; intros; lra.
Qed.

#[local] Instance rint_proper : Proper (Qeq ==> eq) Np.rint.
Proof.
  intros x y E. unfold Np.rint.
  assert (Hf : Qfloor x = Qfloor y) by (rewrite E; reflexivity).
  rewrite Hf.
  assert (Hc : Qcompare (x - inject_Z (Qfloor y)) (1 # 2)
               = Qcompare (y - inject_Z (Qfloor y)) (1 # 2)) by (rewrite E; reflexivity).
  rewrite Hc. reflexivity.
Qed.

Lemma rint_mono (x y : Q) : x <= y -> (Np.rint x <= Np.rint y)%Z.
Proof.
  intros Hxy.
  destruct (Z_le_gt_dec (Np.rint x) (Np.rint y)) as [H | H]; [exact H|].
  exfalso.
  assert (Hs : inject_Z (Np.rint y) + 1 <= inject_Z (Np.rint x))
    by (apply inject_Z_succ_le; lia).
  pose proof (rint_close x) as Hx. pose proof (rint_close y) as Hy.
  assert (E : x == y).
  { revert Hx Hy. apply Qabs_case; intros ? Hx; apply Qabs_case; intros ? Hy; lra. }
  rewrite E in H. lia.
Qed.

Lemma nearest_integer_proper (x y : Q) (k : Z) :
  x == y -> nearest_integer x k -> nearest_integer y k.
Proof.
  intros E H j. rewrite <- E. apply H.
Qed.

Lemma mean_pair (a b : Q) : Np.mean [a; b] == (a + b) / 2.
Proof.
  unfold Np.mean, Np.sum. simpl. field.
Qed.

(** ** The result monad *)

Lemma bind_ok {A B : Type} (r : result A) (k : A -> result B) (b : B) :
  bind r k = Ok b -> exists a, r = Ok a /\ k a = Ok b.
Proof.
  destruct r as [a | e]; simpl; intros H; [exists a; auto | discriminate].
Qed.

Ltac bind_inv H :=
  repeat match type of H with
         | bind _ _ = Ok _ =>
             let a := fresh "a" in
             let E := fresh "E" in
             apply bind_ok in H; destruct H as (a & E & H)
         end.

Lemma ok_inj {A : Type} (x y : A) : Ok x = Ok y -> x = y.
Proof. intros H. injection H as H. exact H. Qed.

(** ** Epochs (line 91) *)

Lemma fit_nested_epochs_eq (d : list Q) (b : dict (Q * Q)) (bm bb : Q * Q) :
  getitem b "m" = Ok bm -> getitem b "b" = Ok bb ->
  fit_nested_epochs d b
  = Ok (map (fun t => Np.round ((t - Np.mean [fst bb; snd bb]) / Np.mean [fst bm; snd bm])) d).
Proof.
  intros Hm Hb. unfold fit_nested_epochs. rewrite Hb. simpl. rewrite Hm. reflexivity.
Qed.

Lemma fit_nested_epochs_of (run : sampler_call -> result sampler_results)
    (s : fitter_inputs) (self : linear_fitter) :
  fit_nested run s = Ok self ->
  fit_nested_epochs (in_data s) (in_bounds s) = Ok (epochs self).
Proof.
  unfold fit_nested. intros H. bind_inv H.
  unfold fit_nested_finish in H. bind_inv H.
  injection H as <-. simpl. assumption.
Qed.

(** C1.  For every dataset and every bounds with the keys 'm' and 'b' (and a
    slope midpoint that is not zero), [fit_nested] assigns to the timestamp
    [t] an integer epoch that is a nearest integer to
    [(t - intercept) / slope], where [slope] and [intercept] are the midpoints
    of the bounds of 'm' and of 'b'; the epochs pair with the timestamps
    position by position, and they are [self.epochs] of the fitted object. *)
Theorem epochs_nearest_integer :
  forall (d : list Q) (b : dict (Q * Q)) (lo_m hi_m lo_b hi_b : Q),
    getitem b "m" = Ok (lo_m, hi_m) ->
    getitem b "b" = Ok (lo_b, hi_b) ->
    ~ (lo_m + hi_m) / 2 == 0 ->
    exists ep,
      fit_nested_epochs d b = Ok ep /\
      List.length ep = List.length d /\
      (forall i t, nth_error d i = Some t ->
         exists k : Z,
           nth_error ep i = Some (inject_Z k) /\
           nearest_integer ((t - (lo_b + hi_b) / 2) / ((lo_m + hi_m) / 2)) k) /\
      (forall run derr pr self,
         fit_nested run {| in_data := d; in_dataerr := derr; in_bounds := b; in_prior := pr |}
         = Ok self ->
         epochs self = ep).
Proof.
  intros d b lo_m hi_m lo_b hi_b Hm Hb Hslope.
  eexists. split; [apply (fit_nested_epochs_eq d b _ _ Hm Hb)|].
  split; [apply length_map|]. split.
  - intros i t Hi. simpl.
    exists (Np.rint ((t - Np.mean [lo_b; hi_b]) / Np.mean [lo_m; hi_m])). split.
    + rewrite nth_error_map, Hi. reflexivity.
    + apply nearest_integer_proper
        with (x := (t - Np.mean [lo_b; hi_b]) / Np.mean [lo_m; hi_m]).
      * rewrite !mean_pair. reflexivity.
      * apply rint_nearest.
  - intros run derr pr self Hfit. apply fit_nested_epochs_of in Hfit. simpl in Hfit.
    rewrite (fit_nested_epochs_eq d b _ _ Hm Hb) in Hfit.
    injection Hfit as <-. reflexivity.
Qed.

Lemma StronglySorted_map_mono {A B : Type} (R : A -> A -> Prop) (R' : B -> B -> Prop)
    (f : A -> B) (l : list A) :
  (forall x y, R x y -> R' (f x) (f y)) ->
  StronglySorted R l -> StronglySorted R' (map f l).
Proof.
  intros Hf. induction 1 as [| x l Hs IH Hall]; simpl; constructor.
  - exact IH.
  - rewrite Forall_map. eapply Forall_impl; [|exact Hall]. intros y. apply Hf.
Qed.

Lemma Qdiv_le_mono_pos (x y c : Q) : 0 < c -> x <= y -> x / c <= y / c.
Proof.
  intros Hc Hxy. unfold Qdiv. apply Qmult_le_compat_r; [exact Hxy|].
  apply Qlt_le_weak, Qinv_lt_0_compat, Hc.
Qed.

(** C9.  For strictly increasing timestamps and a positive slope midpoint,
    the mapped epochs are integers and form a non-decreasing sequence. *)
Theorem epochs_monotone :
  forall (d : list Q) (b : dict (Q * Q)) (lo_m hi_m lo_b hi_b : Q),
    getitem b "m" = Ok (lo_m, hi_m) ->
    getitem b "b" = Ok (lo_b, hi_b) ->
    0 < (lo_m + hi_m) / 2 ->
    Sorted Qlt d ->
    exists ep,
      fit_nested_epochs d b = Ok ep /\
      StronglySorted Qle ep /\
      Forall (fun e => exists k : Z, e = inject_Z k) ep.
Proof.
  intros d b lo_m hi_m lo_b hi_b Hm Hb Hslope Hd.
  eexists. split; [apply (fit_nested_epochs_eq d b _ _ Hm Hb)|]. simpl. split.
  - apply StronglySorted_map_mono with (R := Qlt).
    + intros x y Hxy. unfold Np.round. rewrite <- Zle_Qle. apply rint_mono.
      apply Qdiv_le_mono_pos; [rewrite mean_pair; exact Hslope | lra].
    + apply Sorted_StronglySorted; [|exact Hd].
      intros x y z. apply Qlt_trans.
  - rewrite Forall_map. apply Forall_forall. intros t _. eexists. reflexivity.
Qed.

(** ** The log-likelihood (lines 93-96) *)

Lemma fit_nested_epochs_length (d : list Q) (b : dict (Q * Q)) (ep : list Q) :
  fit_nested_epochs d b = Ok ep -> List.length ep = List.length d.
Proof.
  unfold fit_nested_epochs. intros H. bind_inv H.
  injection H as <-. apply length_map.
Qed.

Lemma chi_terms_by_index (g : Q -> Q) (d : list Q) :
  forall ep derr : list Q,
    List.length ep = List.length d ->
    List.length derr = List.length d ->
    map (fun x => x ^ 2) (Np.map2 Qdiv (Np.map2 Qminus d (map g ep)) derr)
    = map (fun i => ((nth i d 0 - g (nth i ep 0)) / nth i derr 0) ^ 2)
          (seq 0 (List.length d)).
Proof.
  induction d as [| t d IH]; intros ep derr Hep Herr; [reflexivity|].
  destruct ep as [| e ep]; [discriminate|].
  destruct derr as [| s derr]; [discriminate|].
  cbn [List.length seq map Np.map2]. f_equal.
  rewrite <- seq_shift, map_map. cbn [nth].
  apply IH; simpl in *; congruence.
Qed.

Lemma loglike_by_position (s : fitter_inputs) (ep pars : list Q) :
  List.length ep = List.length (in_data s) ->
  List.length (in_dataerr s) = List.length (in_data s) ->
  loglike_fn (fit_nested_call s ep) pars
  == log_chi_square (in_data s) (in_dataerr s) ep (nth 0 pars 0) (nth 1 pars 0).
Proof.
  intros Hep Herr.
  unfold fit_nested_call, loglike, log_chi_square, sum_upto. cbn [loglike_fn].
  rewrite (chi_terms_by_index (fun e => nth 0 pars 0 * e + nth 1 pars 0)) by assumption.
  reflexivity.
Qed.

(** C2.  The log-likelihood handed to the sampler, at the parameter vector
    [(m, b)], is [-0.5] times the sum over the observations of
    [((data_i - (m * epoch_i + b)) / dataerr_i)^2], with the epochs of
    line 91. *)
Theorem loglike_is_log_chi_square :
  forall (s : fitter_inputs) (ep : list Q),
    fit_nested_epochs (in_data s) (in_bounds s) = Ok ep ->
    List.length (in_dataerr s) = List.length (in_data s) ->
    forall m b : Q,
      loglike_fn (fit_nested_call s ep) [m; b]
      == log_chi_square (in_data s) (in_dataerr s) ep m b.
Proof.
  intros s ep Hep Herr m b.
  apply fit_nested_epochs_length in Hep.
  apply (loglike_by_position s ep [m; b]); assumption.
Qed.

(** ** The prior transform (lines 88-100) *)

Lemma prior_transform_cons (k : string) (lo hi x : Q) (b : dict (Q * Q)) (u : list Q) :
  prior_transform ((k, (lo, hi)) :: b) (x :: u) = (lo + (hi - lo) * x) :: prior_transform b u.
Proof. reflexivity. Qed.

Lemma prior_transform_length (b : dict (Q * Q)) :
  forall u, List.length u = List.length b -> List.length (prior_transform b u) = List.length b.
Proof.
  induction b as [| [k [lo hi]] b IH]; intros [| x u] H; try discriminate; [reflexivity|].
  rewrite prior_transform_cons. simpl. f_equal. apply IH. simpl in H. congruence.
Qed.

Lemma prior_transform_nth (b : dict (Q * Q)) :
  forall (u : list Q) (i : nat) (k : string) (lo hi x : Q),
    nth_error b i = Some (k, (lo, hi)) ->
    nth_error u i = Some x ->
    nth_error (prior_transform b u) i = Some (lo + (hi - lo) * x).
Proof.
  induction b as [| [k' [lo' hi']] b IH]; intros u i k lo hi x Hb Hu.
  - destruct i; discriminate.
  - destruct u as [| y u]; [destruct i; discriminate|].
    rewrite prior_transform_cons.
    destruct i as [| i]; simpl in *.
    + injection Hb as _ <- <-. injection Hu as <-. reflexivity.
    + eapply IH; eassumption.
Qed.

Lemma prior_transform_into_box (b : dict (Q * Q)) :
  bounds_ordered b -> forall u, in_unit_cube b u -> in_bounds_box b (prior_transform b u).
Proof.
  unfold bounds_ordered, in_unit_cube, in_bounds_box.
  induction b as [| [k [lo hi]] b IH]; intros Hb u [Hlen Hu].
  - destruct u; [constructor | discriminate].
  - destruct u as [| x u]; [discriminate|].
    inversion Hb as [| ? ? Hlt Hb']; subst. inversion Hu as [| ? ? Hx Hu']; subst.
    rewrite prior_transform_cons. constructor.
    + simpl in *. split; nra.
    + apply IH; [exact Hb'|]. split; [simpl in Hlen; congruence | exact Hu'].
Qed.

Lemma prior_transform_injective (b : dict (Q * Q)) :
  bounds_ordered b ->
  forall u v,
    List.length u = List.length b -> List.length v = List.length b ->
    Forall2 Qeq (prior_transform b u) (prior_transform b v) -> Forall2 Qeq u v.
Proof.
  unfold bounds_ordered.
  induction b as [| [k [lo hi]] b IH]; intros Hb u v Hu Hv H.
  - destruct u, v; try discriminate. constructor.
  - destruct u as [| x u], v as [| y v]; try discriminate.
    inversion Hb as [| ? ? Hlt Hb']; subst.
    rewrite !prior_transform_cons in H. inversion H as [| ? ? ? ? Hxy Hrest]; subst.
    constructor.
    + simpl in Hlt. apply (Qmult_inj_l x y (hi - lo)); lra.
    + apply IH; simpl in *; try congruence; assumption.
Qed.

Lemma prior_transform_onto (b : dict (Q * Q)) :
  bounds_ordered b ->
  forall p, in_bounds_box b p ->
    exists u, in_unit_cube b u /\ Forall2 Qeq (prior_transform b u) p.
Proof.
  unfold bounds_ordered, in_bounds_box, in_unit_cube.
  induction b as [| [k [lo hi]] b IH]; intros Hb p Hp.
  - inversion Hp; subst. exists []. repeat split; constructor.
  - inversion Hp as [| ? y ? p' [Hlo Hhi] Hp']; subst.
    inversion Hb as [| ? ? Hlt Hb']; subst. simpl in Hlt, Hlo, Hhi.
    destruct (IH Hb' p' Hp') as (u & [Hlen Hu] & Hu').
    exists ((y - lo) / (hi - lo) :: u). split; [split|].
    + simpl. congruence.
    + constructor; [|exact Hu]. split.
      * apply Qle_shift_div_l; lra.
      * apply Qle_shift_div_r; lra.
    + rewrite prior_transform_cons. constructor; [|exact Hu'].
      field. lra.
Qed.

(** C3.  The prior transform handed to the sampler returns
    [low + (high - low) * u] coordinate by coordinate, in the order of the
    keys of the bounds; when [low < high] for every key it maps the unit cube
    into the box of the bounds, distinct points to distinct points, and onto
    the whole box. *)
Theorem prior_transform_bijection :
  forall (s : fitter_inputs) (ep : list Q),
    let b := in_bounds s in
    let T := transform_fn (fit_nested_call s ep) in
    (forall u, List.length u = List.length b ->
       List.length (T u) = List.length b /\
       forall i k lo hi x,
         nth_error b i = Some (k, (lo, hi)) ->
         nth_error u i = Some x ->
         nth_error (T u) i = Some (lo + (hi - lo) * x)) /\
    (bounds_ordered b ->
       (forall u, in_unit_cube b u -> in_bounds_box b (T u)) /\
       (forall u v, in_unit_cube b u -> in_unit_cube b v ->
          Forall2 Qeq (T u) (T v) -> Forall2 Qeq u v) /\
       (forall p, in_bounds_box b p ->
          exists u, in_unit_cube b u /\ Forall2 Qeq (T u) p)).
Proof.
  intros s ep b T. subst b T. cbn [fit_nested_call transform_fn]. split.
  - intros u Hu. split; [apply prior_transform_length, Hu|].
    intros i k lo hi x. apply prior_transform_nth.
  - intros Hb. split; [|split].
    + apply prior_transform_into_box, Hb.
    + intros u v [Hu _] [Hv _]. apply prior_transform_injective; assumption.
    + apply prior_transform_onto, Hb.
Qed.

(** ** Sorting by [np.argsort] *)

Lemma map_snd_combine_seq {A : Type} (a : list A) :
  forall s, map snd (combine a (seq s (List.length a))) = seq s (List.length a).
Proof.
  induction a as [| x a IH]; intros s; simpl; [reflexivity|]. f_equal. apply IH.
Qed.

Lemma map_fst_combine_seq {A : Type} (a : list A) :
  forall s, map fst (combine a (seq s (List.length a))) = a.
Proof.
  induction a as [| x a IH]; intros s; simpl; [reflexivity|]. f_equal. apply IH.
Qed.

Lemma in_combine_seq_nth (a : list Q) :
  forall s x i, In (x, i) (combine a (seq s (List.length a))) ->
    (s <= i)%nat /\ nth (i - s) a 0 = x.
Proof.
  induction a as [| y a IH]; intros s x i H; simpl in H; [contradiction|].
  destruct H as [H | H].
  - injection H as -> ->. split; [lia|]. rewrite Nat.sub_diag. reflexivity.
  - apply IH in H. destruct H as [Hle Hn]. split; [lia|].
    replace (i - s)%nat with (S (i - S s)) by lia. exact Hn.
Qed.

Lemma argsort_permutation (a : list Q) : Permutation (argsort a) (seq 0 (List.length a)).
Proof.
  unfold argsort.
  apply Permutation_trans with (map snd (combine a (seq 0 (List.length a)))).
  - apply Permutation_map, Permutation_sym, KeySort.Permuted_sort.
  - rewrite map_snd_combine_seq. apply Permutation_refl.
Qed.

Lemma take_argsort (a : list Q) :
  Np.take a (argsort a) = map fst (KeySort.sort (combine a (seq 0 (List.length a)))).
Proof.
  unfold Np.take, argsort. rewrite map_map. apply map_ext_in.
  intros [x i] Hin. simpl.
  apply (Permutation_in _ (Permutation_sym (KeySort.Permuted_sort _))) in Hin.
  apply in_combine_seq_nth in Hin. destruct Hin as [_ Hn].
  rewrite Nat.sub_0_r in Hn. exact Hn.
Qed.

Lemma take_argsort_permutation (a : list Q) : Permutation (Np.take a (argsort a)) a.
Proof.
  rewrite take_argsort.
  apply Permutation_trans with (map fst (combine a (seq 0 (List.length a)))).
  - apply Permutation_map, Permutation_sym, KeySort.Permuted_sort.
  - rewrite map_fst_combine_seq. apply Permutation_refl.
Qed.

Lemma take_argsort_sorted (a : list Q) : StronglySorted Qle (Np.take a (argsort a)).
Proof.
  rewrite take_argsort.
  apply StronglySorted_map_mono with (R := fun x y => is_true (KeyOrder.leb x y)).
  - intros x y H. apply Qle_bool_iff. exact H.
  - apply KeySort.StronglySorted_sort.
    intros x y z Hxy Hyz. unfold is_true, KeyOrder.leb in *.
    rewrite Qle_bool_iff in *. eapply Qle_trans; eassumption.
Qed.

(** ** Reductions *)

Lemma fold_min2_spec (a : list Q) :
  forall x, In (fold_left Np.min2 a x) (x :: a) /\
            Forall (fun y => fold_left Np.min2 a x <= y) (x :: a).
Proof.
  induction a as [| y a IH]; intros x; simpl.
  - split; [left; reflexivity | constructor; [apply Qle_refl | constructor]].
  - destruct (IH (Np.min2 x y)) as [Hin Hall]. inversion Hall as [| ? ? Hm Hrest]; subst.
    assert (Hxy : Np.min2 x y <= x /\ Np.min2 x y <= y /\ (Np.min2 x y = x \/ Np.min2 x y = y)).
    { unfold Np.min2. destruct (Qlt_le_dec y x); repeat split; auto; lra. }
    destruct Hxy as (Hx & Hy & Hor). split.
    + destruct Hin as [Hin | Hin]; [|right; right; exact Hin].
      rewrite <- Hin. destruct Hor as [-> | ->]; [left | right; left]; reflexivity.
    + constructor; [lra|]. constructor; [lra | exact Hrest].
Qed.

Lemma fold_max2_spec (a : list Q) :
  forall x, In (fold_left Np.max2 a x) (x :: a) /\
            Forall (fun y => y <= fold_left Np.max2 a x) (x :: a).
Proof.
  induction a as [| y a IH]; intros x; simpl.
  - split; [left; reflexivity | constructor; [apply Qle_refl | constructor]].
  - destruct (IH (Np.max2 x y)) as [Hin Hall]. inversion Hall as [| ? ? Hm Hrest]; subst.
    assert (Hxy : x <= Np.max2 x y /\ y <= Np.max2 x y /\ (Np.max2 x y = x \/ Np.max2 x y = y)).
    { unfold Np.max2. destruct (Qlt_le_dec x y); repeat split; auto; lra. }
    destruct Hxy as (Hx & Hy & Hor). split.
    + destruct Hin as [Hin | Hin]; [|right; right; exact Hin].
      rewrite <- Hin. destruct Hor as [-> | ->]; [left | right; left]; reflexivity.
    + constructor; [lra|]. constructor; [lra | exact Hrest].
Qed.

Lemma np_min_spec (a : list Q) (x : Q) : Np.min a = Ok x -> is_minimum a x.
Proof.
  destruct a as [| y a]; simpl; intros H; [discriminate|].
  injection H as <-. apply fold_min2_spec.
Qed.

Lemma np_max_spec (a : list Q) (x : Q) : Np.max a = Ok x -> is_maximum a x.
Proof.
  destruct a as [| y a]; simpl; intros H; [discriminate|].
  injection H as <-. apply fold_max2_spec.
Qed.

Lemma py_max_spec (a b : Q) : is_larger_of a b (Py.max a b).
Proof.
  unfold is_larger_of, Py.max. destruct (Qlt_le_dec a b); repeat split; auto; lra.
Qed.

(** ** The least spacing of the sorted epochs (lines 288-289) *)

Lemma diff_length (a : list Q) : List.length (Np.diff a) = (List.length a - 1)%nat.
Proof.
  induction a as [| x [| y a] IH]; try reflexivity.
  change (Np.diff (x :: y :: a)) with ((y - x) :: Np.diff (y :: a)).
  cbn [List.length] in *. lia.
Qed.

(** The entries of [np.diff] are the distances of neighbours. *)
Lemma diff_nth (a : list Q) :
  forall i, (S i < List.length a)%nat -> nth i (Np.diff a) 0 = nth (S i) a 0 - nth i a 0.
Proof.
  induction a as [| x [| y a] IH]; intros i Hi; cbn [List.length] in Hi; try lia.
  change (Np.diff (x :: y :: a)) with ((y - x) :: Np.diff (y :: a)).
  destruct i as [| i]; [reflexivity|].
  cbn [nth]. rewrite IH by (cbn [List.length]; lia). reflexivity.
Qed.

Lemma np_min_diff_spacing (ep : list Q) (dmin : Q) :
  Np.min (Np.diff (Np.take ep (argsort ep))) = Ok dmin -> min_spacing ep dmin.
Proof.
  intros H. apply np_min_spec in H. destruct H as [Hin Hall].
  exists (Np.take ep (argsort ep)).
  split; [apply take_argsort_permutation|]. split; [apply take_argsort_sorted|].
  set (sorted := Np.take ep (argsort ep)) in *. split.
  - apply (In_nth _ _ 0) in Hin. destruct Hin as (i & Hi & E).
    rewrite diff_length in Hi. exists i. split; [lia|].
    rewrite <- E. apply diff_nth. lia.
  - intros i Hi. rewrite <- diff_nth by exact Hi.
    rewrite Forall_forall in Hall. apply Hall, nth_In. rewrite diff_length. lia.
Qed.

(** ** The two calls of the estimator (lines 293-294 and 404-405) *)

(** [autopower] is run on [pass1 r] and on [pass2 r]: the spectrum and the
    two periods are read off its answers to these calls, and an estimator that
    answers them alike gives the same values. *)
Lemma plot_periodogram_calls np_sqrt np_sin np_cos np_pi autopower wls_params
    (self : linear_fitter) (r : periodogram) :
  plot_periodogram np_sqrt np_sin np_cos np_pi autopower wls_params self = Ok r ->
  pass1 r = {| ls_t := epochs self; ls_y := residuals self; ls_dy := dataerr self;
               minimum_frequency := 1 / maxper r; maximum_frequency := 1 / minper r;
               nyquist_factor := 2 |} /\
  pass2 r = {| ls_t := epochs self; ls_y := detrended r; ls_dy := dataerr self;
               minimum_frequency := 1 / maxper2 r; maximum_frequency := 1 / minper r;
               nyquist_factor := 2 |} /\
  periods r = map (fun f => 1 / f) (fst (autopower (pass1 r))) /\
  power r = snd (autopower (pass1 r)) /\
  peak_of autopower (pass1 r) (per r) /\
  peak_of autopower (pass2 r) (per2 r) /\
  forall autopower' : ls_call -> list Q * list Q,
    autopower' (pass1 r) = autopower (pass1 r) ->
    autopower' (pass2 r) = autopower (pass2 r) ->
    plot_periodogram np_sqrt np_sin np_cos np_pi autopower' wls_params self = Ok r.
Proof.
  unfold plot_periodogram.
  destruct (Np.min (Np.diff _)) as [dmin | e] eqn:E1; cbn [bind]; [|discriminate].
  destruct (Np.max (epochs self)) as [emax | e] eqn:E2; cbn [bind]; [|discriminate].
  destruct (Np.min (epochs self)) as [emin | e] eqn:E3; cbn [bind]; [|discriminate].
  match goal with
  | |- bind ?c _ = _ -> _ => destruct c as [mi | e] eqn:E4; cbn [bind]; [|discriminate]
  end.
  match goal with
  | |- bind ?c _ = _ -> _ => destruct c as [f | e] eqn:E5; cbn [bind]; [|discriminate]
  end.
  match goal with
  | |- bind ?c _ = _ -> _ => destruct c as [mi2 | e] eqn:E6; cbn [bind]; [|discriminate]
  end.
  match goal with
  | |- bind ?c _ = _ -> _ => destruct c as [f2 | e] eqn:E7; cbn [bind]; [|discriminate]
  end.
  intros H. apply ok_inj in H. subst r.
  cbn [pass1 pass2 periods power per per2 minper maxper maxper2 detrended].
  split; [reflexivity|]. split; [reflexivity|]. split; [reflexivity|].
  split; [reflexivity|].
  split; [exists mi, f; repeat split; assumption|].
  split; [exists mi2, f2; repeat split; assumption|].
  intros autopower' H1 H2.
  rewrite H1, E4. cbn [bind]. rewrite E5. cbn [bind].
  rewrite H2, E6. cbn [bind]. rewrite E7. cbn [bind]. reflexivity.
Qed.

Lemma pass_limits np_sqrt np_sin np_cos np_pi autopower wls_params
    (self : linear_fitter) (r : periodogram) :
  plot_periodogram np_sqrt np_sin np_cos np_pi autopower wls_params self = Ok r ->
  minimum_frequency (pass1 r) = 1 / maxper r /\
  maximum_frequency (pass1 r) = 1 / minper r /\
  minimum_frequency (pass2 r) = 1 / maxper2 r /\
  maximum_frequency (pass2 r) = 1 / minper r.
Proof.
  intros H. destruct (plot_periodogram_calls _ _ _ _ _ _ _ _ H) as (-> & -> & _).
  repeat split; reflexivity.
Qed.

(** The period range of lines 288-290 and 402. *)
Lemma period_range_of np_sqrt np_sin np_cos np_pi autopower wls_params
    (self : linear_fitter) (r : periodogram) :
  plot_periodogram np_sqrt np_sin np_cos np_pi autopower wls_params self = Ok r ->
  exists dmin emin emax,
    min_spacing (epochs self) dmin /\
    is_minimum (epochs self) emin /\
    is_maximum (epochs self) emax /\
    minper r = Py.max 2 (2 * dmin) /\
    maxper r = (emax - emin) * 3 /\
    maxper2 r = 50.
Proof.
  intros H. unfold plot_periodogram in H. bind_inv H. apply ok_inj in H. subst r.
  cbn [minper maxper maxper2].
  match goal with
  | E1 : Np.min (Np.diff _) = Ok ?d, E2 : Np.max _ = Ok ?M, E3 : Np.min (epochs self) = Ok ?m
    |- _ => exists d, m, M; apply np_min_diff_spacing in E1; apply np_min_spec in E3;
            apply np_max_spec in E2
  end.
  repeat (split; [assumption || reflexivity|]). reflexivity.
Qed.

(** C4.  In [plot_periodogram] the minimum period is the larger of 2 and
    twice the least spacing of the sorted epochs, the same in both passes;
    the maximum period is three times the range of the epochs in the first
    pass and 50 in the second; the estimator receives the reciprocals of
    these periods as its frequency limits.  The calls [pass1 r] and [pass2 r]
    that carry these limits are the ones the estimator is run on: the
    spectrum and the period of the first pass are read off its answer to
    [pass1 r], the period of the second pass off its answer to [pass2 r], and
    what is computed depends on the estimator through these two answers
    only. *)
Theorem periodogram_period_range :
  forall np_sqrt np_sin np_cos np_pi autopower wls_params (self : linear_fitter)
         (r : periodogram),
    plot_periodogram np_sqrt np_sin np_cos np_pi autopower wls_params self = Ok r ->
    ~ maxper r == 0 ->
    exists dmin emin emax,
      min_spacing (epochs self) dmin /\
      is_minimum (epochs self) emin /\
      is_maximum (epochs self) emax /\
      is_larger_of 2 (2 * dmin) (minper r) /\
      maxper r = (emax - emin) * 3 /\
      maxper2 r = 50 /\
      maximum_frequency (pass1 r) = 1 / minper r /\
      minimum_frequency (pass1 r) = 1 / maxper r /\
      maximum_frequency (pass2 r) = 1 / minper r /\
      minimum_frequency (pass2 r) = 1 / maxper2 r /\
      periods r = map (fun f => 1 / f) (fst (autopower (pass1 r))) /\
      power r = snd (autopower (pass1 r)) /\
      peak_of autopower (pass1 r) (per r) /\
      peak_of autopower (pass2 r) (per2 r) /\
      forall (autopower' : ls_call -> list Q * list Q) (r' : periodogram),
        autopower' (pass1 r) = autopower (pass1 r) ->
        autopower' (pass2 r) = autopower (pass2 r) ->
        plot_periodogram np_sqrt np_sin np_cos np_pi autopower' wls_params self = Ok r' ->
        r' = r.
Proof.
  intros np_sqrt np_sin np_cos np_pi autopower wls_params self r H _.
  destruct (period_range_of _ _ _ _ _ _ _ _ H)
    as (dmin & emin & emax & Hsp & Hmin & Hmax & Eminper & Emaxper & Emaxper2).
  destruct (pass_limits _ _ _ _ _ _ _ _ H) as (Ef1 & Ef2 & Ef3 & Ef4).
  destruct (plot_periodogram_calls _ _ _ _ _ _ _ _ H)
    as (_ & _ & Eperiods & Epower & Hpk1 & Hpk2 & Hext).
  exists dmin, emin, emax.
  split; [exact Hsp|]. split; [exact Hmin|]. split; [exact Hmax|].
  split; [rewrite Eminper; apply py_max_spec|].
  repeat (split; [assumption|]).
  intros autopower' r' H1 H2 H'. rewrite (Hext autopower' H1 H2) in H'.
  apply ok_inj in H'. symmetry. exact H'.
Qed.

(** ** Phase folding and the bins *)

Lemma mod1_range (x : Q) : 0 <= Np.mod1 x < 1.
Proof.
  unfold Np.mod1. destruct (floor_bounds x). split; lra.
Qed.

Lemma bins_eq : bins = [0 # 7; 1 # 7; 2 # 7; 3 # 7; 4 # 7; 5 # 7; 6 # 7; 7 # 7].
Proof. reflexivity. Qed.

Lemma digitize_nonneg (x : Q) : 0 <= x -> (1 <= Np.digitize x bins)%nat.
Proof.
  intros Hx. rewrite bins_eq. cbn [Np.digitize].
  assert (H : Qle_bool (0 # 7) x = true) by (apply Qle_bool_iff; apply Qle_trans with 0; [discriminate | exact Hx]).
  rewrite H. lia.
Qed.

Lemma digitize_below_one (x : Q) : x < 1 -> (Np.digitize x bins < 8)%nat.
Proof.
  intros Hx. rewrite bins_eq. cbn [Np.digitize].
  repeat match goal with
         | |- context [Qle_bool ?e x] => destruct (Qle_bool e x) eqn:?; [|lia]
         end.
  match goal with
  | H : Qle_bool (7 # 7) x = true |- _ => apply Qle_bool_iff in H; exfalso; lra
  end.
Qed.

Lemma Permutation_filter {A : Type} (f : A -> bool) (l l' : list A) :
  Permutation l l' -> Permutation (filter f l) (filter f l').
Proof.
  induction 1 as [| x l l' _ IH | x y l | l l' l'' _ IH1 _ IH2]; simpl.
  - constructor.
  - destruct (f x); [constructor|]; exact IH.
  - destruct (f x), (f y); try apply Permutation_refl. constructor.
  - eapply Permutation_trans; eassumption.
Qed.

Lemma compress_resid (phase resid err : list Q) (i : nat) (idx : list nat) :
  Np.compress (slot_mask phase idx i) (Np.take resid idx)
  = map (fun pt => fst (snd pt)) (filter (in_slot i) (points_at phase resid err idx)).
Proof.
  induction idx as [| j idx IH]; [reflexivity|].
  unfold slot_mask, Np.take, points_at, in_slot in *. cbn [map Np.compress filter fst snd].
  destruct (Nat.eqb _ i); cbn [map fst snd]; rewrite IH; reflexivity.
Qed.

Lemma compress_err (phase resid err : list Q) (i : nat) (idx : list nat) :
  Np.compress (slot_mask phase idx i) (Np.take err idx)
  = map (fun pt => snd (snd pt)) (filter (in_slot i) (points_at phase resid err idx)).
Proof.
  induction idx as [| j idx IH]; [reflexivity|].
  unfold slot_mask, Np.take, points_at, in_slot in *. cbn [map Np.compress filter fst snd].
  destruct (Nat.eqb _ i); cbn [map fst snd]; rewrite IH; reflexivity.
Qed.

Lemma count_mask (phase resid err : list Q) (i : nat) (idx : list nat) :
  Np.count (slot_mask phase idx i)
  = List.length (filter (in_slot i) (points_at phase resid err idx)).
Proof.
  induction idx as [| j idx IH]; [reflexivity|].
  unfold Np.count, slot_mask, Np.take, points_at, in_slot in *. cbn [map filter fst snd].
  destruct (Nat.eqb _ i); cbn [List.length]; rewrite IH; reflexivity.
Qed.

Lemma points_at_seq (phase : list Q) :
  forall (resid err : list Q) (s : nat),
    List.length resid = List.length phase ->
    List.length err = List.length phase ->
    map (fun j => (nth (j - s) phase 0, (nth (j - s) resid 0, nth (j - s) err 0)))
        (seq s (List.length phase))
    = combine phase (combine resid err).
Proof.
  induction phase as [| p phase IH]; intros resid err s Hr He; [reflexivity|].
  destruct resid as [| x resid]; [discriminate|].
  destruct err as [| e err]; [discriminate|].
  cbn [List.length seq map combine]. rewrite Nat.sub_diag. cbn [nth]. f_equal.
  rewrite <- (IH resid err (S s)) by (simpl in *; congruence).
  apply map_ext_in. intros j Hj. apply in_seq in Hj.
  replace (j - s)%nat with (S (j - S s)) by lia. reflexivity.
Qed.

Lemma points_at_argsort (phase resid err : list Q) :
  List.length resid = List.length phase ->
  List.length err = List.length phase ->
  Permutation (points_at phase resid err (argsort phase)) (combine phase (combine resid err)).
Proof.
  intros Hr He. rewrite <- (points_at_seq phase resid err 0 Hr He).
  unfold points_at.
  apply Permutation_trans
    with (map (fun j => (nth j phase 0, (nth j resid 0, nth j err 0)))
              (seq 0 (List.length phase))).
  - apply Permutation_map, argsort_permutation.
  - erewrite map_ext; [apply Permutation_refl|].
    intros j. simpl. rewrite Nat.sub_0_r. reflexivity.
Qed.

(** The members of a slot, in phase order, are the points of the slot. *)
Lemma slot_members (phase resid err : list Q) (i : nat) :
  List.length resid = List.length phase ->
  List.length err = List.length phase ->
  Permutation
    (map snd (filter (in_slot i) (points_at phase resid err (argsort phase))))
    (slot_points phase resid err i).
Proof.
  intros Hr He. unfold slot_points.
  apply Permutation_map, Permutation_filter, points_at_argsort; assumption.
Qed.

Lemma npval_eq_refl (a : npval) : npval_eq a a.
Proof. destruct a; simpl; [reflexivity | exact I]. Qed.

Lemma bin_slot_summary np_sqrt (phase resid err : list Q) (i : nat) :
  List.length resid = List.length phase ->
  List.length err = List.length phase ->
  let si := argsort phase in
  let b := bin_slot np_sqrt (Np.take phase si) (Np.take resid si) (Np.take err si) i in
  slot_summary (std np_sqrt) (slot_points phase resid err i) (fst b) (snd b).
Proof.
  intros Hr He si b. subst b. unfold bin_slot.
  fold (slot_mask phase si i).
  rewrite (compress_resid phase resid err), (compress_err phase resid err),
    (count_mask phase resid err).
  pose proof (slot_members phase resid err i Hr He) as Hperm. fold si in Hperm.
  set (members := filter (in_slot i) (points_at phase resid err si)) in *.
  destruct members as [| [p1 [r1 e1]] [| m2 members]]; cbn [List.length map fst snd hd] in *.
  - apply Permutation_nil in Hperm. rewrite Hperm. simpl. split; reflexivity.
  - apply Permutation_length_1_inv in Hperm. rewrite Hperm. simpl. split; reflexivity.
  - pose proof (Permutation_length Hperm) as Hlen. cbn [List.length map] in Hlen.
    destruct (slot_points phase resid err i) as [| [r e] [| q2 pts]]; try discriminate.
    replace (1 <? S (S (List.length members)))%nat with true
      by (symmetry; apply Nat.ltb_lt; lia).
    cbn [fst snd slot_summary].
    eexists. split; [|split; apply npval_eq_refl].
    rewrite <- map_map with (f := snd) (g := fst).
    apply Permutation_map with (f := fst) in Hperm. exact Hperm.
Qed.

Lemma nth_map_seq {A : Type} (f : nat -> A) (n i : nat) (d : A) :
  (i < n)%nat -> nth i (map f (seq 0 n)) d = f i.
Proof.
  intros Hi. rewrite (nth_indep _ d (f 0%nat)) by (rewrite length_map, length_seq; exact Hi).
  rewrite map_nth, seq_nth by exact Hi. reflexivity.
Qed.

Lemma bins_length : List.length bins = 8%nat.
Proof. reflexivity. Qed.

Lemma bin_phase_folded_pass np_sqrt (phase resid err : list Q) :
  Forall (fun p => 0 <= p < 1) phase ->
  List.length resid = List.length phase ->
  List.length err = List.length phase ->
  binning_pass (std np_sqrt) phase resid err
    (fst (bin_phase_folded np_sqrt phase resid err))
    (snd (bin_phase_folded np_sqrt phase resid err)).
Proof.
  intros Hph Hr He. unfold binning_pass, bin_phase_folded. cbn [fst snd].
  rewrite !length_map, length_seq, bins_length.
  split; [exact Hph|]. split; [reflexivity|]. split; [reflexivity|]. split.
  - intros p Hp. rewrite Forall_forall in Hph. apply digitize_below_one, (Hph p Hp).
  - intros i Hi. rewrite !map_map, !nth_map_seq by exact Hi.
    apply bin_slot_summary; assumption.
Qed.

Lemma folded_phase_range (ep : list Q) (p : Q) :
  Forall (fun x => 0 <= x < 1) (map (fun e => Np.mod1 (e / p)) ep).
Proof.
  rewrite Forall_map. apply Forall_forall. intros e _. apply mod1_range.
Qed.

Lemma map2_length {A B C : Type} (f : A -> B -> C) (a : list A) :
  forall b, List.length b = List.length a -> List.length (Np.map2 f a b) = List.length a.
Proof.
  induction a as [| x a IH]; intros [| y b] H; try discriminate; [reflexivity|].
  simpl. f_equal. apply IH. simpl in H. congruence.
Qed.

Lemma dot_transpose_length (n : nat) (rows : list (list Q)) (v : list Q) :
  List.length (Np.dot (Np.transpose n rows) v) = n.
Proof.
  unfold Np.dot, Np.transpose. rewrite !length_map. apply length_seq.
Qed.

(** C5, as the code has it.  In each of the two passes the phases
    [epoch / P mod 1] lie in [[0,1)]; [binned] and [binned_std] have eight
    entries; every point falls in one of the eight slots; a slot with no
    point reports [(NaN, NaN)], a slot with one point reports that residual
    and that point's own uncertainty, and a slot with two or more points
    reports their mean and their [np.std] (divisor [n]). *)
Theorem phase_binning_passes :
  forall np_sqrt np_sin np_cos np_pi autopower wls_params (self : linear_fitter)
         (r : periodogram),
    plot_periodogram np_sqrt np_sin np_cos np_pi autopower wls_params self = Ok r ->
    List.length (residuals self) = List.length (epochs self) ->
    List.length (dataerr self) = List.length (epochs self) ->
    newphase r = map (fun e => Np.mod1 (e / per r)) (epochs self) /\
    binning_pass (std np_sqrt) (newphase r) (residuals self) (dataerr self)
      (binned r) (binned_std r) /\
    newphase2 r = map (fun e => Np.mod1 (e / per2 r)) (epochs self) /\
    binning_pass (std np_sqrt) (newphase2 r) (detrended r) (dataerr self)
      (binned2 r) (binned_std2 r).
Proof.
  intros np_sqrt np_sin np_cos np_pi autopower wls_params self r H Hr He.
  unfold plot_periodogram in H. bind_inv H.
  injection H as <-. cbn [newphase per binned binned_std newphase2 per2 detrended
                          binned2 binned_std2].
  split; [reflexivity|]. split; [|split; [reflexivity|]].
  - apply bin_phase_folded_pass.
    + apply folded_phase_range.
    + rewrite length_map. exact Hr.
    + rewrite length_map. exact He.
  - apply bin_phase_folded_pass.
    + apply folded_phase_range.
    + rewrite length_map, map2_length; [exact Hr|].
      rewrite dot_transpose_length. symmetry. exact Hr.
    + rewrite length_map. exact He.
Qed.

(** ** The slot of index 0 *)

Lemma take_nonneg (phase : list Q) (idx : list nat) :
  Forall (fun p => 0 <= p) phase -> Forall (fun p => 0 <= p) (Np.take phase idx).
Proof.
  intros H. unfold Np.take. rewrite Forall_map. apply Forall_forall. intros j _.
  destruct (Nat.lt_ge_cases j (List.length phase)) as [Hj | Hj].
  - rewrite Forall_forall in H. apply H, nth_In, Hj.
  - rewrite nth_overflow by exact Hj. apply Qle_refl.
Qed.

Lemma count_slot0 (ps : list Q) :
  Forall (fun p => 0 <= p) ps ->
  Np.count (map (fun p => Nat.eqb (Np.digitize p bins) 0) ps) = 0%nat.
Proof.
  induction 1 as [| p ps Hp _ IH]; [reflexivity|].
  unfold Np.count in *. cbn [map filter].
  apply digitize_nonneg in Hp.
  destruct (Nat.eqb_spec (Np.digitize p bins) 0) as [E | _]; [lia | exact IH].
Qed.

Lemma bin_phase_folded_slot0 np_sqrt (phase resid err : list Q) :
  Forall (fun p => 0 <= p) phase ->
  nth_error (fst (bin_phase_folded np_sqrt phase resid err)) 0 = Some NaN /\
  nth_error (snd (bin_phase_folded np_sqrt phase resid err)) 0 = Some NaN.
Proof.
  intros H. unfold bin_phase_folded. rewrite bins_length. cbn [fst snd seq map nth_error].
  unfold bin_slot. rewrite count_slot0 by (apply take_nonneg, H).
  split; reflexivity.
Qed.

Lemma folded_phase_slot (x : Q) : Np.digitize (Np.mod1 x) bins <> 0%nat.
Proof.
  pose proof (digitize_nonneg _ (proj1 (mod1_range x))). lia.
Qed.

(** C10.  In both binning passes no folded phase has the index 0 of
    [np.digitize], since every phase is in [[0,1)] and the first edge is 0;
    so the first entries of [binned] and of [binned_std] are [NaN], whatever
    the input. *)
Theorem first_bin_always_empty :
  forall np_sqrt np_sin np_cos np_pi autopower wls_params (self : linear_fitter)
         (r : periodogram),
    plot_periodogram np_sqrt np_sin np_cos np_pi autopower wls_params self = Ok r ->
    (forall p, In p (newphase r) \/ In p (newphase2 r) ->
       0 <= p < 1 /\ Np.digitize p bins <> 0%nat) /\
    nth_error (binned r) 0 = Some NaN /\
    nth_error (binned_std r) 0 = Some NaN /\
    nth_error (binned2 r) 0 = Some NaN /\
    nth_error (binned_std2 r) 0 = Some NaN.
Proof.
  intros np_sqrt np_sin np_cos np_pi autopower wls_params self r H.
  unfold plot_periodogram in H. bind_inv H.
  injection H as <-. cbn [newphase binned binned_std newphase2 binned2 binned_std2].
  assert (Hnn : forall (ep : list Q) (p : Q),
             Forall (fun x => 0 <= x) (map (fun e => Np.mod1 (e / p)) ep)).
  { intros ep p. eapply Forall_impl; [|apply folded_phase_range].
    intros x Hx. apply Hx. }
  split.
  - intros p [Hp | Hp]; apply in_map_iff in Hp; destruct Hp as (e & <- & _);
      (split; [apply mod1_range | apply folded_phase_slot]).
  - repeat split; apply bin_phase_folded_slot0, Hnn.
Qed.

(** ** Failures of the constructor *)

Lemma raises_bind {A B : Type} (cls : string) (r : result A) (k : A -> result B) :
  raises cls (bind r k) -> raises cls r \/ exists a, r = Ok a /\ raises cls (k a).
Proof.
  destruct r as [a | e]; simpl; intros H; [right; exists a; auto | left; exact H].
Qed.

Ltac raise_inv H :=
  apply raises_bind in H;
  let a := fresh "a" in
  let E := fresh "E" in
  destruct H as [H | (a & E & H)].

Lemma getitem_raises {V : Type} (d : dict V) (k : string) (e : exn) :
  getitem d k = Raise e -> e = KeyError k.
Proof.
  induction d as [| [k' v] d IH]; simpl; intros H.
  - injection H as <-. reflexivity.
  - destruct (String.eqb k k'); [discriminate | auto].
Qed.

Lemma getitem_not_invalid {V : Type} (d : dict V) (k : string) :
  ~ raises "InvalidBounds" (getitem d k).
Proof.
  destruct (getitem d k) as [v | e] eqn:E; simpl; [tauto|].
  apply getitem_raises in E. subst e. discriminate.
Qed.

Lemma getidx_not_invalid {A : Type} (l : list A) (i : nat) :
  ~ raises "InvalidBounds" (getidx l i).
Proof.
  unfold getidx. destruct (nth_error l i); simpl; [tauto | discriminate].
Qed.

Lemma collect_not_invalid (res : sampler_results) (ks : list string) :
  forall i acc, ~ raises "InvalidBounds" (fit_nested_collect res i ks acc).
Proof.
  induction ks as [| key ks IH]; intros i acc H; simpl in H; [exact H|].
  do 4 (raise_inv H; [eapply getidx_not_invalid; exact H|]).
  eapply IH; exact H.
Qed.

Lemma finish_not_invalid (s : fitter_inputs) (ep : list Q) (res : sampler_results) :
  ~ raises "InvalidBounds" (fit_nested_finish s ep res).
Proof.
  unfold fit_nested_finish. intros H.
  raise_inv H; [eapply collect_not_invalid; exact H|].
  do 2 (raise_inv H; [eapply getitem_not_invalid; exact H|]).
  exact H.
Qed.

Lemma epochs_not_invalid (d : list Q) (b : dict (Q * Q)) :
  ~ raises "InvalidBounds" (fit_nested_epochs d b).
Proof.
  unfold fit_nested_epochs. intros H.
  do 2 (raise_inv H; [eapply getitem_not_invalid; exact H|]).
  exact H.
Qed.

Lemma fit_nested_not_invalid (run : sampler_call -> result sampler_results)
    (s : fitter_inputs) :
  (forall c, ~ raises "InvalidBounds" (run c)) ->
  ~ raises "InvalidBounds" (fit_nested run s).
Proof.
  intros Hrun H. unfold fit_nested in H.
  raise_inv H; [eapply epochs_not_invalid; exact H|].
  raise_inv H; [eapply Hrun; exact H|].
  eapply finish_not_invalid; exact H.
Qed.

Lemma init_not_invalid (run : sampler_call -> result sampler_results)
    (d derr : list Q) (b p : option (dict (Q * Q))) :
  (forall c, ~ raises "InvalidBounds" (run c)) ->
  ~ raises "InvalidBounds" (__init__ run d derr b p).
Proof.
  intros Hrun H. unfold __init__ in H.
  raise_inv H; [destruct p; simpl in H; [exact H | discriminate]|].
  raise_inv H.
  - destruct b; [exact H|].
    do 2 (raise_inv H; [eapply getitem_not_invalid; exact H|]). exact H.
  - eapply fit_nested_not_invalid; eassumption.
Qed.

Lemma epochs_key_error (d : list Q) (b : dict (Q * Q)) :
  raises "KeyError" (getitem b "b") \/ raises "KeyError" (getitem b "m") ->
  raises "KeyError" (fit_nested_epochs d b).
Proof.
  unfold fit_nested_epochs. intros [H | H].
  - destruct (getitem b "b"); simpl in *; [contradiction | exact H].
  - destruct (getitem b "b") as [bb | e] eqn:E; simpl.
    + destruct (getitem b "m"); simpl in *; [contradiction | exact H].
    + apply getitem_raises in E. subst e. reflexivity.
Qed.

(** C6, as the code has it.  The constructor does not validate the bounds:
    of itself it never raises [InvalidBounds]; a missing key 'm' or 'b' is a
    [KeyError]; and when both keys are present the fit goes on to the
    sampler with the bounds as they are, whatever the order of [low] and
    [high]. *)
Theorem bounds_are_not_validated :
  forall (run : sampler_call -> result sampler_results) (d derr : list Q)
         (b pr : dict (Q * Q)),
    (forall c, ~ raises "InvalidBounds" (run c)) ->
    ~ raises "InvalidBounds" (__init__ run d derr (Some b) (Some pr)) /\
    (raises "KeyError" (getitem b "b") \/ raises "KeyError" (getitem b "m") ->
     raises "KeyError" (__init__ run d derr (Some b) (Some pr))) /\
    (forall bm bb, getitem b "m" = Ok bm -> getitem b "b" = Ok bb ->
       let s := {| in_data := d; in_dataerr := derr; in_bounds := b; in_prior := pr |} in
       exists ep,
         fit_nested_epochs d b = Ok ep /\
         transform_fn (fit_nested_call s ep) = prior_transform b /\
         __init__ run d derr (Some b) (Some pr)
         = bind (run (fit_nested_call s ep)) (fit_nested_finish s ep)).
Proof.
  intros run d derr b pr Hrun. split; [apply init_not_invalid, Hrun|]. split.
  - intros H. apply (epochs_key_error d) in H.
    unfold __init__, fit_nested. cbn [bind in_data in_bounds].
    destruct (fit_nested_epochs d b); simpl in *; [contradiction | exact H].
  - intros bm bb Hm Hb s. eexists. split; [apply (fit_nested_epochs_eq d b _ _ Hm Hb)|].
    split; [reflexivity|].
    unfold __init__, fit_nested. cbn [bind in_data in_bounds].
    rewrite (fit_nested_epochs_eq d b _ _ Hm Hb). reflexivity.
Qed.

(** C6, as stated, fails.  Bounds with [low == high] for the slope are
    malformed, yet the constructor returns a fitted object; bounds without
    the keys 'm' and 'b' end in a [KeyError]. *)
Lemma degenerate_bounds_are_accepted :
  malformed_bounds Example.degenerate /\
  ~ raises "InvalidBounds"
      (Stub.init Example.d Example.derr (Some Example.degenerate) (Some Example.prior)) /\
  (exists self,
     Stub.init Example.d Example.derr (Some Example.degenerate) (Some Example.prior) = Ok self /\
     Forall2 Qeq (epochs self) [0; 2; 3]) /\
  malformed_bounds Example.misnamed /\
  Stub.init Example.d Example.derr (Some Example.misnamed) (Some Example.prior)
  = Raise (KeyError "b").
Proof.
  split; [|split; [|split; [|split]]].
  - right. right. left. simpl. apply Qle_refl.
  - vm_compute. tauto.
  - eexists. split; [vm_compute; reflexivity|].
    repeat constructor.
  - left. reflexivity.
  - reflexivity.
Qed.

(** ** The sampler's budget *)

Lemma fit_nested_run_ext (run run' : sampler_call -> result sampler_results)
    (s : fitter_inputs) :
  (forall c, max_ncalls c = 400000 -> min_num_live_points c = 420%Z -> run c = run' c) ->
  fit_nested run s = fit_nested run' s.
Proof.
  intros H. unfold fit_nested.
  destruct (fit_nested_epochs (in_data s) (in_bounds s)) as [ep | e]; [|reflexivity].
  cbn [bind]. rewrite (H (fit_nested_call s ep)) by reflexivity. reflexivity.
Qed.

(** C7, as the code has it.  Every call of the sampler carries
    [max_ncalls = 4e5] and [min_num_live_points = 420]: the constructor's
    result depends on the sampler only through calls with these two
    values. *)
Theorem sampler_budget_is_fixed :
  (forall s ep,
     max_ncalls (fit_nested_call s ep) = 400000 /\
     min_num_live_points (fit_nested_call s ep) = 420%Z) /\
  (forall (run run' : sampler_call -> result sampler_results) d derr b p,
     (forall c, max_ncalls c = 400000 -> min_num_live_points c = 420%Z -> run c = run' c) ->
     __init__ run d derr b p = __init__ run' d derr b p).
Proof.
  split; [intros s ep; split; reflexivity|].
  intros run run' d derr b p H. unfold __init__.
  destruct p as [pd |]; [|reflexivity]. cbn [bind].
  destruct b as [bd |]; cbn [bind].
  - apply fit_nested_run_ext, H.
  - destruct (getitem pd "m"); [|reflexivity]. cbn [bind].
    destruct (getitem pd "b"); [|reflexivity]. cbn [bind].
    apply fit_nested_run_ext, H.
Qed.

(** C7, as stated, fails: no input makes the call carry other values. *)
Lemma budget_is_not_configurable : ~ budget_is_configurable.
Proof.
  intros (s & ep & [H | H]); apply H; reflexivity.
Qed.

(** C8 fails on the code.  With the prior omitted the constructor raises an
    [AttributeError] at [prior.copy()], whatever the data and the bounds. *)
Theorem init_without_prior_raises :
  forall (run : sampler_call -> result sampler_results) (d derr : list Q)
         (b : option (dict (Q * Q))),
    __init__ run d derr b None
    = Raise (AttributeError "'NoneType' object has no attribute 'copy'").
Proof.
  intros run d derr b. reflexivity.
Qed.

(** C5, as stated, fails.  On the small dataset the slot of index 1 of the
    first pass holds the residuals 1/2 and 1/4; the code reports their
    [np.std], 1/8, and not their sample standard deviation, the root of
    1/32. *)
Lemma binned_std_is_not_sample_std :
  exists self r,
    example_run Example.bounds = Ok (self, r) /\
    Forall2 Qeq (map fst (slot_points (newphase r) (residuals self) (dataerr self) 1))
            [1 # 2; 1 # 4] /\
    npval_eq (nth 1 (binned_std r) NaN) (Fin (1 # 8)) /\
    ~ binning_pass (sample_std Stub.sqrt) (newphase r) (residuals self) (dataerr self)
        (binned r) (binned_std r).
Proof.
  eexists. eexists. split; [vm_compute; reflexivity|].
  split; [vm_compute; repeat constructor|].
  split; [vm_compute; reflexivity|].
  intros (_ & _ & _ & _ & H). specialize (H 1%nat ltac:(lia)).
  cbv [slot_points] in H.
  match type of H with
  | slot_summary _ ?pts _ _ =>
      let pts' := eval vm_compute in pts in change pts with pts' in H
  end.
  cbv [slot_summary] in H. destruct H as (rs & Hperm & _ & Hs).
  cbn [map fst] in Hperm. apply Permutation_sym, Permutation_length_2_inv in Hperm.
  destruct Hperm as [-> | ->]; vm_compute in Hs; discriminate Hs.
Qed.

(** ** Further properties of the code *)

(** X1.  The sampler's parameters are named by the keys of the bounds in
    their order, while [loglike] reads the first coordinate as the slope and
    the second as the intercept: with bounds keyed 'b' then 'm', the
    coordinate named 'b', drawn from the interval of 'b', is the slope of the
    model in the likelihood. *)
Theorem loglike_reads_parameters_by_position :
  forall (d derr ep : list Q) (pr : dict (Q * Q)) (lo_b hi_b lo_m hi_m u0 u1 : Q),
    List.length ep = List.length d ->
    List.length derr = List.length d ->
    let s := {| in_data := d; in_dataerr := derr;
                in_bounds := [("b"%string, (lo_b, hi_b)); ("m"%string, (lo_m, hi_m))];
                in_prior := pr |} in
    let call := fit_nested_call s ep in
    param_names call = ["b"%string; "m"%string] /\
    transform_fn call [u0; u1]
    = [lo_b + (hi_b - lo_b) * u0; lo_m + (hi_m - lo_m) * u1] /\
    loglike_fn call (transform_fn call [u0; u1])
    == log_chi_square d derr ep (lo_b + (hi_b - lo_b) * u0) (lo_m + (hi_m - lo_m) * u1).
Proof.
  intros d derr ep pr lo_b hi_b lo_m hi_m u0 u1 Hep Herr s call.
  split; [reflexivity|]. split; [reflexivity|].
  subst call. rewrite (loglike_by_position s ep) by assumption. reflexivity.
Qed.

(** ** [plot_periodogram] on fewer than two epochs *)

Lemma np_min_ok (a : list Q) : a <> [] -> exists x, Np.min a = Ok x.
Proof.
  destruct a; [contradiction | intros _; eexists; reflexivity].
Qed.

Lemma np_max_ok (a : list Q) : a <> [] -> exists x, Np.max a = Ok x.
Proof.
  destruct a; [contradiction | intros _; eexists; reflexivity].
Qed.

(** X3.  [plot_periodogram] needs two epochs.  With fewer, the distances of
    neighbours are an empty array and its minimum (line 289) raises
    [ValueError], before the estimator or the regression is called and
    whatever they are; so a periodogram is returned for two or more epochs
    only. *)
Theorem plot_periodogram_needs_two_epochs :
  forall np_sqrt np_sin np_cos np_pi autopower wls_params (self : linear_fitter),
    ((List.length (epochs self) < 2)%nat ->
     plot_periodogram np_sqrt np_sin np_cos np_pi autopower wls_params self
     = Raise (ValueError
                "zero-size array to reduction operation minimum which has no identity")) /\
    (forall r : periodogram,
       plot_periodogram np_sqrt np_sin np_cos np_pi autopower wls_params self = Ok r ->
       (2 <= List.length (epochs self))%nat).
Proof.
  intros np_sqrt np_sin np_cos np_pi autopower wls_params self.
  pose proof (Permutation_length (take_argsort_permutation (epochs self))) as Hp.
  assert (Hfew : (List.length (epochs self) < 2)%nat ->
                 plot_periodogram np_sqrt np_sin np_cos np_pi autopower wls_params self
                 = Raise (ValueError
                     "zero-size array to reduction operation minimum which has no identity")).
  { intros Hlen. unfold plot_periodogram.
    destruct (Np.take (epochs self) (argsort (epochs self))) as [| x [| y l]];
      simpl in Hp; try lia; reflexivity. }
  split; [exact Hfew|].
  intros r Hr. destruct (Nat.lt_ge_cases (List.length (epochs self)) 2) as [Hlt | Hge];
    [|exact Hge].
  rewrite (Hfew Hlt) in Hr. discriminate Hr.
Qed.

(** The binning example of the specification: the phases 0.05, 0.05 and
    0.9 with the residuals 1, 3 and 5.  The slot of index 1 holds the first
    two points and reports the mean 2 and the deviation 1; the slot of
    index 7 holds the third point alone and reports its residual and its own
    uncertainty; every other slot reports [NaN]. *)
Theorem binning_example :
  let b := bin_phase_folded Stub.sqrt [5 # 100; 5 # 100; 9 # 10] [1; 3; 5]
             [1 # 10; 2 # 10; 3 # 10] in
  Forall2 npval_eq (fst b) [NaN; Fin 2; NaN; NaN; NaN; NaN; NaN; Fin 5] /\
  Forall2 npval_eq (snd b) [NaN; Fin 1; NaN; NaN; NaN; NaN; NaN; Fin (3 # 10)].
Proof.
  vm_compute. split; repeat constructor.
Qed.

(** ** The theorems at the small dataset *)

(** C1 on the small dataset: the second timestamp, 8, gets a nearest integer
    to [(8 - 0) / 2]. *)
Lemma epochs_nearest_integer_example :
  exists ep,
    fit_nested_epochs Example.d Example.bounds = Ok ep /\
    List.length ep = 3%nat /\
    exists k : Z,
      nth_error ep 1 = Some (inject_Z k) /\
      nearest_integer ((8 - (-1 + 1) / 2) / ((1 + 3) / 2)) k.
Proof.
  destruct (epochs_nearest_integer Example.d Example.bounds 1 3 (-1) 1)
    as (ep & Hep & Hlen & Hnear & _).
  - reflexivity.
  - reflexivity.
  - intros H. vm_compute in H. discriminate H.
  - exists ep. split; [exact Hep|]. split; [exact Hlen|].
    apply (Hnear 1%nat 8). reflexivity.
Defined.

(** C9 on the small dataset, whose timestamps increase. *)
Lemma epochs_monotone_example :
  exists ep,
    fit_nested_epochs Example.d Example.bounds = Ok ep /\
    StronglySorted Qle ep /\
    Forall (fun e => exists k : Z, e = inject_Z k) ep.
Proof.
  apply (epochs_monotone Example.d Example.bounds 1 3 (-1) 1).
  - reflexivity.
  - reflexivity.
  - reflexivity.
  - repeat constructor.
Defined.

(** C2 on the small dataset, at the point [(2, 0)]. *)
Lemma loglike_example :
  loglike_fn (fit_nested_call example_inputs [0; 4; 8]) [2; 0]
  == log_chi_square Example.d Example.derr [0; 4; 8] 2 0.
Proof.
  apply (loglike_is_log_chi_square example_inputs [0; 4; 8]).
  - reflexivity.
  - reflexivity.
Defined.

(** C3 on the bounds of the small dataset: a point of the cube lands in the
    box, and a corner of the box is reached. *)
Lemma prior_transform_example :
  in_bounds_box Example.bounds
    (transform_fn (fit_nested_call example_inputs [0; 4; 8]) [1 # 2; 1 # 4]) /\
  exists u, in_unit_cube Example.bounds u /\
    Forall2 Qeq (transform_fn (fit_nested_call example_inputs [0; 4; 8]) u) [3; -1].
Proof.
  destruct (prior_transform_bijection example_inputs [0; 4; 8]) as [_ H].
  destruct H as (Hbox & _ & Honto).
  - repeat constructor.
  - split.
    + apply Hbox. split; [reflexivity|]. repeat constructor; discriminate.
    + apply Honto. repeat constructor; discriminate.
Defined.

(** The two steps of [example_run]. *)
Lemma example_run_ok (b : dict (Q * Q)) (self : linear_fitter) (r : periodogram) :
  example_run b = Ok (self, r) ->
  Stub.init Example.d Example.derr (Some b) (Some Example.prior) = Ok self /\
  Stub.periodogram_of self = Ok r.
Proof.
  unfold example_run. intros H. bind_inv H.
  injection H as -> ->. split; assumption.
Qed.

(** C4 on the small dataset: the epochs are 0, 4 and 8, so that the least
    spacing is 4, the minimum period 8 and the maximum periods 24 and 50. *)
Lemma period_range_example :
  exists self r,
    example_run Example.bounds = Ok (self, r) /\
    epochs self = [0; 4; 8] /\
    minper r = 8 /\ maxper r = 24 /\
    maximum_frequency (pass1 r) == 1 # 8 /\ minimum_frequency (pass1 r) == 1 # 24 /\
    maximum_frequency (pass2 r) == 1 # 8 /\ minimum_frequency (pass2 r) == 1 # 50 /\
    exists dmin emin emax,
      dmin == 4 /\
      min_spacing (epochs self) dmin /\
      is_minimum (epochs self) emin /\
      is_maximum (epochs self) emax /\
      is_larger_of 2 (2 * dmin) (minper r) /\
      maxper r = (emax - emin) * 3 /\
      maxper2 r = 50 /\
      maximum_frequency (pass1 r) = 1 / minper r /\
      minimum_frequency (pass1 r) = 1 / maxper r /\
      maximum_frequency (pass2 r) = 1 / minper r /\
      minimum_frequency (pass2 r) = 1 / maxper2 r /\
      periods r = map (fun f => 1 / f) (fst (Stub.autopower (pass1 r))) /\
      power r = snd (Stub.autopower (pass1 r)) /\
      peak_of Stub.autopower (pass1 r) (per r) /\
      peak_of Stub.autopower (pass2 r) (per2 r) /\
      forall (autopower' : ls_call -> list Q * list Q) (r' : periodogram),
        autopower' (pass1 r) = Stub.autopower (pass1 r) ->
        autopower' (pass2 r) = Stub.autopower (pass2 r) ->
        plot_periodogram Stub.sqrt Stub.sin Stub.cos Stub.pi autopower' Stub.wls_params self
        = Ok r' ->
        r' = r.
Proof.
  assert (E : exists self r,
             example_run Example.bounds = Ok (self, r) /\
             epochs self = [0; 4; 8] /\ minper r = 8 /\ maxper r = 24 /\
             maximum_frequency (pass1 r) == 1 # 8 /\
             minimum_frequency (pass1 r) == 1 # 24 /\
             maximum_frequency (pass2 r) == 1 # 8 /\
             minimum_frequency (pass2 r) == 1 # 50).
  { eexists. eexists. split; [vm_compute; reflexivity|].
    repeat split; vm_compute; reflexivity. }
  destruct E as (self & r & E & Hep & Hminper & Hmaxper & Hf).
  destruct (example_run_ok _ _ _ E) as [_ Er].
  destruct (periodogram_period_range Stub.sqrt Stub.sin Stub.cos Stub.pi
              Stub.autopower Stub.wls_params self r Er)
    as (dmin & emin & emax & Hsp & Hlo & Hhi & Hlarger & Hrest).
  - rewrite Hmaxper. discriminate.
  - exists self, r. split; [exact E|]. split; [exact Hep|].
    split; [exact Hminper|]. split; [exact Hmaxper|].
    repeat (split; [apply Hf|]).
    exists dmin, emin, emax. split.
    + destruct Hlarger as (_ & _ & [E2 | E2]); rewrite Hminper in E2; [discriminate|].
      assert (E3 : 8 == 2 * dmin) by (rewrite <- E2; reflexivity). lra.
    + repeat (split; [assumption|]). exact Hrest.
Defined.

(** C5 on the small dataset, in both passes. *)
Lemma phase_binning_example :
  exists self r,
    example_run Example.bounds = Ok (self, r) /\
    binning_pass (std Stub.sqrt) (newphase r) (residuals self) (dataerr self)
      (binned r) (binned_std r) /\
    binning_pass (std Stub.sqrt) (newphase2 r) (detrended r) (dataerr self)
      (binned2 r) (binned_std2 r).
Proof.
  eexists. eexists. split; [vm_compute; reflexivity|].
  match goal with
  | |- binning_pass _ _ (residuals ?self) _ (binned ?r) _ /\ _ =>
      destruct (phase_binning_passes Stub.sqrt Stub.sin Stub.cos Stub.pi
                  Stub.autopower Stub.wls_params self r) as (_ & H1 & _ & H2)
  end.
  - vm_compute. reflexivity.
  - reflexivity.
  - reflexivity.
  - split; assumption.
Defined.

(** C10 on the small dataset. *)
Lemma first_bin_example :
  exists self r,
    example_run Example.bounds = Ok (self, r) /\
    nth_error (binned r) 0 = Some NaN /\
    nth_error (binned_std r) 0 = Some NaN /\
    nth_error (binned2 r) 0 = Some NaN /\
    nth_error (binned_std2 r) 0 = Some NaN.
Proof.
  assert (E : exists self r, example_run Example.bounds = Ok (self, r)).
  { eexists. eexists. vm_compute. reflexivity. }
  destruct E as (self & r & E). exists self, r. split; [exact E|].
  apply example_run_ok in E. destruct E as [_ E].
  destruct (first_bin_always_empty Stub.sqrt Stub.sin Stub.cos Stub.pi
              Stub.autopower Stub.wls_params self r E) as (_ & H).
  exact H.
Defined.

(** C6 on the degenerate and on the misnamed bounds. *)
Lemma bounds_not_validated_example :
  ~ raises "InvalidBounds"
      (__init__ Stub.run Example.d Example.derr (Some Example.degenerate)
         (Some Example.prior)) /\
  raises "KeyError"
    (__init__ Stub.run Example.d Example.derr (Some Example.misnamed) (Some Example.prior)).
Proof.
  split.
  - apply (bounds_are_not_validated Stub.run Example.d Example.derr Example.degenerate
             Example.prior).
    intros c H. exact H.
  - apply (bounds_are_not_validated Stub.run Example.d Example.derr Example.misnamed
             Example.prior).
    + intros c H. exact H.
    + left. reflexivity.
Defined.

(** C7: a sampler that refuses any other budget changes nothing. *)
Lemma sampler_budget_example :
  __init__ Stub.run Example.d Example.derr (Some Example.bounds) (Some Example.prior)
  = __init__ Stub.strict_run Example.d Example.derr (Some Example.bounds)
      (Some Example.prior).
Proof.
  apply (proj2 sampler_budget_is_fixed).
  intros c H1 H2. unfold Stub.strict_run. rewrite H1, H2. reflexivity.
Defined.

(** X1 on the small dataset, with the centre of the cube. *)
Lemma loglike_position_example :
  loglike_fn
    (fit_nested_call
       {| in_data := Example.d; in_dataerr := Example.derr;
          in_bounds := [("b"%string, (-1, 1)); ("m"%string, (1, 3))];
          in_prior := Example.prior |} [0; 4; 8])
    [0; 2]
  == log_chi_square Example.d Example.derr [0; 4; 8] 0 2.
Proof.
  destruct (loglike_reads_parameters_by_position Example.d Example.derr [0; 4; 8]
              Example.prior (-1) 1 1 3 (1 # 2) (1 # 2)) as (_ & _ & H).
  - reflexivity.
  - reflexivity.
  - vm_compute. reflexivity.
Defined.

(** X3 on a single observation: the constructor returns, and the periodogram
    of the fitted object raises. *)
Lemma single_observation_example :
  exists self,
    Stub.init [1 # 2] [1 # 100] (Some Example.bounds) (Some Example.prior) = Ok self /\
    epochs self = [0] /\
    Stub.periodogram_of self
    = Raise (ValueError
               "zero-size array to reduction operation minimum which has no identity").
Proof.
  assert (E : exists self,
             Stub.init [1 # 2] [1 # 100] (Some Example.bounds) (Some Example.prior)
             = Ok self /\ epochs self = [0]).
  { eexists. split; [vm_compute; reflexivity | reflexivity]. }
  destruct E as (self & E & Hep). exists self. split; [exact E|]. split; [exact Hep|].
  apply (plot_periodogram_needs_two_epochs Stub.sqrt Stub.sin Stub.cos Stub.pi
           Stub.autopower Stub.wls_params self).
  rewrite Hep. simpl. lia.
Defined.

(** * Further properties of the code *)

(** ** Dictionaries: assignment and lookup *)

Lemma getitem_setitem_same {V : Type} (d : dict V) (k : string) (v : V) :
  getitem (setitem d k v) k = Ok v.
Proof.
  induction d as [| [k' v'] d IH]; simpl.
  - rewrite String.eqb_refl. reflexivity.
  - destruct (String.eqb k k') eqn:E; simpl; rewrite E; [reflexivity | exact IH].
Qed.

Lemma getitem_setitem_other {V : Type} (d : dict V) (k k' : string) (v : V) :
  k' <> k -> getitem (setitem d k v) k' = getitem d k'.
Proof.
  intros Hne. induction d as [| [k0 v0] d IH]; simpl.
  - destruct (String.eqb_spec k' k); [contradiction | reflexivity].
  - destruct (String.eqb_spec k k0) as [-> | Hk]; simpl.
    + destruct (String.eqb_spec k' k0); [contradiction | reflexivity].
    + destruct (String.eqb k' k0); [reflexivity | exact IH].
Qed.

Lemma setitem_fresh {V : Type} (d : dict V) (k : string) (v : V) :
  ~ In k (keys d) -> setitem d k v = d ++ [(k, v)].
Proof.
  induction d as [| [k' v'] d IH]; simpl; intros H; [reflexivity|].
  destruct (String.eqb_spec k k') as [-> | Hk]; [tauto|].
  f_equal. apply IH. tauto.
Qed.

Lemma getitem_app_fresh {V : Type} (d : dict V) (k : string) (v : V) :
  ~ In k (keys d) -> getitem (d ++ [(k, v)]) k = Ok v.
Proof.
  intros H. rewrite <- (setitem_fresh d k v H). apply getitem_setitem_same.
Qed.

Lemma getitem_in_keys {V : Type} (d : dict V) (k : string) (v : V) :
  getitem d k = Ok v -> In k (keys d).
Proof.
  induction d as [| [k' v'] d IH]; simpl; [discriminate|].
  destruct (String.eqb_spec k k') as [-> | Hk]; auto.
Qed.

Lemma in_keys_getitem {V : Type} (d : dict V) (k : string) :
  In k (keys d) -> exists v, getitem d k = Ok v.
Proof.
  induction d as [| [k' v'] d IH]; simpl; [tauto|].
  destruct (String.eqb_spec k k') as [-> | Hk]; [eexists; reflexivity|].
  intros [H | H]; [congruence | auto].
Qed.

(** ** The point estimates (lines 105-115) *)

(** The dictionaries after the loop, when no key occurs twice and none is in
    the accumulator: one entry is appended for each key, in order. *)
Lemma fit_nested_collect_spec (res : sampler_results) (ks : list string) :
  forall i accp acce accq out,
    NoDup ks ->
    (forall k, In k ks -> ~ In k (keys accp) /\ ~ In k (keys acce) /\ ~ In k (keys accq)) ->
    fit_nested_collect res i ks (accp, acce, accq) = Ok out ->
    exists ps es qs,
      out = (accp ++ combine ks ps, acce ++ combine ks es, accq ++ combine ks qs) /\
      List.length ps = List.length ks /\
      List.length es = List.length ks /\
      List.length qs = List.length ks /\
      forall j, (j < List.length ks)%nat ->
        nth_error (maximum_likelihood_point res) (i + j) = nth_error ps j /\
        nth_error (posterior_stdev res) (i + j) = nth_error es j /\
        exists lo up,
          nth_error (posterior_errlo res) (i + j) = Some lo /\
          nth_error (posterior_errup res) (i + j) = Some up /\
          nth_error qs j = Some (lo, up).
Proof.
  induction ks as [| key ks IH]; intros i accp acce accq out Hnd Hfresh H.
  - simpl in H. injection H as <-. exists [], [], []. simpl.
    rewrite !app_nil_r. repeat (split; [reflexivity|]). intros j Hj. lia.
  - simpl in H. unfold getidx in H.
    destruct (nth_error (maximum_likelihood_point res) i) as [p |] eqn:Ep; [|discriminate].
    destruct (nth_error (posterior_stdev res) i) as [sd |] eqn:Es; [|discriminate].
    destruct (nth_error (posterior_errlo res) i) as [lo |] eqn:El; [|discriminate].
    destruct (nth_error (posterior_errup res) i) as [up |] eqn:Eu; [|discriminate].
    cbn [bind fst snd] in H.
    inversion Hnd as [| ? ? Hnotin Hnd']; subst.
    destruct (Hfresh key (or_introl eq_refl)) as (Hp & He & Hq).
    rewrite (setitem_fresh accp key p Hp), (setitem_fresh acce key sd He),
      (setitem_fresh accq key (lo, up) Hq) in H.
    apply IH in H; [|exact Hnd'|].
    + destruct H as (ps & es & qs & -> & Lp & Le & Lq & Hnth).
      exists (p :: ps), (sd :: es), ((lo, up) :: qs).
      rewrite <- !app_assoc. simpl. split; [reflexivity|].
      repeat (split; [congruence|]).
      intros [| j] Hj.
      * rewrite Nat.add_0_r. simpl. rewrite Ep, Es. repeat split; try reflexivity.
        exists lo, up. auto.
      * replace (i + S j)%nat with (S i + j)%nat by lia. simpl. apply Hnth. lia.
    + intros k Hk. unfold keys in *. rewrite !map_app, !in_app_iff. simpl.
      destruct (Hfresh k (or_intror Hk)) as (H1 & H2 & H3).
      assert (key <> k) by (intros ->; contradiction).
      tauto.
Qed.

Lemma keys_combine {V : Type} (ks : list string) (vs : list V) :
  List.length vs = List.length ks -> keys (combine ks vs) = ks.
Proof.
  revert vs. induction ks as [| k ks IH]; intros [| v vs] H; try discriminate; [reflexivity|].
  simpl. f_equal. apply IH. simpl in H. congruence.
Qed.

Lemma getitem_combine {V : Type} (ks : list string) :
  forall (vs : list V) (j : nat) (k : string) (v : V),
    NoDup ks ->
    nth_error ks j = Some k ->
    nth_error vs j = Some v ->
    getitem (combine ks vs) k = Ok v.
Proof.
  induction ks as [| k0 ks IH]; intros vs j k v Hnd Hk Hv; [destruct j; discriminate|].
  destruct vs as [| v0 vs]; [destruct j; discriminate|].
  inversion Hnd as [| ? ? Hnotin Hnd']; subst. simpl.
  destruct j as [| j]; simpl in Hk, Hv.
  - injection Hk as ->. injection Hv as ->. rewrite String.eqb_refl. reflexivity.
  - destruct (String.eqb_spec k k0) as [-> | Hne].
    + exfalso. apply Hnotin. eapply nth_error_In. exact Hk.
    + eapply IH; eassumption.
Qed.

Lemma fitted_dicts (run : sampler_call -> result sampler_results) (s : fitter_inputs)
    (self : linear_fitter) :
  fit_nested run s = Ok self ->
  NoDup (keys (in_bounds s)) ->
  exists ps es qs,
    parameters self = combine (keys (in_bounds s)) ps /\
    errors self = combine (keys (in_bounds s)) es /\
    quantiles self = combine (keys (in_bounds s)) qs /\
    List.length ps = List.length (keys (in_bounds s)) /\
    List.length es = List.length (keys (in_bounds s)) /\
    List.length qs = List.length (keys (in_bounds s)) /\
    forall j, (j < List.length (keys (in_bounds s)))%nat ->
      nth_error (maximum_likelihood_point (results self)) j = nth_error ps j /\
      nth_error (posterior_stdev (results self)) j = nth_error es j /\
      exists lo up,
        nth_error (posterior_errlo (results self)) j = Some lo /\
        nth_error (posterior_errup (results self)) j = Some up /\
        nth_error qs j = Some (lo, up).
Proof.
  intros H Hnd. unfold fit_nested in H. bind_inv H.
  unfold fit_nested_finish in H. bind_inv H.
  injection H as <-. cbn [parameters errors quantiles results].
  match goal with
  | E : fit_nested_collect _ _ _ _ = Ok ?out |- _ =>
      apply fit_nested_collect_spec in E; [| exact Hnd | intros k _; simpl; tauto];
      destruct E as (ps & es & qs & -> & Lp & Le & Lq & Hnth)
  end.
  exists ps, es, qs. cbn [fst snd app]. unfold freekeys in *.
  repeat (split; [reflexivity || assumption|]).
  exact Hnth.
Qed.

Lemma point_estimates_of (run : sampler_call -> result sampler_results)
    (s : fitter_inputs) (self : linear_fitter) :
  fit_nested run s = Ok self ->
  NoDup (keys (in_bounds s)) ->
  forall i k, nth_error (keys (in_bounds s)) i = Some k ->
    exists p sd lo up,
      nth_error (maximum_likelihood_point (results self)) i = Some p /\
      nth_error (posterior_stdev (results self)) i = Some sd /\
      nth_error (posterior_errlo (results self)) i = Some lo /\
      nth_error (posterior_errup (results self)) i = Some up /\
      getitem (parameters self) k = Ok p /\
      getitem (errors self) k = Ok sd /\
      getitem (quantiles self) k = Ok (lo, up).
Proof.
  intros H Hnd.
  destruct (fitted_dicts run s self H Hnd)
    as (ps & es & qs & -> & -> & -> & Lp & Le & Lq & Hnth).
  intros i k Hk.
  assert (Hi : (i < List.length (keys (in_bounds s)))%nat)
    by (apply nth_error_Some; congruence).
  destruct (Hnth i Hi) as (Hp & Hs & lo & up & Hlo & Hup & Hq).
  destruct (nth_error ps i) as [p |] eqn:Ep;
    [|apply nth_error_None in Ep; lia].
  destruct (nth_error es i) as [sd |] eqn:Es;
    [|apply nth_error_None in Es; lia].
  exists p, sd, lo, up.
  repeat (split; [assumption|]).
  repeat split; eapply getitem_combine; eassumption.
Qed.

(** X5.  After a fit on bounds with distinct keys, [parameters], [errors]
    and [quantiles] have the keys of the bounds, in their order, and the
    entry of the key at position [i] is the coordinate [i] of the sampler's
    maximum-likelihood point, posterior deviation and credible bounds. *)
Theorem point_estimates_by_key :
  forall (run : sampler_call -> result sampler_results) (s : fitter_inputs)
         (self : linear_fitter),
    fit_nested run s = Ok self ->
    NoDup (keys (in_bounds s)) ->
    keys (parameters self) = keys (in_bounds s) /\
    keys (errors self) = keys (in_bounds s) /\
    keys (quantiles self) = keys (in_bounds s) /\
    forall i k, nth_error (keys (in_bounds s)) i = Some k ->
      exists p sd lo up,
        nth_error (maximum_likelihood_point (results self)) i = Some p /\
        nth_error (posterior_stdev (results self)) i = Some sd /\
        nth_error (posterior_errlo (results self)) i = Some lo /\
        nth_error (posterior_errup (results self)) i = Some up /\
        getitem (parameters self) k = Ok p /\
        getitem (errors self) k = Ok sd /\
        getitem (quantiles self) k = Ok (lo, up).
Proof.
  intros run s self H Hnd.
  destruct (fitted_dicts run s self H Hnd)
    as (ps & es & qs & Hp & He & Hq & Lp & Le & Lq & _).
  rewrite Hp, He, Hq, !keys_combine by assumption.
  repeat (split; [reflexivity|]).
  rewrite <- Hp, <- He, <- Hq.
  apply (point_estimates_of run s self H Hnd).
Qed.

(** ** Sums *)

Lemma sum_ext_in {A : Type} (f g : A -> Q) (l : list A) :
  (forall x, In x l -> f x == g x) -> Np.sum (map f l) == Np.sum (map g l).
Proof.
  induction l as [| x l IH]; intros H; simpl; [reflexivity|].
  rewrite (H x (or_introl eq_refl)), IH; [reflexivity|].
  intros y Hy. apply H. right. exact Hy.
Qed.

Lemma sum_upto_ext (n : nat) (f g : nat -> Q) :
  (forall i, (i < n)%nat -> f i == g i) -> sum_upto n f == sum_upto n g.
Proof.
  intros H. unfold sum_upto. apply sum_ext_in.
  intros i Hi. apply in_seq in Hi. apply H. lia.
Qed.

Lemma nth_map2 {A B C : Type} (f : A -> B -> C) (a : list A) :
  forall (b : list B) (i : nat) (da : A) (db : B) (dc : C),
    (i < List.length a)%nat -> List.length b = List.length a ->
    nth i (Np.map2 f a b) dc = f (nth i a da) (nth i b db).
Proof.
  induction a as [| x a IH]; intros b i da db dc Hi Hb; [simpl in Hi; lia|].
  destruct b as [| y b]; [discriminate|].
  destruct i as [| i]; simpl; [reflexivity|].
  apply IH; simpl in *; lia.
Qed.

Lemma nth_map_in_range {A B : Type} (f : A -> B) (l : list A) (i : nat) (da : A) (db : B) :
  (i < List.length l)%nat -> nth i (map f l) db = f (nth i l da).
Proof.
  intros Hi. rewrite (nth_indep _ db (f da)) by (rewrite length_map; exact Hi).
  apply map_nth.
Qed.

(** The model and the residuals of a fitted object, by the entries 'm' and
    'b' of [parameters]. *)
Lemma fitted_model (run : sampler_call -> result sampler_results) (s : fitter_inputs)
    (self : linear_fitter) (pm pb : Q) :
  fit_nested run s = Ok self ->
  getitem (parameters self) "m" = Ok pm ->
  getitem (parameters self) "b" = Ok pb ->
  model self = map (fun e => e * pm + pb) (epochs self) /\
  residuals self = Np.map2 Qminus (in_data s) (model self) /\
  dataerr self = in_dataerr s /\
  fit_nested_epochs (in_data s) (in_bounds s) = Ok (epochs self).
Proof.
  intros H Hm Hb. unfold fit_nested in H. bind_inv H.
  unfold fit_nested_finish in H. bind_inv H.
  injection H as <-. cbn in *.
  repeat match goal with
         | E1 : getitem ?d ?k = Ok ?x, E2 : getitem ?d ?k = Ok ?y |- _ =>
             rewrite E1 in E2; injection E2 as ->
         end.
  repeat split; auto.
Qed.

(** X6.  With bounds keyed 'b' then 'm', the fitted model is not the line
    whose likelihood the sampler maximised: the likelihood of the point
    [(p0, p1)] is that of the line [p0 * epoch + p1], while [parameters]
    files [p1] under 'm' and [p0] under 'b', so that [model] is
    [epoch * p1 + p0]. *)
Theorem keys_b_then_m_swap_the_roles :
  forall (run : sampler_call -> result sampler_results) (s : fitter_inputs)
         (self : linear_fitter) (rest : list string),
    fit_nested run s = Ok self ->
    keys (in_bounds s) = "b"%string :: "m"%string :: rest ->
    NoDup (keys (in_bounds s)) ->
    List.length (in_dataerr s) = List.length (in_data s) ->
    exists p0 p1,
      nth_error (maximum_likelihood_point (results self)) 0 = Some p0 /\
      nth_error (maximum_likelihood_point (results self)) 1 = Some p1 /\
      loglike_fn (fit_nested_call s (epochs self)) (maximum_likelihood_point (results self))
      == log_chi_square (in_data s) (in_dataerr s) (epochs self) p0 p1 /\
      getitem (parameters self) "m" = Ok p1 /\
      getitem (parameters self) "b" = Ok p0 /\
      model self = map (fun e => e * p1 + p0) (epochs self).
Proof.
  intros run s self rest H Hkeys Hnd Herr.
  pose proof (point_estimates_of run s self H Hnd) as Hest.
  destruct (Hest 0%nat "b"%string) as (p0 & _ & _ & _ & Hp0 & _ & _ & _ & Hb & _);
    [rewrite Hkeys; reflexivity|].
  destruct (Hest 1%nat "m"%string) as (p1 & _ & _ & _ & Hp1 & _ & _ & _ & Hm & _);
    [rewrite Hkeys; reflexivity|].
  destruct (fitted_model run s self p1 p0 H Hm Hb) as (Hmodel & _ & _ & Hep).
  exists p0, p1. repeat (split; [assumption|]). split; [|repeat split; assumption].
  rewrite loglike_by_position.
  - rewrite (nth_error_nth _ _ 0 Hp0), (nth_error_nth _ _ 0 Hp1). reflexivity.
  - apply fit_nested_epochs_length in Hep. exact Hep.
  - exact Herr.
Qed.

Lemma square_eq (x : Q) : x ^ 2 == x * x.
Proof. reflexivity. Qed.

(** X7.  With bounds keyed 'm' then 'b', the likelihood of the sampler's
    maximum-likelihood point is that of the fitted model: it is [-1/2] times
    the sum of the squares of [residuals / dataerr]. *)
Theorem keys_m_then_b_fit_the_model :
  forall (run : sampler_call -> result sampler_results) (s : fitter_inputs)
         (self : linear_fitter) (rest : list string),
    fit_nested run s = Ok self ->
    keys (in_bounds s) = "m"%string :: "b"%string :: rest ->
    NoDup (keys (in_bounds s)) ->
    List.length (in_dataerr s) = List.length (in_data s) ->
    loglike_fn (fit_nested_call s (epochs self)) (maximum_likelihood_point (results self))
    == - (1 # 2) * sum_upto (List.length (residuals self))
                     (fun i => (nth i (residuals self) 0 / nth i (dataerr self) 0) ^ 2).
Proof.
  intros run s self rest H Hkeys Hnd Herr.
  pose proof (point_estimates_of run s self H Hnd) as Hest.
  destruct (Hest 0%nat "m"%string) as (p0 & _ & _ & _ & Hp0 & _ & _ & _ & Hm & _);
    [rewrite Hkeys; reflexivity|].
  destruct (Hest 1%nat "b"%string) as (p1 & _ & _ & _ & Hp1 & _ & _ & _ & Hb & _);
    [rewrite Hkeys; reflexivity|].
  destruct (fitted_model run s self p0 p1 H Hm Hb) as (Hmodel & Hres & Hde & Hep).
  apply fit_nested_epochs_length in Hep.
  assert (Hlen : List.length (residuals self) = List.length (in_data s)).
  { rewrite Hres, map2_length; [reflexivity|]. rewrite Hmodel, length_map. exact Hep. }
  rewrite loglike_by_position by assumption.
  rewrite (nth_error_nth _ _ 0 Hp0), (nth_error_nth _ _ 0 Hp1).
  unfold log_chi_square. rewrite Hlen, Hde.
  apply Qmult_comp; [reflexivity|]. apply sum_upto_ext. intros i Hi.
  rewrite Hres, (nth_map2 Qminus _ _ i 0 0 0) by (rewrite ?Hmodel, ?length_map; lia).
  rewrite Hmodel, (nth_map_in_range _ _ i 0 0) by lia.
  rewrite !square_eq.
  apply Qmult_comp; (apply Qdiv_comp; [ring | reflexivity]).
Qed.

(** ** When the constructor returns, and how it fails *)

Lemma in_keys_setitem {V : Type} (d : dict V) (k k' : string) (v : V) :
  In k' (keys (setitem d k v)) <-> k' = k \/ In k' (keys d).
Proof.
  induction d as [| [k0 v0] d IH]; simpl.
  - intuition congruence.
  - destruct (String.eqb_spec k k0) as [-> | Hne]; simpl.
    + intuition congruence.
    + rewrite IH. intuition congruence.
Qed.

Lemma getidx_ok {A : Type} (l : list A) (i : nat) :
  (i < List.length l)%nat -> exists a, getidx l i = Ok a.
Proof.
  intros H. unfold getidx. destruct (nth_error l i) eqn:E; [eexists; reflexivity|].
  apply nth_error_None in E. lia.
Qed.

Lemma getidx_short {A : Type} (l : list A) (i : nat) :
  (List.length l <= i)%nat -> raises "IndexError" (getidx l i).
Proof.
  intros H. unfold getidx. apply nth_error_None in H. rewrite H. reflexivity.
Qed.

Lemma collect_ok (res : sampler_results) (ks : list string) :
  forall i acc,
    (forall j, (j < List.length ks)%nat -> answers_at res (i + j)) ->
    exists out,
      fit_nested_collect res i ks acc = Ok out /\
      forall k, In k ks \/ In k (keys (fst (fst acc))) -> In k (keys (fst (fst out))).
Proof.
  induction ks as [| key ks IH]; intros i acc H.
  - exists acc. split; [reflexivity|]. intros k [[] | Hk]. exact Hk.
  - destruct (H 0%nat ltac:(simpl; lia)) as (H1 & H2 & H3 & H4).
    rewrite Nat.add_0_r in H1, H2, H3, H4.
    destruct (getidx_ok _ _ H1) as (p & Ep), (getidx_ok _ _ H2) as (sd & Es),
      (getidx_ok _ _ H3) as (lo & El), (getidx_ok _ _ H4) as (up & Eu).
    simpl. rewrite Ep, Es, El, Eu. cbn [bind].
    edestruct IH as (out & Eout & Hout); [|exists out; split; [exact Eout|]].
    + intros j Hj. replace (S i + j)%nat with (i + S j)%nat by lia.
      apply H. simpl. lia.
    + intros k Hk. apply Hout. cbn [fst]. rewrite in_keys_setitem.
      simpl in Hk. intuition congruence.
Qed.

Lemma collect_short (res : sampler_results) (ks : list string) :
  forall i acc,
    (exists j, (j < List.length ks)%nat /\ ~ answers_at res (i + j)) ->
    raises "IndexError" (fit_nested_collect res i ks acc).
Proof.
  induction ks as [| key ks IH]; intros i acc (j & Hj & Hshort); [simpl in Hj; lia|].
  simpl. unfold getidx.
  destruct (nth_error (maximum_likelihood_point res) i) eqn:E1; [|reflexivity].
  destruct (nth_error (posterior_stdev res) i) eqn:E2; [|reflexivity].
  destruct (nth_error (posterior_errlo res) i) eqn:E3; [|reflexivity].
  destruct (nth_error (posterior_errup res) i) eqn:E4; [|reflexivity].
  cbn [bind]. apply IH.
  destruct j as [| j].
  - exfalso. apply Hshort. rewrite Nat.add_0_r. unfold answers_at.
    repeat split; apply nth_error_Some; congruence.
  - exists j. split; [simpl in Hj; lia|].
    replace (S i + j)%nat with (i + S j)%nat by lia. exact Hshort.
Qed.

(** X8.  Given a prior, and bounds that hold 'm' and 'b', the constructor
    returns a fitted object carrying the sampler's answer exactly when that
    answer has a coordinate for every key in each of its four arrays; when
    an array is shorter, the constructor raises [IndexError]. *)
Theorem constructor_returns :
  forall (run : sampler_call -> result sampler_results) (d derr : list Q)
         (b pr : dict (Q * Q)) (ep : list Q) (res : sampler_results),
    let s := {| in_data := d; in_dataerr := derr; in_bounds := b; in_prior := pr |} in
    fit_nested_epochs d b = Ok ep ->
    run (fit_nested_call s ep) = Ok res ->
    ((forall j, (j < List.length (keys b))%nat -> answers_at res j) ->
     exists self, __init__ run d derr (Some b) (Some pr) = Ok self /\ results self = res) /\
    ((exists j, (j < List.length (keys b))%nat /\ ~ answers_at res j) ->
     raises "IndexError" (__init__ run d derr (Some b) (Some pr))).
Proof.
  intros run d derr b pr ep res s Hep Hrun.
  assert (Hinit : __init__ run d derr (Some b) (Some pr) = fit_nested_finish s ep res).
  { unfold __init__, fit_nested. cbn [bind in_data in_bounds]. rewrite Hep. cbn [bind].
    fold s. rewrite Hrun. reflexivity. }
  rewrite Hinit. unfold fit_nested_finish, freekeys. cbn [in_bounds s]. split.
  - intros Hlong.
    destruct (collect_ok res (keys b) 0 ([], [], []) Hlong) as (out & -> & Hout).
    cbn [bind].
    assert (Hkeys : In "m"%string (keys b) /\ In "b"%string (keys b)).
    { unfold fit_nested_epochs in Hep. bind_inv Hep.
      split; eapply getitem_in_keys; eassumption. }
    destruct Hkeys as [Hm Hb].
    destruct (in_keys_getitem _ _ (Hout _ (or_introl Hm))) as (pm & ->).
    destruct (in_keys_getitem _ _ (Hout _ (or_introl Hb))) as (pb & ->).
    cbn [bind]. eexists. split; reflexivity.
  - intros Hshort.
    pose proof (collect_short res (keys b) 0 ([], [], []) Hshort) as H.
    destruct (fit_nested_collect res 0 (keys b) ([], [], [])); [contradiction | exact H].
Qed.

Lemma bind_raise {A B : Type} (r : result A) (k : A -> result B) (e : exn) :
  bind r k = Raise e -> r = Raise e \/ exists a, r = Ok a /\ k a = Raise e.
Proof.
  destruct r as [a | e']; simpl; intros H; [right; exists a; auto | left; congruence].
Qed.

Ltac raise_cases H :=
  apply bind_raise in H;
  let a := fresh "a" in
  let E := fresh "E" in
  destruct H as [H | (a & E & H)].

Lemma getidx_raise {A : Type} (l : list A) (i : nat) (e : exn) :
  getidx l i = Raise e -> exn_class e = "IndexError"%string.
Proof.
  unfold getidx. destruct (nth_error l i); intros H; [discriminate|].
  injection H as <-. reflexivity.
Qed.

Lemma collect_raise (res : sampler_results) (ks : list string) :
  forall i acc e, fit_nested_collect res i ks acc = Raise e ->
    exn_class e = "IndexError"%string.
Proof.
  induction ks as [| key ks IH]; intros i acc e H; simpl in H; [discriminate|].
  do 4 (raise_cases H; [eapply getidx_raise; exact H|]).
  eapply IH; exact H.
Qed.

Lemma getitem_raise_own {V : Type} (d : dict V) (k : string) (e : exn) :
  getitem d k = Raise e -> own_exception e.
Proof.
  intros H. apply getitem_raises in H. subst e. right. left. reflexivity.
Qed.

Lemma fit_nested_raise (run : sampler_call -> result sampler_results)
    (s : fitter_inputs) (e : exn) :
  fit_nested run s = Raise e ->
  (exists c, run c = Raise e) \/ own_exception e.
Proof.
  intros H. unfold fit_nested in H.
  raise_cases H.
  { unfold fit_nested_epochs in H.
    do 2 (raise_cases H; [right; eapply getitem_raise_own; exact H|]). discriminate. }
  raise_cases H; [left; eexists; exact H|].
  unfold fit_nested_finish in H.
  raise_cases H; [right; right; right; eapply collect_raise; exact H|].
  do 2 (raise_cases H; [right; eapply getitem_raise_own; exact H|]). discriminate.
Qed.

(** X9.  An exception that leaves the constructor is either the sampler's
    own, or an [AttributeError] (no prior), a [KeyError] (a missing key 'm'
    or 'b') or an [IndexError] (an answer of the sampler that is too short):
    the constructor has no other failure. *)
Theorem constructor_failures :
  forall (run : sampler_call -> result sampler_results) (d derr : list Q)
         (b p : option (dict (Q * Q))) (e : exn),
    __init__ run d derr b p = Raise e ->
    (exists c, run c = Raise e) \/ own_exception e.
Proof.
  intros run d derr b p e H. unfold __init__ in H.
  raise_cases H.
  { destruct p; [discriminate|]. injection H as <-. right. left. reflexivity. }
  raise_cases H.
  { destruct b; [discriminate|].
    do 2 (raise_cases H; [right; eapply getitem_raise_own; exact H|]). discriminate. }
  eapply fit_nested_raise; exact H.
Qed.

(** ** Bounds derived from the prior (lines 77-82) *)

Lemma round_proper (x y : Q) : x == y -> Np.round x = Np.round y.
Proof.
  intros E. unfold Np.round. f_equal. apply rint_proper. exact E.
Qed.

(** X10.  Without bounds, the constructor fits with the bounds
    [mean -+ 3 * stdev] of the prior, keyed 'm' then 'b'; their midpoints are
    the prior means, so the epochs are [round((t - mean_b) / mean_m)]; and
    these bounds have [low < high] exactly when both deviations are
    positive.  A prior without the key 'm' or 'b' is a [KeyError]. *)
Theorem bounds_from_prior :
  forall (run : sampler_call -> result sampler_results) (d derr : list Q)
         (pr : dict (Q * Q)),
    (forall mu_m sd_m mu_b sd_b,
       getitem pr "m" = Ok (mu_m, sd_m) ->
       getitem pr "b" = Ok (mu_b, sd_b) ->
       let b := three_sigma_bounds mu_m sd_m mu_b sd_b in
       __init__ run d derr None (Some pr) = __init__ run d derr (Some b) (Some pr) /\
       fit_nested_epochs d b = Ok (map (fun t => Np.round ((t - mu_b) / mu_m)) d) /\
       (bounds_ordered b <-> 0 < sd_m /\ 0 < sd_b)) /\
    (raises "KeyError" (getitem pr "m") \/ raises "KeyError" (getitem pr "b") ->
     raises "KeyError" (__init__ run d derr None (Some pr))).
Proof.
  intros run d derr pr. split.
  - intros mu_m sd_m mu_b sd_b Hm Hb b. split; [|split].
    + unfold __init__. cbn [bind]. rewrite Hm, Hb. reflexivity.
    + unfold fit_nested_epochs. cbn. f_equal. apply map_ext. intros t.
      apply round_proper. rewrite !mean_pair. cbn [fst snd].
      apply Qdiv_comp; field.
    + unfold bounds_ordered, b, three_sigma_bounds. split.
      * intros H. inversion H as [| ? ? Hm' H']; subst.
        inversion H' as [| ? ? Hb' _]; subst. cbn [fst snd] in *. split; lra.
      * intros [H1 H2]. repeat constructor; cbn [fst snd]; lra.
  - intros H. unfold __init__. cbn [bind].
    destruct (getitem pr "m") as [pm | e] eqn:Em; cbn [bind].
    + destruct (getitem pr "b") as [pb | e] eqn:Eb; cbn [bind].
      * destruct H as [[] | []].
      * destruct H as [[] | H]. exact H.
    + destruct H as [H | H]; [exact H|].
      apply getitem_raises in Em. subst e. reflexivity.
Qed.

(** ** Epochs and the midpoint ephemeris *)

(** X11.  Every timestamp lies within half a period of the time its epoch
    predicts under the midpoint ephemeris: [|t - (epoch * slope +
    intercept)| <= |slope| / 2], for the midpoints [slope <> 0] and
    [intercept] of the bounds. *)
Theorem epochs_within_half_a_period :
  forall (d : list Q) (b : dict (Q * Q)) (lo_m hi_m lo_b hi_b : Q) (ep : list Q),
    getitem b "m" = Ok (lo_m, hi_m) ->
    getitem b "b" = Ok (lo_b, hi_b) ->
    ~ (lo_m + hi_m) / 2 == 0 ->
    fit_nested_epochs d b = Ok ep ->
    forall i t e,
      nth_error d i = Some t ->
      nth_error ep i = Some e ->
      Qabs (t - (e * ((lo_m + hi_m) / 2) + (lo_b + hi_b) / 2))
      <= Qabs ((lo_m + hi_m) / 2) / 2.
Proof.
  intros d b lo_m hi_m lo_b hi_b ep Hm Hb Hslope Hep i t e Ht He.
  rewrite (fit_nested_epochs_eq d b _ _ Hm Hb) in Hep. injection Hep as <-.
  rewrite nth_error_map, Ht in He. injection He as <-. cbn [fst snd].
  set (m0 := (lo_m + hi_m) / 2) in *. set (b0 := (lo_b + hi_b) / 2).
  set (x := (t - Np.mean [lo_b; hi_b]) / Np.mean [lo_m; hi_m]).
  assert (Ex : x == (t - b0) / m0) by (unfold x; rewrite !mean_pair; reflexivity).
  pose proof (rint_close x) as Hc. fold (Np.round x) in Hc.
  assert (Et : t == x * m0 + b0) by (rewrite Ex; field; exact Hslope).
  clearbody x.
  assert (E : t - (Np.round x * m0 + b0) == (x - Np.round x) * m0)
    by (rewrite Et; ring).
  rewrite E, Qabs_Qmult.
  apply Qle_trans with ((1 # 2) * Qabs m0).
  - apply Qmult_le_compat_r; [exact Hc | apply Qabs_nonneg].
  - unfold Qdiv. rewrite Qmult_comm. apply Qle_refl.
Qed.

(** ** The sign of the log-likelihood *)

Lemma sum_nonneg (l : list Q) : Forall (fun x => 0 <= x) l -> 0 <= Np.sum l.
Proof.
  induction 1 as [| x l Hx _ IH]; simpl; [apply Qle_refl | lra].
Qed.

Lemma sum_zero_iff (l : list Q) :
  Forall (fun x => 0 <= x) l -> (Np.sum l == 0 <-> Forall (fun x => x == 0) l).
Proof.
  induction 1 as [| x l Hx Hl IH]; simpl.
  - split; [constructor | reflexivity].
  - pose proof (sum_nonneg l Hl) as Hs. split.
    + intros H. constructor; [lra|]. apply IH. lra.
    + intros H. inversion H as [| ? ? H0 Hrest]; subst.
      apply IH in Hrest. lra.
Qed.

Lemma square_nonneg (x : Q) : 0 <= x ^ 2.
Proof. rewrite square_eq. nra. Qed.

Lemma square_zero (x : Q) : x ^ 2 == 0 <-> x == 0.
Proof. rewrite square_eq. split; intros H; nra. Qed.

Lemma div_zero_iff (x y : Q) : ~ y == 0 -> (x / y == 0 <-> x == 0).
Proof.
  intros Hy. split; intros H.
  - setoid_replace x with (x / y * y) by (field; exact Hy). rewrite H. ring.
  - rewrite H. field. exact Hy.
Qed.

(** X12.  The log-likelihood is never positive; with uncertainties that
    are not zero, it is zero exactly when the line [pars[0] * epoch +
    pars[1]] passes through every observation. *)
Theorem loglike_sign :
  forall (s : fitter_inputs) (ep pars : list Q),
    List.length ep = List.length (in_data s) ->
    List.length (in_dataerr s) = List.length (in_data s) ->
    Forall (fun e => ~ e == 0) (in_dataerr s) ->
    loglike_fn (fit_nested_call s ep) pars <= 0 /\
    (loglike_fn (fit_nested_call s ep) pars == 0 <->
     forall i, (i < List.length (in_data s))%nat ->
       nth i (in_data s) 0 == nth 0 pars 0 * nth i ep 0 + nth 1 pars 0).
Proof.
  intros s ep pars Hep Herr Hnz.
  rewrite (loglike_by_position s ep pars Hep Herr).
  unfold log_chi_square, sum_upto.
  set (term := fun i : nat =>
         ((nth i (in_data s) 0 - (nth 0 pars 0 * nth i ep 0 + nth 1 pars 0))
          / nth i (in_dataerr s) 0) ^ 2).
  assert (Hpos : Forall (fun x => 0 <= x) (map term (seq 0 (List.length (in_data s))))).
  { rewrite Forall_map. apply Forall_forall. intros i _. apply square_nonneg. }
  pose proof (sum_nonneg _ Hpos) as Hs. split; [lra|].
  assert (Hiff : - (1 # 2) * Np.sum (map term (seq 0 (List.length (in_data s)))) == 0
                 <-> Np.sum (map term (seq 0 (List.length (in_data s)))) == 0)
    by (split; intros H; lra).
  rewrite Hiff, (sum_zero_iff _ Hpos), Forall_map, Forall_forall.
  assert (Hterm : forall i, (i < List.length (in_data s))%nat ->
             (term i == 0 <->
              nth i (in_data s) 0 == nth 0 pars 0 * nth i ep 0 + nth 1 pars 0)).
  { intros i Hi. unfold term. rewrite square_zero, div_zero_iff.
    - split; intros H; lra.
    - rewrite Forall_forall in Hnz. apply Hnz, nth_In. lia. }
  split.
  - intros H i Hi. apply Hterm; [exact Hi|]. apply H, in_seq. lia.
  - intros H i Hi. apply in_seq in Hi. apply Hterm; [lia|]. apply H. lia.
Qed.

(** ** The prior transform on bounds in any order *)

(** X13.  Whatever the order of [low] and [high], the prior transform
    sends the corner [0] of the unit cube to the lows, the corner [1] to the
    highs and the centre to the midpoints (the ephemeris of the epoch
    mapping), and every point of the cube between [low] and [high]
    coordinate by coordinate, so that a key with [low == high] is held at
    that value. *)
Theorem prior_transform_any_bounds :
  forall (b : dict (Q * Q)),
    Forall2 Qeq (prior_transform b (map (fun _ => 0) b)) (map (fun e => fst (snd e)) b) /\
    Forall2 Qeq (prior_transform b (map (fun _ => 1) b)) (map (fun e => snd (snd e)) b) /\
    Forall2 Qeq (prior_transform b (map (fun _ => 1 # 2) b))
            (map (fun e => Np.mean [fst (snd e); snd (snd e)]) b) /\
    forall u, in_unit_cube b u ->
      Forall2 (fun e x => fst (snd e) <= x <= snd (snd e) \/
                          snd (snd e) <= x <= fst (snd e))
              b (prior_transform b u).
Proof.
  induction b as [| [k [lo hi]] b (IH0 & IH1 & IHc & IHu)].
  - repeat split; constructor.
  - cbn [map]. rewrite !prior_transform_cons. cbn [fst snd].
    split; [constructor; [ring | exact IH0]|].
    split; [constructor; [ring | exact IH1]|].
    split; [constructor; [rewrite mean_pair; field | exact IHc]|].
    intros u [Hlen Hu]. destruct u as [| x u]; [discriminate|].
    inversion Hu as [| ? ? Hx Hu']; subst.
    rewrite prior_transform_cons. constructor.
    + cbn [fst snd]. destruct (Qlt_le_dec hi lo); [right | left]; split; nra.
    + apply IHu. split; [simpl in Hlen; congruence | exact Hu'].
Qed.

(** ** The frequency windows of the two passes *)

Lemma sorted_nth_le (l : list Q) :
  StronglySorted Qle l ->
  forall i j, (i <= j)%nat -> (j < List.length l)%nat -> nth i l 0 <= nth j l 0.
Proof.
  induction 1 as [| x l Hs IH Hx]; intros i j Hij Hj; [simpl in Hj; lia|].
  destruct j as [| j].
  - assert (i = 0)%nat by lia. subst i. apply Qle_refl.
  - simpl in Hj. destruct i as [| i]; cbn [nth].
    + rewrite Forall_forall in Hx. apply Hx, nth_In. lia.
    + apply IH; lia.
Qed.

(** The least spacing is at most the range. *)
Lemma min_spacing_le_range (ep : list Q) (dmin emin emax : Q) :
  min_spacing ep dmin -> is_minimum ep emin -> is_maximum ep emax ->
  0 <= dmin <= emax - emin.
Proof.
  intros (sorted & Hperm & Hsorted & (i & Hi & ->) & _) [_ Hmin] [_ Hmax].
  rewrite Forall_forall in Hmin, Hmax.
  assert (H0 : emin <= nth i sorted 0)
    by (apply Hmin, (Permutation_in _ Hperm), nth_In; lia).
  assert (H1 : nth (S i) sorted 0 <= emax)
    by (apply Hmax, (Permutation_in _ Hperm), nth_In; lia).
  pose proof (sorted_nth_le sorted Hsorted i (S i) ltac:(lia) Hi).
  lra.
Qed.

Lemma integers_apart (x y : Q) :
  integer_valued x -> integer_valued y -> x < y -> 1 <= y - x.
Proof.
  intros [a Ha] [b Hb] Hlt. rewrite Ha, Hb in *.
  rewrite <- Zlt_Qlt in Hlt.
  pose proof (inject_Z_succ_le a b Hlt). lra.
Qed.

Lemma inv_lt_of_lt (a b : Q) : 0 < a -> a < b -> 1 / b < 1 / a.
Proof.
  intros Ha Hab. unfold Qdiv. rewrite !Qmult_1_l.
  apply (Qinv_lt_contravar a b); [exact Ha | lra | exact Hab].
Qed.

Lemma window_of_second_pass (m : Q) :
  2 <= m -> (1 / 50 < 1 / m <-> m < 50).
Proof.
  intros Hm. split; intros Hlt.
  - destruct (Qlt_le_dec m 50) as [Hc | Hc]; [exact Hc|]. exfalso.
    assert (1 / m <= 1 / 50).
    { apply Qle_shift_div_r; [lra|].
      setoid_replace (1 / 50 * m) with (m / 50) by field.
      apply Qle_shift_div_l; lra. }
    lra.
  - apply inv_lt_of_lt; lra.
Qed.

(** X14.  For integer epochs with at least two distinct values, the first
    pass asks for a proper window of frequencies: the minimum period is at
    least 2 and below the maximum period, so that
    [0 < minimum_frequency < maximum_frequency <= 1/2] in the call [pass1 r];
    and this call is the one the estimator answers: the spectrum and the
    period of the first pass are read off its answer to [pass1 r]. *)
Theorem first_pass_window_is_proper :
  forall np_sqrt np_sin np_cos np_pi autopower wls_params (self : linear_fitter)
         (r : periodogram),
    plot_periodogram np_sqrt np_sin np_cos np_pi autopower wls_params self = Ok r ->
    Forall integer_valued (epochs self) ->
    (exists e1 e2, In e1 (epochs self) /\ In e2 (epochs self) /\ e1 < e2) ->
    2 <= minper r /\
    minper r < maxper r /\
    0 < minimum_frequency (pass1 r) /\
    minimum_frequency (pass1 r) < maximum_frequency (pass1 r) /\
    maximum_frequency (pass1 r) <= 1 # 2 /\
    periods r = map (fun f => 1 / f) (fst (autopower (pass1 r))) /\
    power r = snd (autopower (pass1 r)) /\
    peak_of autopower (pass1 r) (per r).
Proof.
  intros np_sqrt np_sin np_cos np_pi autopower wls_params self r H Hint
         (e1 & e2 & He1 & He2 & Hlt).
  destruct (period_range_of _ _ _ _ _ _ self r H)
    as (dmin & emin & emax & Hsp & Hmin & Hmax & Eminper & Emaxper & _).
  destruct (pass_limits _ _ _ _ _ _ self r H) as (Ef1 & Ef2 & _).
  destruct (plot_periodogram_calls _ _ _ _ _ _ self r H)
    as (_ & _ & Eperiods & Epower & Hpk1 & _).
  pose proof (min_spacing_le_range _ _ _ _ Hsp Hmin Hmax) as [Hd0 Hd].
  assert (Hrange : 1 <= emax - emin).
  { rewrite Forall_forall in Hint.
    apply integers_apart; [apply Hint, Hmin | apply Hint, Hmax |].
    destruct Hmin as [_ Hmin], Hmax as [_ Hmax]. rewrite Forall_forall in Hmin, Hmax.
    pose proof (Hmin e1 He1). pose proof (Hmax e2 He2). lra. }
  destruct (py_max_spec 2 (2 * dmin)) as (Hm2 & Hmd & Hor).
  rewrite <- Eminper in Hm2, Hmd, Hor.
  assert (Hlt' : minper r < maxper r).
  { rewrite Emaxper. destruct Hor as [E | E]; rewrite E in *; lra. }
  split; [exact Hm2|]. split; [exact Hlt'|].
  rewrite Ef1, Ef2.
  split; [|split; [|split]].
  - unfold Qdiv. rewrite Qmult_1_l. apply Qinv_lt_0_compat. lra.
  - apply inv_lt_of_lt; lra.
  - apply Qle_shift_div_r; lra.
  - repeat split; assumption.
Qed.

(** X15.  The second pass keeps the minimum period of the first and caps the
    maximum period at 50: the call [pass2 r] carries the limits [1/50] and
    [1/minper], and the period of the second pass is read off the estimator's
    answer to this call.  Its window of frequencies is proper exactly when the
    least spacing of the sorted epochs is below 25; with every spacing at 25
    or more, the estimator is called with
    [minimum_frequency >= maximum_frequency]. *)
Theorem second_pass_window :
  forall np_sqrt np_sin np_cos np_pi autopower wls_params (self : linear_fitter)
         (r : periodogram),
    plot_periodogram np_sqrt np_sin np_cos np_pi autopower wls_params self = Ok r ->
    exists dmin,
      min_spacing (epochs self) dmin /\
      is_larger_of 2 (2 * dmin) (minper r) /\
      minimum_frequency (pass2 r) = 1 / 50 /\
      maximum_frequency (pass2 r) = 1 / minper r /\
      peak_of autopower (pass2 r) (per2 r) /\
      (minimum_frequency (pass2 r) < maximum_frequency (pass2 r) <-> dmin < 25) /\
      (25 <= dmin -> maximum_frequency (pass2 r) <= minimum_frequency (pass2 r)).
Proof.
  intros np_sqrt np_sin np_cos np_pi autopower wls_params self r H.
  destruct (period_range_of _ _ _ _ _ _ self r H)
    as (dmin & emin & emax & Hsp & Hmin & Hmax & Eminper & _ & Emaxper2).
  destruct (pass_limits _ _ _ _ _ _ self r H) as (_ & _ & Ef1 & Ef2).
  destruct (plot_periodogram_calls _ _ _ _ _ _ self r H) as (_ & _ & _ & _ & _ & Hpk2 & _).
  rewrite Emaxper2 in Ef1.
  exists dmin. split; [exact Hsp|].
  destruct (py_max_spec 2 (2 * dmin)) as (Hm2 & Hmd & Hor).
  rewrite <- Eminper in Hm2, Hmd, Hor.
  split; [repeat split; assumption|].
  split; [exact Ef1|]. split; [exact Ef2|]. split; [exact Hpk2|].
  rewrite Ef1, Ef2.
  pose proof (window_of_second_pass (minper r) Hm2) as Hiff.
  split.
  - rewrite Hiff. destruct Hor as [E | E]; rewrite E in *; split; intros; lra.
  - intros Hd. destruct (Qlt_le_dec (1 / 50) (1 / minper r)) as [Hc | Hc]; [|exact Hc].
    apply Hiff in Hc. destruct Hor as [E | E]; rewrite E in *; lra.
Qed.

(** ** Phase folding is periodic *)

Lemma floor_unique (x : Q) (n : Z) :
  inject_Z n <= x -> x < inject_Z n + 1 -> Qfloor x = n.
Proof.
  intros Hlo Hhi. destruct (floor_bounds x) as [Flo Fhi].
  destruct (Z.lt_total (Qfloor x) n) as [H | [H | H]]; [|exact H|].
  - apply inject_Z_succ_le in H. lra.
  - apply inject_Z_succ_le in H. lra.
Qed.

Lemma mod1_shift (x : Q) (k : Z) : Np.mod1 (x + inject_Z k) == Np.mod1 x.
Proof.
  unfold Np.mod1. destruct (floor_bounds x) as [Flo Fhi].
  rewrite (floor_unique (x + inject_Z k) (Qfloor x + k)).
  - rewrite inject_Z_plus. ring.
  - rewrite inject_Z_plus. lra.
  - rewrite inject_Z_plus. lra.
Qed.

Lemma mod1_proper (x y : Q) : x == y -> Np.mod1 x == Np.mod1 y.
Proof.
  intros E. unfold Np.mod1.
  assert (Hf : Qfloor x = Qfloor y) by (apply Qfloor_comp; exact E).
  rewrite Hf. unfold Qminus. apply Qplus_comp; [exact E | reflexivity].
Qed.

Lemma digitize_proper (x y : Q) (edges : list Q) :
  x == y -> Np.digitize x edges = Np.digitize y edges.
Proof.
  intros E. induction edges as [| e edges IH]; simpl; [reflexivity|].
  assert (Hb : Qle_bool e x = Qle_bool e y).
  { destruct (Qle_bool e x) eqn:Ex, (Qle_bool e y) eqn:Ey; try reflexivity.
    - apply Qle_bool_iff in Ex. rewrite E in Ex. apply Qle_bool_iff in Ex. congruence.
    - apply Qle_bool_iff in Ey. rewrite <- E in Ey. apply Qle_bool_iff in Ey. congruence. }
  rewrite Hb, IH. reflexivity.
Qed.

Lemma phase_arrays_of np_sqrt np_sin np_cos np_pi autopower wls_params
    (self : linear_fitter) (r : periodogram) :
  plot_periodogram np_sqrt np_sin np_cos np_pi autopower wls_params self = Ok r ->
  newphase r = map (fun e => Np.mod1 (e / per r)) (epochs self) /\
  newphase2 r = map (fun e => Np.mod1 (e / per2 r)) (epochs self).
Proof.
  intros H. unfold plot_periodogram in H. bind_inv H.
  injection H as <-. split; reflexivity.
Qed.

(** X16.  Folding is periodic: two epochs that differ by a whole number of
    periods get the same phase, and so the same slot of the bins, in the
    first pass (period [per]) as in the second (period [per2]). *)
Theorem folded_phase_is_periodic :
  forall np_sqrt np_sin np_cos np_pi autopower wls_params (self : linear_fitter)
         (r : periodogram) (i j : nat) (ei ej : Q) (k : Z),
    plot_periodogram np_sqrt np_sin np_cos np_pi autopower wls_params self = Ok r ->
    nth_error (epochs self) i = Some ei ->
    nth_error (epochs self) j = Some ej ->
    (~ per r == 0 -> ej == ei + inject_Z k * per r ->
     nth i (newphase r) 0 == nth j (newphase r) 0 /\
     Np.digitize (nth i (newphase r) 0) bins = Np.digitize (nth j (newphase r) 0) bins) /\
    (~ per2 r == 0 -> ej == ei + inject_Z k * per2 r ->
     nth i (newphase2 r) 0 == nth j (newphase2 r) 0 /\
     Np.digitize (nth i (newphase2 r) 0) bins = Np.digitize (nth j (newphase2 r) 0) bins).
Proof.
  intros np_sqrt np_sin np_cos np_pi autopower wls_params self r i j ei ej k H Hi Hj.
  destruct (phase_arrays_of _ _ _ _ _ _ self r H) as [-> ->].
  assert (Hfold : forall p, ~ p == 0 -> ej == ei + inject_Z k * p ->
            Np.mod1 (ei / p) == Np.mod1 (ej / p)).
  { intros p Hp E. rewrite <- (mod1_shift (ei / p) k). apply mod1_proper.
    rewrite E. field. exact Hp. }
  assert (Hnth : forall p (n : nat) (e : Q), nth_error (epochs self) n = Some e ->
            nth n (map (fun e => Np.mod1 (e / p)) (epochs self)) 0 = Np.mod1 (e / p)).
  { intros p n e Hn. apply nth_error_nth. rewrite nth_error_map, Hn. reflexivity. }
  split; intros Hp E; rewrite (Hnth _ i ei Hi), (Hnth _ j ej Hj);
    (split; [apply Hfold | apply digitize_proper, Hfold]); assumption.
Qed.

(** ** The slots partition the observations *)

Lemma filter_split_index {A : Type} (f : A -> nat) (n : nat) (l : list A) :
  Permutation (filter (fun x => Nat.ltb (f x) n) l ++ filter (fun x => Nat.eqb (f x) n) l)
              (filter (fun x => Nat.ltb (f x) (S n)) l).
Proof.
  induction l as [| x l IH]; simpl; [constructor|].
  destruct (Nat.ltb_spec (f x) n), (Nat.eqb_spec (f x) n), (Nat.ltb_spec (f x) (S n));
    try lia; simpl.
  - constructor. exact IH.
  - apply Permutation_sym, Permutation_cons_app, Permutation_sym. exact IH.
  - exact IH.
Qed.

Lemma concat_filters {A : Type} (f : A -> nat) (l : list A) (n : nat) :
  Permutation (List.concat (map (fun i => filter (fun x => Nat.eqb (f x) i) l) (seq 0 n)))
              (filter (fun x => Nat.ltb (f x) n) l).
Proof.
  induction n as [| n IH].
  - simpl. induction l as [| x l IHl]; simpl; [constructor | exact IHl].
  - rewrite seq_S, map_app, concat_app. cbn [map List.concat Nat.add]. rewrite app_nil_r.
    eapply Permutation_trans; [apply Permutation_app_tail, IH|].
    apply filter_split_index.
Qed.

Lemma filter_all {A : Type} (f : A -> bool) (l : list A) :
  Forall (fun x => f x = true) l -> filter f l = l.
Proof.
  induction 1 as [| x l Hx _ IH]; simpl; [reflexivity|]. rewrite Hx, IH. reflexivity.
Qed.

Lemma map_snd_combine3 (phase : list Q) :
  forall resid err : list Q,
    List.length resid = List.length phase ->
    List.length err = List.length phase ->
    map snd (combine phase (combine resid err)) = combine resid err.
Proof.
  induction phase as [| p phase IH]; intros [| x resid] [| e err] Hr He;
    try discriminate; [reflexivity|].
  cbn [combine map snd]. f_equal. apply IH; simpl in *; congruence.
Qed.

Lemma slots_partition (phase resid err : list Q) :
  Forall (fun p => 0 <= p < 1) phase ->
  List.length resid = List.length phase ->
  List.length err = List.length phase ->
  Permutation (all_slot_points phase resid err) (combine resid err).
Proof.
  intros Hph Hr He. unfold all_slot_points.
  assert (E : map (slot_points phase resid err) (seq 0 (List.length bins))
              = map (map snd)
                    (map (fun i => filter (fun pt : Q * (Q * Q) =>
                                             Nat.eqb (Np.digitize (fst pt) bins) i)
                                          (combine phase (combine resid err)))
                         (seq 0 (List.length bins))))
    by (rewrite map_map; reflexivity).
  rewrite E, <- concat_map.
  eapply Permutation_trans;
    [apply Permutation_map,
       (concat_filters (fun pt : Q * (Q * Q) => Np.digitize (fst pt) bins))|].
  rewrite filter_all.
  - rewrite map_snd_combine3 by assumption. apply Permutation_refl.
  - apply Forall_forall. intros [p pt] Hin. apply in_combine_l in Hin.
    rewrite Forall_forall in Hph. cbn [fst]. rewrite bins_length.
    apply Nat.ltb_lt, digitize_below_one, (Hph p Hin).
Qed.

(** X4.  The binning loses no observation and counts none twice: in each
    pass the points of the eight slots, taken together, are the pairs
    (residual, uncertainty) of the data, each once. *)
Theorem binning_partitions_the_data :
  forall np_sqrt np_sin np_cos np_pi autopower wls_params (self : linear_fitter)
         (r : periodogram),
    plot_periodogram np_sqrt np_sin np_cos np_pi autopower wls_params self = Ok r ->
    List.length (residuals self) = List.length (epochs self) ->
    List.length (dataerr self) = List.length (epochs self) ->
    Permutation (all_slot_points (newphase r) (residuals self) (dataerr self))
                (combine (residuals self) (dataerr self)) /\
    Permutation (all_slot_points (newphase2 r) (detrended r) (dataerr self))
                (combine (detrended r) (dataerr self)).
Proof.
  intros np_sqrt np_sin np_cos np_pi autopower wls_params self r H Hr He.
  destruct (phase_arrays_of _ _ _ _ _ _ self r H) as [E1 E2].
  assert (Hd : List.length (detrended r) = List.length (epochs self)).
  { unfold plot_periodogram in H. bind_inv H. injection H as <-. cbn [detrended].
    rewrite map2_length; [exact Hr|]. rewrite dot_transpose_length. symmetry. exact Hr. }
  split; apply slots_partition;
    rewrite ?E1, ?E2, ?length_map; try assumption; apply folded_phase_range.
Qed.

(** ** The layout of the slots *)

Lemma qle_bool_false (e p : Q) : Qle_bool e p = false -> p < e.
Proof.
  intros E. destruct (Qlt_le_dec p e) as [H | H]; [exact H|].
  apply Qle_bool_iff in H. congruence.
Qed.

Ltac inject_consts :=
  repeat match goal with
         | |- context [inject_Z ?z] =>
             let q := eval vm_compute in (inject_Z z) in
             change (inject_Z z) with q
         end.

Ltac sevenths :=
  split; [apply Qle_shift_div_r | apply Qlt_shift_div_l]; lra.

Lemma digitize_slot (p : Q) :
  0 <= p < 1 ->
  (1 <= Np.digitize p bins <= 7)%nat /\
  inject_Z (Z.of_nat (Np.digitize p bins) - 1) / 7 <= p
  /\ p < inject_Z (Z.of_nat (Np.digitize p bins)) / 7.
Proof.
  intros [H0 H1]. rewrite bins_eq. cbn [Np.digitize].
  destruct (Qle_bool (0 # 7) p) eqn:E0;
    [apply Qle_bool_iff in E0 | apply qle_bool_false in E0; exfalso; lra].
  destruct (Qle_bool (1 # 7) p) eqn:E1;
    [apply Qle_bool_iff in E1
    | apply qle_bool_false in E1; split; [lia|]; inject_consts; sevenths].
  destruct (Qle_bool (2 # 7) p) eqn:E2;
    [apply Qle_bool_iff in E2
    | apply qle_bool_false in E2; split; [lia|]; inject_consts; sevenths].
  destruct (Qle_bool (3 # 7) p) eqn:E3;
    [apply Qle_bool_iff in E3
    | apply qle_bool_false in E3; split; [lia|]; inject_consts; sevenths].
  destruct (Qle_bool (4 # 7) p) eqn:E4;
    [apply Qle_bool_iff in E4
    | apply qle_bool_false in E4; split; [lia|]; inject_consts; sevenths].
  destruct (Qle_bool (5 # 7) p) eqn:E5;
    [apply Qle_bool_iff in E5
    | apply qle_bool_false in E5; split; [lia|]; inject_consts; sevenths].
  destruct (Qle_bool (6 # 7) p) eqn:E6;
    [apply Qle_bool_iff in E6
    | apply qle_bool_false in E6; split; [lia|]; inject_consts; sevenths].
  destruct (Qle_bool (7 # 7) p) eqn:E7;
    [apply Qle_bool_iff in E7; exfalso; lra
    | apply qle_bool_false in E7; split; [lia|]; inject_consts; sevenths].
Qed.

(** X17.  The eight entries of [bins] are edges, not bins: a phase [p] of
    [[0,1)] falls in the slot [i] exactly when [1 <= i <= 7] and
    [(i-1)/7 <= p < i/7].  The data are sorted into seven intervals of width
    1/7, in the slots 1 to 7. *)
Theorem slots_are_sevenths :
  forall (p : Q) (i : nat),
    0 <= p < 1 ->
    (Np.digitize p bins = i <->
     (1 <= i <= 7)%nat /\
     inject_Z (Z.of_nat i - 1) / 7 <= p /\ p < inject_Z (Z.of_nat i) / 7).
Proof.
  intros p i Hp. destruct (digitize_slot p Hp) as (Hi' & Hlo' & Hhi').
  split.
  - intros <-. repeat split; try lia; assumption.
  - intros (Hi & Hlo & Hhi).
    destruct (Nat.lt_total (Np.digitize p bins) i) as [Hlt | [Heq | Hgt]];
      [|exact Heq|]; exfalso.
    + assert (Hz : inject_Z (Z.of_nat (Np.digitize p bins)) <= inject_Z (Z.of_nat i - 1))
        by (rewrite <- Zle_Qle; lia).
      assert (inject_Z (Z.of_nat (Np.digitize p bins)) / 7 <= inject_Z (Z.of_nat i - 1) / 7)
        by (apply Qdiv_le_mono_pos; [reflexivity | exact Hz]).
      lra.
    + assert (Hz : inject_Z (Z.of_nat i) <= inject_Z (Z.of_nat (Np.digitize p bins) - 1))
        by (rewrite <- Zle_Qle; lia).
      assert (inject_Z (Z.of_nat i) / 7 <= inject_Z (Z.of_nat (Np.digitize p bins) - 1) / 7)
        by (apply Qdiv_le_mono_pos; [reflexivity | exact Hz]).
      lra.
Qed.

(** ** The harmonic refit of the first pass *)

Lemma first_refit_of np_sqrt np_sin np_cos np_pi autopower wls_params
    (self : linear_fitter) (r : periodogram) :
  plot_periodogram np_sqrt np_sin np_cos np_pi autopower wls_params self = Ok r ->
  let n := List.length (epochs self) in
  let basis := harmonic_basis np_sin np_cos np_pi (epochs self) [per r] in
  coeffs r = wls_params {| endog := residuals self; exog := Np.transpose n basis;
                           weights := map (fun e => 1 / e ^ 2) (dataerr self) |} /\
  y_bestfit r = Np.dot (Np.transpose n basis) (coeffs r) /\
  detrended r = Np.map2 Qminus (residuals self) (y_bestfit r).
Proof.
  intros H. unfold plot_periodogram in H. bind_inv H.
  injection H as <-. cbn. repeat split; reflexivity.
Qed.

Lemma nth_error_map2 {A B C : Type} (f : A -> B -> C) (a : list A) :
  forall (b : list B) (i : nat) (x : A) (y : B),
    nth_error a i = Some x -> nth_error b i = Some y ->
    nth_error (Np.map2 f a b) i = Some (f x y).
Proof.
  induction a as [| x0 a IH]; intros b i x y Ha Hb; [destruct i; discriminate|].
  destruct b as [| y0 b]; [destruct i; discriminate|].
  destruct i as [| i]; simpl in *.
  - injection Ha as ->. injection Hb as ->. reflexivity.
  - apply IH; assumption.
Qed.

(** X18.  The regression of the first pass is run on the residuals, on the
    sine and the cosine of the epochs folded at the period [per] and a
    constant, with the weights [1 / dataerr ** 2].  When it returns three
    coefficients [c0], [c1] and [c2], the reconstructed signal at an epoch [e]
    is [c0 * sin(2 pi e / per) + c1 * cos(2 pi e / per) + c2]; and the second
    pass runs the estimator on the residuals less that signal, with the same
    epochs and the same uncertainties: its period is read off the estimator's
    answer to that call. *)
Theorem first_harmonic_signal :
  forall np_sqrt np_sin np_cos np_pi autopower wls_params (self : linear_fitter)
         (r : periodogram) (c0 c1 c2 : Q),
    plot_periodogram np_sqrt np_sin np_cos np_pi autopower wls_params self = Ok r ->
    coeffs r = [c0; c1; c2] ->
    coeffs r
    = wls_params {| endog := residuals self;
                    exog := Np.transpose (List.length (epochs self))
                              (harmonic_basis np_sin np_cos np_pi (epochs self) [per r]);
                    weights := map (fun e => 1 / e ^ 2) (dataerr self) |} /\
    ls_t (pass2 r) = epochs self /\
    ls_y (pass2 r) = detrended r /\
    ls_dy (pass2 r) = dataerr self /\
    peak_of autopower (pass2 r) (per2 r) /\
    forall i e res,
      nth_error (epochs self) i = Some e ->
      nth_error (residuals self) i = Some res ->
      exists y,
        nth_error (y_bestfit r) i = Some y /\
        y == c0 * np_sin (2 * np_pi * e / per r)
             + c1 * np_cos (2 * np_pi * e / per r) + c2 /\
        nth_error (detrended r) i = Some (res - y).
Proof.
  intros np_sqrt np_sin np_cos np_pi autopower wls_params self r c0 c1 c2 H Hc.
  destruct (first_refit_of _ _ _ _ _ _ self r H) as (Hw & Hy & Hd).
  destruct (plot_periodogram_calls _ _ _ _ _ _ self r H)
    as (_ & Ec2 & _ & _ & _ & Hpk2 & _).
  split; [exact Hw|].
  split; [rewrite Ec2; reflexivity|]. split; [rewrite Ec2; reflexivity|].
  split; [rewrite Ec2; reflexivity|]. split; [exact Hpk2|].
  intros i e res He Hres.
  assert (Hi : (i < List.length (epochs self))%nat) by (apply nth_error_Some; congruence).
  assert (Hyi : nth_error (y_bestfit r) i
                = Some (Np.sum (Np.map2 Qmult
                                  [np_sin (2 * np_pi * e / per r);
                                   np_cos (2 * np_pi * e / per r); 1]
                                  [c0; c1; c2]))).
  { rewrite Hy, Hc. unfold Np.dot, Np.transpose. rewrite !nth_error_map.
    rewrite nth_error_seq. destruct (Nat.ltb_spec i (List.length (epochs self))); [|lia].
    cbn [option_map Nat.add harmonic_basis flat_map app map].
    rewrite !(nth_map_in_range _ _ i 0 0) by exact Hi.
    rewrite (nth_error_nth _ _ 0 He). reflexivity. }
  eexists. split; [exact Hyi|]. split.
  - cbn [Np.map2 Np.sum fold_right]. ring.
  - rewrite Hd. apply nth_error_map2; assumption.
Qed.

(** ** The masks of [plot_triangle] *)

Lemma qle_bool_proper_r (x a b : Q) : a == b -> Qle_bool x a = Qle_bool x b.
Proof.
  intros E. destruct (Qle_bool x a) eqn:Ea, (Qle_bool x b) eqn:Eb; try reflexivity.
  - apply Qle_bool_iff in Ea. rewrite E in Ea. apply Qle_bool_iff in Ea. congruence.
  - apply Qle_bool_iff in Eb. rewrite <- E in Eb. apply Qle_bool_iff in Eb. congruence.
Qed.

Lemma qle_bool_proper_l (x a b : Q) : a == b -> Qle_bool a x = Qle_bool b x.
Proof.
  intros E. destruct (Qle_bool a x) eqn:Ea, (Qle_bool b x) eqn:Eb; try reflexivity.
  - apply Qle_bool_iff in Ea. rewrite E in Ea. apply Qle_bool_iff in Ea. congruence.
  - apply Qle_bool_iff in Eb. rewrite <- E in Eb. apply Qle_bool_iff in Eb. congruence.
Qed.

Lemma within_cut (c p s lo hi x : Q) :
  lo == p - c * s -> hi == p + c * s ->
  negb (Qle_bool x lo) && negb (Qle_bool hi x) = within c p s x.
Proof.
  intros Elo Ehi. unfold within.
  rewrite (qle_bool_proper_r x _ _ Elo), (qle_bool_proper_l x _ _ Ehi). reflexivity.
Qed.

Lemma within_spec (c p s x : Q) :
  within c p s x = true <-> p - c * s < x /\ x < p + c * s.
Proof.
  unfold within. rewrite andb_true_iff, !negb_true_iff. split.
  - intros [H1 H2]. split; apply qle_bool_false; assumption.
  - intros [H1 H2]. split.
    + destruct (Qle_bool x (p - c * s)) eqn:E; [|reflexivity].
      apply Qle_bool_iff in E. lra.
    + destruct (Qle_bool (p + c * s) x) eqn:E; [|reflexivity].
      apply Qle_bool_iff in E. lra.
Qed.

(** One cut of a mask, sample by sample. *)
Lemma cut_mask (points : list (list Q)) (i : nat) (c p s lo hi : Q) :
  lo == p - c * s -> hi == p + c * s ->
  forall m : list bool,
    and_mask (and_mask m (gt_mask (column points i) lo)) (lt_mask (column points i) hi)
    = Np.map2 (fun b row => b && within c p s (nth i row 0)) m points.
Proof.
  intros Elo Ehi. unfold and_mask, gt_mask, lt_mask, column.
  induction points as [| row points IH]; intros [| b m]; try reflexivity.
  cbn [map Np.map2]. rewrite IH, <- andb_assoc, (within_cut c p s lo hi _ Elo Ehi).
  reflexivity.
Qed.

Lemma map2_ext {A B C : Type} (f g : A -> B -> C) (a : list A) (b : list B) :
  (forall x y, f x y = g x y) -> Np.map2 f a b = Np.map2 g a b.
Proof.
  intros H. revert b. induction a as [| x a IH]; intros [| y b]; try reflexivity.
  simpl. rewrite H, IH. reflexivity.
Qed.

Lemma map2_map2_same {A : Type} (f g : bool -> A -> bool) (l : list A) :
  forall m : list bool,
    Np.map2 f (Np.map2 g m l) l = Np.map2 (fun b x => f (g b x) x) m l.
Proof.
  induction l as [| x l IH]; intros [| b m]; try reflexivity.
  cbn [Np.map2]. rewrite IH. reflexivity.
Qed.

Lemma map2_keep {A : Type} (l : list A) :
  forall m : list bool,
    List.length m = List.length l -> Np.map2 (fun b _ => b && true) m l = m.
Proof.
  induction l as [| x l IH]; intros [| b m] H; try discriminate; [reflexivity|].
  cbn [Np.map2]. rewrite andb_true_r, IH; [reflexivity | simpl in H; congruence].
Qed.

Lemma map2_ones {A : Type} (g : A -> bool) (l : list A) (n : list Q) :
  List.length l = List.length n ->
  Np.map2 (fun b x => b && g x) (map (fun _ => true) n) l = map g l.
Proof.
  revert n. induction l as [| x l IH]; intros [| y n] H; try discriminate; [reflexivity|].
  cbn [map Np.map2]. rewrite IH; [reflexivity | simpl in H; congruence].
Qed.

Lemma plot_triangle_loop_masks (self : linear_fitter) (points : list (list Q))
    (ks : list string) :
  forall i lbls rngs m1 m2 m3 lbls' rngs' m1' m2' m3',
    List.length m1 = List.length points ->
    List.length m2 = List.length points ->
    List.length m3 = List.length points ->
    plot_triangle_loop self points i ks (lbls, rngs, m1, m2, m3)
    = Ok (lbls', rngs', m1', m2', m3') ->
    m1' = Np.map2 (fun b row => b && row_within self 1 row i ks) m1 points /\
    m2' = Np.map2 (fun b row => b && row_within self 2 row i ks) m2 points /\
    m3' = Np.map2 (fun b row => b && row_within self 3 row i ks) m3 points.
Proof.
  induction ks as [| key ks IH];
    intros i lbls rngs m1 m2 m3 lbls' rngs' m1' m2' m3' L1 L2 L3 H.
  - simpl in H. injection H as _ _ <- <- <-.
    cbn [row_within]. rewrite !map2_keep by assumption. repeat split; reflexivity.
  - cbn [plot_triangle_loop] in H. bind_inv H. cbn [row_within]. unfold cut_key.
    match goal with
    | Ep : getitem (parameters self) key = Ok ?p, Es : getitem (errors self) key = Ok ?s
      |- _ => rewrite Ep, Es; rename p into pk; rename s into sk
    end.
    destruct (String.eqb key "a2" || String.eqb key "a1")%bool; cbn [negb].
    + apply IH in H; assumption.
    + rewrite (cut_mask points i 3 pk sk (pk - 3 * sk) (pk + 3 * sk)),
        (cut_mask points i 1 pk sk (pk - sk) (pk + sk)),
        (cut_mask points i 2 pk sk (pk - 2 * sk) (pk + 2 * sk)) in H by ring.
      apply IH in H; try (rewrite map2_length by (symmetry; assumption); assumption).
      rewrite !map2_map2_same in H.
      destruct H as (-> & -> & ->).
      repeat split; apply map2_ext; intros b row; rewrite andb_assoc; reflexivity.
Qed.

Lemma within_mono (c c' p s x : Q) :
  c <= c' -> 0 <= s -> within c p s x = true -> within c' p s x = true.
Proof.
  intros Hc Hs H. apply within_spec in H. apply within_spec.
  assert (0 <= (c' - c) * s) by (apply Qmult_le_0_compat; lra).
  lra.
Qed.

Lemma within_empty (c p s x : Q) : 0 <= c -> s <= 0 -> within c p s x = false.
Proof.
  intros Hc Hs. destruct (within c p s x) eqn:E; [|reflexivity].
  apply within_spec in E.
  assert (0 <= c * (- s)) by (apply Qmult_le_0_compat; lra).
  lra.
Qed.

Lemma row_within_mono (self : linear_fitter) (c c' : Q) (row : list Q) (ks : list string) :
  c <= c' ->
  (forall key s, In key ks -> getitem (errors self) key = Ok s -> 0 <= s) ->
  forall i, row_within self c row i ks = true -> row_within self c' row i ks = true.
Proof.
  intros Hc. induction ks as [| k ks IH]; intros Hs i H; [reflexivity|].
  cbn [row_within] in *. apply andb_true_iff in H as [H1 H2]. apply andb_true_iff. split.
  - destruct (cut_key k); [|reflexivity].
    destruct (getitem (parameters self) k) as [p|]; [|reflexivity].
    destruct (getitem (errors self) k) as [s|] eqn:Es; [|reflexivity].
    apply (within_mono c c'); [exact Hc | | exact H1].
    apply (Hs k s); [left; reflexivity | exact Es].
  - apply IH; [|exact H2]. intros key s Hin. apply Hs. right. exact Hin.
Qed.

Lemma row_within_empty (self : linear_fitter) (c : Q) (row : list Q) (ks : list string)
    (key : string) (p s : Q) :
  0 <= c -> In key ks -> cut_key key = true ->
  getitem (parameters self) key = Ok p -> getitem (errors self) key = Ok s -> s <= 0 ->
  forall i, row_within self c row i ks = false.
Proof.
  intros Hc Hin Hcut Ep Es Hs. induction ks as [| k ks IH]; intros i; [contradiction|].
  cbn [row_within]. destruct Hin as [-> | Hin].
  - rewrite Hcut, Ep, Es, within_empty by assumption. reflexivity.
  - rewrite (IH Hin). apply andb_false_r.
Qed.

Lemma nth_map_true {A : Type} (g : A -> bool) (l : list A) :
  forall j, nth j (map g l) false = true -> exists x, nth_error l j = Some x /\ g x = true.
Proof.
  induction l as [| x l IH]; intros [| j] H; simpl in *; try discriminate.
  - eauto.
  - apply IH. exact H.
Qed.

Lemma nth_map_of {A : Type} (g : A -> bool) (l : list A) :
  forall j x, nth_error l j = Some x -> nth j (map g l) false = g x.
Proof.
  induction l as [| y l IH]; intros [| j] x H; simpl in *; try discriminate.
  - congruence.
  - apply IH. exact H.
Qed.

Lemma compress_none {A : Type} (l : list A) :
  forall a : list Q, Np.compress (map (fun _ => false) l) a = [].
Proof.
  induction l as [| x l IH]; intros [| y a]; try reflexivity. simpl. apply IH.
Qed.

(** The loop returns when every key of the quantiles has a parameter and an
    error. *)
Lemma plot_triangle_loop_returns (self : linear_fitter) (points : list (list Q))
    (ks : list string) :
  (forall key, In key ks ->
     exists p s, getitem (parameters self) key = Ok p /\ getitem (errors self) key = Ok s) ->
  forall i acc, exists out, plot_triangle_loop self points i ks acc = Ok out.
Proof.
  induction ks as [| k ks IH]; intros Hk i acc; [exists acc; reflexivity|].
  destruct acc as [[[[lbls rngs] m1] m2] m3]. cbn [plot_triangle_loop].
  destruct (Hk k (or_introl eq_refl)) as (p & s & -> & ->). cbn [bind].
  destruct (String.eqb k "a2" || String.eqb k "a1")%bool;
    apply IH; intros key Hin; apply Hk; right; exact Hin.
Qed.

(** The masks that leave the loop. *)
Lemma plot_triangle_loop_from_ones (self : linear_fitter) (ws : sample_set)
    (lbls : list string) (rngs : list (Q * Q)) (m1 m2 m3 : list bool) :
  List.length (ws_points ws) = List.length (ws_logl ws) ->
  let ks := keys (quantiles self) in
  let ones := map (fun _ : Q => true) (ws_logl ws) in
  plot_triangle_loop self (ws_points ws) 0 ks ([], [], ones, ones, ones)
  = Ok (lbls, rngs, m1, m2, m3) ->
  m1 = map (fun row => row_within self 1 row 0 ks) (ws_points ws) /\
  m2 = map (fun row => row_within self 2 row 0 ks) (ws_points ws) /\
  m3 = map (fun row => row_within self 3 row 0 ks) (ws_points ws).
Proof.
  intros L ks ones E.
  apply plot_triangle_loop_masks in E;
    try (unfold ones; rewrite length_map; symmetry; exact L).
  destruct E as (-> & -> & ->). unfold ones.
  rewrite !map2_ones by exact L. repeat split; reflexivity.
Qed.

Lemma plot_triangle_masks_of np_percentile (self : linear_fitter) (ws : sample_set)
    (t : triangle) :
  plot_triangle np_percentile self ws = Ok t ->
  List.length (ws_points ws) = List.length (ws_logl ws) ->
  let ks := keys (quantiles self) in
  mask1 t = map (fun row => row_within self 1 row 0 ks) (ws_points ws) /\
  mask2 t = map (fun row => row_within self 2 row 0 ks) (ws_points ws) /\
  mask3 t = map (fun row => row_within self 3 row 0 ks) (ws_points ws).
Proof.
  intros H L ks. unfold plot_triangle in H.
  destruct (plot_triangle_loop self (ws_points ws) 0 (keys (quantiles self)) _)
    as [[[[[lbls rngs] m1] m2] m3] | e] eqn:E; cbn [bind] in H; [|discriminate].
  apply (plot_triangle_loop_from_ones self ws lbls rngs m1 m2 m3 L) in E.
  destruct E as (E1 & E2 & E3).
  bind_inv H. apply ok_inj in H. subst t. cbn [mask1 mask2 mask3].
  repeat split; assumption.
Qed.

(** X19.  The three masks of [plot_triangle] select, sample by sample, the
    rows that lie strictly within 1, 2 and 3 posterior deviations of the
    point estimate in every parameter but 'a1' and 'a2'; when no deviation is
    negative the selections are nested.  When the deviation of a parameter
    that is cut on is zero or negative, the three selections are empty: on
    samples with one coordinate for each parameter, and with every parameter
    estimated, the first contour level (line 266) is then asked of
    [np.percentile] on an empty array, and the exception that [np.percentile]
    raises on it leaves [plot_triangle]. *)
Theorem triangle_masks :
  forall (np_percentile : list Q -> Q -> result Q) (self : linear_fitter)
         (ws : sample_set),
    List.length (ws_points ws) = List.length (ws_logl ws) ->
    let ks := keys (quantiles self) in
    (forall t : triangle,
       plot_triangle np_percentile self ws = Ok t ->
       (mask1 t = map (fun row => row_within self 1 row 0 ks) (ws_points ws) /\
        mask2 t = map (fun row => row_within self 2 row 0 ks) (ws_points ws) /\
        mask3 t = map (fun row => row_within self 3 row 0 ks) (ws_points ws)) /\
       ((forall key s, In key ks -> getitem (errors self) key = Ok s -> 0 <= s) ->
        forall j, (nth j (mask1 t) false = true -> nth j (mask2 t) false = true) /\
                  (nth j (mask2 t) false = true -> nth j (mask3 t) false = true))) /\
    ((forall key, In key ks ->
        exists p s, getitem (parameters self) key = Ok p /\
                    getitem (errors self) key = Ok s) ->
     Forall (fun row => List.length row = List.length ks) (ws_points ws) ->
     (exists key s, In key ks /\ cut_key key = true /\
                    getitem (errors self) key = Ok s /\ s <= 0) ->
     forall e : exn,
       np_percentile [] 95 = Raise e ->
       plot_triangle np_percentile self ws = Raise e).
Proof.
  intros np_percentile self ws L ks. split.
  - intros t H.
    destruct (plot_triangle_masks_of np_percentile self ws t H L) as (E1 & E2 & E3).
    fold ks in E1, E2, E3.
    split; [repeat split; assumption|].
    intros Hs j. rewrite E1, E2, E3. split; intros Hj;
      apply nth_map_true in Hj as (row & Hrow & Hj);
      rewrite (nth_map_of _ _ j row Hrow);
      [apply (row_within_mono self 1 2) | apply (row_within_mono self 2 3)];
      try assumption; discriminate.
  - intros Hkeys _ (key & s & Hin & Hcut & Es & Hs) e He.
    destruct (Hkeys key Hin) as (p & s' & Ep & Es').
    assert (s' = s) by congruence. subst s'.
    assert (F : forall c, 0 <= c ->
                  map (fun row => row_within self c row 0 ks) (ws_points ws)
                  = map (fun _ => false) (ws_points ws)).
    { intros c Hc. apply map_ext. intros row.
      apply (row_within_empty self c row ks key p s); assumption. }
    destruct (plot_triangle_loop_returns self (ws_points ws) ks Hkeys 0%nat
                ([], [], map (fun _ : Q => true) (ws_logl ws),
                 map (fun _ : Q => true) (ws_logl ws),
                 map (fun _ : Q => true) (ws_logl ws)))
      as ([[[[lbls rngs] m1] m2] m3] & E).
    pose proof (plot_triangle_loop_from_ones self ws lbls rngs m1 m2 m3 L E)
      as (E1 & _ & _).
    fold ks in E1. rewrite F in E1 by discriminate. subst m1.
    unfold plot_triangle. fold ks. rewrite E. cbn [bind].
    rewrite compress_none, He. reflexivity.
Qed.

(** ** [plot_oc] *)

Lemma plot_oc_fields np_sqrt np_percentile0 np_random_normal (self : linear_fitter)
    (ylim : string) (show_2sigma : bool) (r : oc_plot) :
  plot_oc np_sqrt np_percentile0 np_random_normal self ylim show_2sigma = Ok r ->
  exists dmin dmax pb pm emin emax prb prm,
    Np.min (data self) = Ok dmin /\ Np.max (data self) = Ok dmax /\
    getitem (parameters self) "b" = Ok pb /\ getitem (parameters self) "m" = Ok pm /\
    Np.min (epochs self) = Ok emin /\ Np.max (epochs self) = Ok emax /\
    getitem (prior self) "b" = Ok prb /\ getitem (prior self) "m" = Ok prm /\
    let grid := oc_grid dmin dmax in
    let mdl := oc_line (oc_upsample grid pb pm) pm pb in
    let pri := oc_line (oc_upsample grid (fst prb) (fst prm)) (fst prm) (fst prb) in
    oc_model r = mdl /\ oc_prior r = pri /\
    hidden_line r = minutes (Np.map2 Qminus mdl pri) /\
    xlim r = (emin - (emax - emin) * (1 # 100), emax + (emax - emin) * (1 # 100)).
Proof.
  unfold plot_oc.
  destruct (Np.min (data self)) as [dmin | e] eqn:E1; cbn [bind]; [|discriminate].
  destruct (Np.max (data self)) as [dmax | e] eqn:E2; cbn [bind]; [|discriminate].
  destruct (getitem (parameters self) "b") as [pb | e] eqn:E3; cbn [bind]; [|discriminate].
  destruct (getitem (parameters self) "m") as [pm | e] eqn:E4; cbn [bind]; [|discriminate].
  destruct (Np.max (epochs self)) as [emax | e] eqn:E5; cbn [bind]; [|discriminate].
  destruct (Np.min (epochs self)) as [emin | e] eqn:E6; cbn [bind]; [|discriminate].
  destruct (getitem (errors self) "m") as [em | e] eqn:E7; cbn [bind]; [|discriminate].
  destruct (np_random_normal 0%nat pm em mc_size) as [mc_m | e]; cbn [bind]; [|discriminate].
  destruct (getitem (errors self) "b") as [eb | e] eqn:E8; cbn [bind]; [|discriminate].
  destruct (np_random_normal 1%nat pb eb mc_size) as [mc_b | e]; cbn [bind]; [|discriminate].
  match goal with
  | |- bind ?c _ = _ -> _ => destruct c as [yl1 | e]; cbn [bind]; [|discriminate]
  end.
  destruct (getitem (prior self) "b") as [prb | e] eqn:E9; cbn [bind]; [|discriminate].
  destruct (getitem (prior self) "m") as [prm | e] eqn:E10; cbn [bind]; [|discriminate].
  destruct (np_random_normal 2%nat (fst prm) (snd prm) mc_size) as [mc_m_p | e];
    cbn [bind]; [|discriminate].
  destruct (np_random_normal 3%nat (fst prb) (snd prb) mc_size) as [mc_b_p | e];
    cbn [bind]; [|discriminate].
  match goal with
  | |- bind ?c _ = _ -> _ => destruct c as [yl2 | e]; cbn [bind]; [|discriminate]
  end.
  intros H. apply ok_inj in H. subst r.
  exists dmin, dmax, pb, pm, emin, emax, prb, prm.
  cbn [oc_model oc_prior hidden_line xlim]. repeat split; reflexivity.
Qed.

Lemma linspace_length (a b : Q) (n : nat) : List.length (Np.linspace a b n) = n.
Proof.
  unfold Np.linspace. rewrite length_map, length_seq. reflexivity.
Qed.

Lemma refolded_grid_cancels (pm pb qm qb : Q) (grid : list Q) :
  ~ pm == 0 -> ~ qm == 0 ->
  Forall (fun x => x == 0)
         (minutes (Np.map2 Qminus (oc_line (oc_upsample grid pb pm) pm pb)
                                  (oc_line (oc_upsample grid qb qm) qm qb))).
Proof.
  intros Hp Hq. unfold oc_line, oc_upsample.
  induction grid as [| t grid IH]; [constructor|].
  cbn [map Np.map2 minutes]. constructor; [field; split; assumption | exact IH].
Qed.

(** X20.  The line that [plot_oc] draws for the prior ephemeris, [(model -
    prior) * 24 * 60], is zero at each of its 1000 points whatever the fit
    and the prior are: the best-fit model and the prior are both evaluated
    at epochs obtained by inverting them on the same time grid, so each gives
    the grid back.  (With slopes that are not zero; in floating point the
    line is zero up to rounding.)  The limits of the x axis enclose every
    epoch of the data. *)
Theorem prior_overlay_line_is_zero :
  forall np_sqrt np_percentile0 np_random_normal (self : linear_fitter) (ylim : string)
         (show_2sigma : bool) (r : oc_plot) (pm : Q) (prm : Q * Q),
    plot_oc np_sqrt np_percentile0 np_random_normal self ylim show_2sigma = Ok r ->
    getitem (parameters self) "m" = Ok pm -> ~ pm == 0 ->
    getitem (prior self) "m" = Ok prm -> ~ fst prm == 0 ->
    List.length (hidden_line r) = 1000%nat /\
    Forall (fun x => x == 0) (hidden_line r) /\
    (forall i, nth i (oc_model r) 0 == nth i (oc_prior r) 0) /\
    (forall e, In e (epochs self) -> fst (xlim r) <= e <= snd (xlim r)).
Proof.
  intros np_sqrt np_percentile0 np_random_normal self ylim s2 r pm prm H Hm Hpm Hq Hprm.
  destruct (plot_oc_fields _ _ _ _ _ _ _ H)
    as (dmin & dmax & pb & pm' & emin & emax & prb & prm' & _ & _ & _ & Em & Emin & Emax
        & _ & Eq & Emdl & Epri & Eh & Ex).
  assert (pm' = pm) by congruence. assert (prm' = prm) by congruence. subst pm' prm'.
  split.
  { rewrite Eh. unfold minutes, oc_line, oc_upsample, oc_grid.
    rewrite length_map, map2_length; rewrite !length_map;
      rewrite ?linspace_length; reflexivity. }
  split.
  { rewrite Eh. apply refolded_grid_cancels; assumption. }
  split.
  { intros i. rewrite Emdl, Epri. unfold oc_line, oc_upsample.
    generalize (oc_grid dmin dmax). intros grid. revert i.
    induction grid as [| t grid IH]; intros [| i]; cbn [map nth]; try reflexivity.
    - field. split; assumption.
    - apply IH. }
  intros e He. rewrite Ex. cbn [fst snd].
  apply np_min_spec in Emin as [_ Hlo]. apply np_max_spec in Emax as [_ Hhi].
  rewrite Forall_forall in Hlo, Hhi. specialize (Hlo e He). specialize (Hhi e He).
  lra.
Qed.

(** ** [plot_oc] after a fit *)

(** [plot_oc] returns on a fitter that has data, epochs and the keys 'm' and
    'b' in its parameters, errors and prior, when [ylim] asks for no limits and
    the four draws are made. *)
Lemma plot_oc_returns np_sqrt np_percentile0
    (np_random_normal : nat -> Q -> Q -> Z -> result (list Q)) (self : linear_fitter)
    (ylim : string) (show_2sigma : bool) (pm pb em eb : Q) (prm prb : Q * Q) :
  data self <> [] -> epochs self <> [] ->
  getitem (parameters self) "m" = Ok pm ->
  getitem (parameters self) "b" = Ok pb ->
  getitem (errors self) "m" = Ok em ->
  getitem (errors self) "b" = Ok eb ->
  getitem (prior self) "m" = Ok prm ->
  getitem (prior self) "b" = Ok prb ->
  (exists l, np_random_normal 0%nat pm em mc_size = Ok l) ->
  (exists l, np_random_normal 1%nat pb eb mc_size = Ok l) ->
  (exists l, np_random_normal 2%nat (fst prm) (snd prm) mc_size = Ok l) ->
  (exists l, np_random_normal 3%nat (fst prb) (snd prb) mc_size = Ok l) ->
  ylim <> "diff"%string -> ylim <> "prior"%string -> ylim <> "average"%string ->
  exists r, plot_oc np_sqrt np_percentile0 np_random_normal self ylim show_2sigma = Ok r.
Proof.
  intros Hdn Hen Epm Epb Eem Eeb Em Eb [l0 E0] [l1 E1] [l2 E2] [l3 E3] Hy1 Hy2 Hy3.
  destruct (np_min_ok _ Hdn) as [dmin Edmin]. destruct (np_max_ok _ Hdn) as [dmax Edmax].
  destruct (np_min_ok _ Hen) as [emin Eemin]. destruct (np_max_ok _ Hen) as [emax Eemax].
  apply String.eqb_neq in Hy1, Hy2, Hy3.
  unfold plot_oc.
  rewrite Edmin, Edmax, Epb, Epm, Eemax, Eemin, Eem. cbn [bind].
  rewrite E0. cbn [bind]. rewrite Eeb. cbn [bind]. rewrite E1. cbn [bind].
  rewrite Hy1. cbn [bind]. rewrite Eb. cbn [bind]. rewrite Em. cbn [bind].
  rewrite E2. cbn [bind]. rewrite E3. cbn [bind]. rewrite Hy2, Hy3. cbn [bind].
  eexists. reflexivity.
Qed.

(** The constructor, given bounds, does not look into the prior. *)
Lemma constructor_keeps_any_prior (run : sampler_call -> result sampler_results)
    (d derr : list Q) (b pr pr' : dict (Q * Q)) (self : linear_fitter) :
  __init__ run d derr (Some b) (Some pr) = Ok self ->
  prior self = pr /\
  exists self',
    __init__ run d derr (Some b) (Some pr') = Ok self' /\
    prior self' = pr' /\
    epochs self' = epochs self /\ parameters self' = parameters self /\
    errors self' = errors self /\ quantiles self' = quantiles self /\
    model self' = model self /\ residuals self' = residuals self.
Proof.
  unfold __init__. cbn [bind]. unfold fit_nested. cbn [in_data in_bounds].
  destruct (fit_nested_epochs d b) as [ep | e]; cbn [bind]; [|discriminate].
  change (fit_nested_call {| in_data := d; in_dataerr := derr; in_bounds := b;
                             in_prior := pr' |} ep)
    with (fit_nested_call {| in_data := d; in_dataerr := derr; in_bounds := b;
                             in_prior := pr |} ep).
  destruct (run _) as [res | e]; cbn [bind]; [|discriminate].
  unfold fit_nested_finish. cbn [in_data in_dataerr in_bounds in_prior].
  destruct (fit_nested_collect res 0 (freekeys b) ([], [], [])) as [dicts | e];
    cbn [bind]; [|discriminate].
  destruct (getitem (fst (fst dicts)) "m") as [pm | e]; cbn [bind]; [|discriminate].
  destruct (getitem (fst (fst dicts)) "b") as [pb | e]; cbn [bind]; [|discriminate].
  intros H. apply ok_inj in H. subst self. split; [reflexivity|].
  eexists. split; [reflexivity|]. repeat split; reflexivity.
Qed.

(** X21.  [plot_oc] returns only for a prior that has the keys 'm' and 'b':
    it reads [prior['b'][0]] and [prior['m'][0]] (line 182) whatever [ylim] and
    [show_2sigma] are, and whatever the random draws and the percentiles are.
    The constructor, when it is given bounds, does not look into the prior: it
    returns for every prior if it returns for one, with the same fit, and
    keeps the prior it was given.  So a prior without these keys passes the
    fit, and no call of [plot_oc] on the fitted object returns. *)
Theorem plot_oc_needs_the_prior_keys :
  forall np_sqrt np_percentile0 (np_random_normal : nat -> Q -> Q -> Z -> result (list Q))
         (run : sampler_call -> result sampler_results) (d derr : list Q)
         (b pr : dict (Q * Q)) (self : linear_fitter),
    __init__ run d derr (Some b) (Some pr) = Ok self ->
    prior self = pr /\
    (forall pr' : dict (Q * Q),
       exists self',
         __init__ run d derr (Some b) (Some pr') = Ok self' /\
         prior self' = pr' /\
         epochs self' = epochs self /\ parameters self' = parameters self /\
         errors self' = errors self /\ quantiles self' = quantiles self /\
         model self' = model self /\ residuals self' = residuals self) /\
    (forall (ylim : string) (show_2sigma : bool) (r : oc_plot),
       plot_oc np_sqrt np_percentile0 np_random_normal self ylim show_2sigma = Ok r ->
       In "m"%string (keys pr) /\ In "b"%string (keys pr)) /\
    (~ (In "m"%string (keys pr) /\ In "b"%string (keys pr)) ->
     forall (ylim : string) (show_2sigma : bool),
       exists e : exn,
         plot_oc np_sqrt np_percentile0 np_random_normal self ylim show_2sigma = Raise e).
Proof.
  intros np_sqrt np_percentile0 np_random_normal run d derr b pr self H.
  destruct (constructor_keeps_any_prior run d derr b pr pr self H) as [Ep _].
  assert (Hkeys : forall ylim s2 r,
             plot_oc np_sqrt np_percentile0 np_random_normal self ylim s2 = Ok r ->
             In "m"%string (keys pr) /\ In "b"%string (keys pr)).
  { intros ylim s2 r Hr.
    destruct (plot_oc_fields _ _ _ _ _ _ _ Hr)
      as (dmin & dmax & pb & pm & emin & emax & prb & prm & _ & _ & _ & _ & _ & _
          & Eb & Em & _).
    rewrite Ep in Eb, Em. split; eapply getitem_in_keys; eassumption. }
  split; [exact Ep|]. split.
  { intros pr'. apply (constructor_keeps_any_prior run d derr b pr pr' self H). }
  split; [exact Hkeys|].
  intros Hno ylim s2.
  destruct (plot_oc np_sqrt np_percentile0 np_random_normal self ylim s2) as [r | e] eqn:E.
  - exfalso. apply Hno. apply (Hkeys ylim s2 r E).
  - exists e. reflexivity.
Qed.

(** ** [main] *)

(** [main] up to the constructor, when the regression returns at least two
    parameters and a covariance of at least two rows. *)
Lemma main_reaches_the_constructor np_sqrt wls_fit
    (run : sampler_call -> result sampler_results) (tmin : Q) :
  Np.min Tc = Ok tmin ->
  (2 <= List.length (fst (wls_fit (main_regression tmin))))%nat ->
  (2 <= List.length (snd (wls_fit (main_regression tmin))))%nat ->
  exists intercept,
    nth_error (fst (wls_fit (main_regression tmin))) 0 = Some intercept /\
    main np_sqrt wls_fit run
    = __init__ run Tc Tc_error
        (Some [("m"%string, (P - (1 # 10), P + (1 # 10)));
               ("b"%string, (intercept - (1 # 10), intercept + (1 # 10)))])
        (Some main_prior).
Proof.
  intros Hmin Hp Hc. unfold main. rewrite Hmin. cbn [bind].
  assert (Hs : (2 <= List.length (map np_sqrt (diagonal (snd (wls_fit (main_regression tmin))))))%nat)
    by (unfold diagonal; rewrite !length_map, length_seq; exact Hc).
  destruct (getidx_ok (fst (wls_fit (main_regression tmin))) 1) as [slope Es]; [lia|].
  destruct (getidx_ok (fst (wls_fit (main_regression tmin))) 0) as [intercept Ei]; [lia|].
  destruct (getidx_ok (map np_sqrt (diagonal (snd (wls_fit (main_regression tmin))))) 1)
    as [sd1 Esd1]; [lia|].
  destruct (getidx_ok (map np_sqrt (diagonal (snd (wls_fit (main_regression tmin))))) 0)
    as [sd0 Esd0]; [lia|].
  rewrite Es. cbn [bind]. rewrite Esd1. cbn [bind]. rewrite Ei. cbn [bind].
  rewrite Esd0. cbn [bind].
  exists intercept. split; [|reflexivity].
  unfold getidx in Ei. destruct (nth_error _ 0); [congruence | discriminate].
Qed.

(** X22.  The fit that [main] runs depends on the weighted regression only
    through its intercept: the slope and the two standard deviations are
    computed and printed, the prior built from them is replaced by literals
    before the constructor is called, and the bounds of the period are centred
    on the literal [P].  Two regressions (and two square roots) that agree on
    [params[0]] give the same result. *)
Theorem main_fit_uses_only_the_intercept :
  forall np_sqrt np_sqrt' wls_fit wls_fit'
         (run : sampler_call -> result sampler_results) (tmin : Q),
    Np.min Tc = Ok tmin ->
    let c := main_regression tmin in
    (2 <= List.length (fst (wls_fit c)))%nat -> (2 <= List.length (snd (wls_fit c)))%nat ->
    (2 <= List.length (fst (wls_fit' c)))%nat -> (2 <= List.length (snd (wls_fit' c)))%nat ->
    nth_error (fst (wls_fit c)) 0 = nth_error (fst (wls_fit' c)) 0 ->
    main np_sqrt wls_fit run = main np_sqrt' wls_fit' run.
Proof.
  intros np_sqrt np_sqrt' wls_fit wls_fit' run tmin Hmin c Hp Hc Hp' Hc' E.
  destruct (main_reaches_the_constructor np_sqrt wls_fit run tmin Hmin Hp Hc)
    as (i & Ei & ->).
  destruct (main_reaches_the_constructor np_sqrt' wls_fit' run tmin Hmin Hp' Hc')
    as (i' & Ei' & ->).
  fold c in Ei, Ei'. assert (i = i') by congruence. subst i'. reflexivity.
Qed.

(** X23.  The fitter that [main] builds: the bounds are the intervals of
    half-width 0.1 around the literal period [P] (key 'm', first) and around
    the intercept of the regression (key 'b'); the prior is the literal one;
    and the epoch of each mid-time [t] is [(t - intercept) / P] rounded, so it
    counts orbits from the fitted intercept, not from the first observation as
    the orbits of the regression do. *)
Theorem main_builds_the_fitter :
  forall np_sqrt wls_fit (run : sampler_call -> result sampler_results) (tmin : Q)
         (self : linear_fitter),
    Np.min Tc = Ok tmin ->
    main np_sqrt wls_fit run = Ok self ->
    exists intercept,
      nth_error (fst (wls_fit (main_regression tmin))) 0 = Some intercept /\
      bounds self = [("m"%string, (P - (1 # 10), P + (1 # 10)));
                     ("b"%string, (intercept - (1 # 10), intercept + (1 # 10)))] /\
      prior self = main_prior /\
      data self = Tc /\ dataerr self = Tc_error /\
      epochs self = map (fun t => Np.round ((t - intercept) / P)) Tc.
Proof.
  intros np_sqrt wls_fit run tmin self Hmin H.
  unfold main in H. rewrite Hmin in H. cbn [bind] in H. bind_inv H.
  match goal with
  | E : getidx (fst _) 0 = Ok ?x |- _ => rename x into intercept; rename E into Ei
  end.
  exists intercept. split.
  { unfold getidx in Ei. destruct (nth_error _ 0); [congruence | discriminate]. }
  unfold __init__ in H. cbn [bind] in H.
  pose proof (fit_nested_epochs_of _ _ _ H) as Hep. cbn [in_data in_bounds] in Hep.
  unfold fit_nested in H. bind_inv H. unfold fit_nested_finish in H. bind_inv H.
  injection H as <-. cbn [bounds prior data dataerr epochs] in *.
  repeat (split; [reflexivity|]).
  rewrite (fit_nested_epochs_eq Tc
             [("m"%string, (P - (1 # 10), P + (1 # 10)));
              ("b"%string, (intercept - (1 # 10), intercept + (1 # 10)))]
             (P - (1 # 10), P + (1 # 10))
             (intercept - (1 # 10), intercept + (1 # 10)) eq_refl eq_refl) in Hep.
  apply ok_inj in Hep. rewrite <- Hep.
  apply map_ext. intros t. apply round_proper. cbn [fst snd].
  rewrite !mean_pair. unfold P. field.
Qed.

(** ** The further theorems at the small dataset *)

Lemma nodup_two (a b : string) : a <> b -> NoDup [a; b].
Proof.
  intros H. constructor; [intros [E | []]; congruence|].
  constructor; [intros []|constructor].
Qed.

(** The point estimates on the small dataset. *)
Lemma point_estimates_example :
  exists self,
    fit_nested Stub.run example_inputs = Ok self /\
    keys (parameters self) = ["m"; "b"]%string /\
    keys (errors self) = ["m"; "b"]%string /\
    keys (quantiles self) = ["m"; "b"]%string.
Proof.
  assert (E : exists self, fit_nested Stub.run example_inputs = Ok self)
    by (eexists; vm_compute; reflexivity).
  destruct E as [self E]. exists self. split; [exact E|].
  destruct (point_estimates_by_key Stub.run example_inputs self E) as (H1 & H2 & H3 & _).
  - apply nodup_two. discriminate.
  - repeat split; assumption.
Defined.

(** The small dataset with the keys in the order 'b', 'm'. *)
Lemma swapped_keys_example :
  exists self p0 p1,
    fit_nested Stub.run example_swapped_inputs = Ok self /\
    getitem (parameters self) "m" = Ok p1 /\
    getitem (parameters self) "b" = Ok p0 /\
    model self = map (fun e => e * p1 + p0) (epochs self) /\
    loglike_fn (fit_nested_call example_swapped_inputs (epochs self))
      (maximum_likelihood_point (results self))
    == log_chi_square Example.d Example.derr (epochs self) p0 p1.
Proof.
  assert (E : exists self, fit_nested Stub.run example_swapped_inputs = Ok self)
    by (eexists; vm_compute; reflexivity).
  destruct E as [self E].
  destruct (keys_b_then_m_swap_the_roles Stub.run example_swapped_inputs self [] E)
    as (p0 & p1 & _ & _ & Hl & Hm & Hb & Hmod).
  - reflexivity.
  - apply nodup_two. discriminate.
  - reflexivity.
  - exists self, p0, p1. repeat (split; [assumption|]). exact Hl.
Defined.

(** The small dataset with the keys in the order 'm', 'b'. *)
Lemma fitted_likelihood_example :
  exists self,
    fit_nested Stub.run example_inputs = Ok self /\
    loglike_fn (fit_nested_call example_inputs (epochs self))
      (maximum_likelihood_point (results self))
    == - (1 # 2) * sum_upto (List.length (residuals self))
                     (fun i => (nth i (residuals self) 0 / nth i (dataerr self) 0) ^ 2).
Proof.
  assert (E : exists self, fit_nested Stub.run example_inputs = Ok self)
    by (eexists; vm_compute; reflexivity).
  destruct E as [self E]. exists self. split; [exact E|].
  apply (keys_m_then_b_fit_the_model Stub.run example_inputs self [] E).
  - reflexivity.
  - apply nodup_two. discriminate.
  - reflexivity.
Defined.

(** The constructor on the small dataset. *)
Lemma constructor_example :
  exists self,
    __init__ Stub.run Example.d Example.derr (Some Example.bounds) (Some Example.prior)
    = Ok self.
Proof.
  destruct (constructor_returns Stub.run Example.d Example.derr Example.bounds Example.prior
              (map (fun t => Np.round ((t - Np.mean [-1; 1]) / Np.mean [1; 3])) Example.d)
              {| maximum_likelihood_point := prior_transform Example.bounds [1 # 2; 1 # 2];
                 posterior_stdev := [0; 0];
                 posterior_errlo := prior_transform Example.bounds [0; 0];
                 posterior_errup := prior_transform Example.bounds [1; 1] |})
    as [H _].
  - reflexivity.
  - reflexivity.
  - destruct H as (self & H & _).
    + intros j Hj. unfold answers_at. cbn in Hj |- *. repeat split; exact Hj.
    + exists self. exact H.
Defined.

(** The constructor on the misnamed bounds: a [KeyError]. *)
Lemma constructor_failure_example :
  (exists c, Stub.run c = Raise (KeyError "b")) \/ own_exception (KeyError "b").
Proof.
  apply (constructor_failures Stub.run Example.d Example.derr (Some Example.misnamed)
           (Some Example.prior)).
  reflexivity.
Defined.

(** The second timestamp of the small dataset, 8, and its epoch, 4. *)
Lemma half_period_example :
  Qabs (8 - (4 * ((1 + 3) / 2) + (-1 + 1) / 2)) <= Qabs ((1 + 3) / 2) / 2.
Proof.
  apply (epochs_within_half_a_period Example.d Example.bounds 1 3 (-1) 1 [0; 4; 8]
           eq_refl eq_refl) with (i := 1%nat).
  - intros H. vm_compute in H. discriminate H.
  - reflexivity.
  - reflexivity.
  - reflexivity.
Defined.

(** The likelihood of the small dataset at the point [(2, 0)]. *)
Lemma loglike_sign_example :
  loglike_fn (fit_nested_call example_inputs [0; 4; 8]) [2; 0] <= 0.
Proof.
  apply (loglike_sign example_inputs [0; 4; 8] [2; 0]).
  - reflexivity.
  - reflexivity.
  - repeat constructor; intros H; vm_compute in H; discriminate H.
Defined.

(** The window of the first pass on the small dataset: the epochs 0, 4 and
    8 give the periods 8 and 24, and the estimator is asked for the
    frequencies between 1/24 and 1/8. *)
Lemma first_pass_window_example :
  exists r,
    Stub.periodogram_of example_fitter = Ok r /\
    minper r = 8 /\ maxper r = 24 /\
    minimum_frequency (pass1 r) = 1 # 24 /\ maximum_frequency (pass1 r) = 1 # 8 /\
    2 <= minper r /\ minper r < maxper r /\
    0 < minimum_frequency (pass1 r) /\
    minimum_frequency (pass1 r) < maximum_frequency (pass1 r) /\
    maximum_frequency (pass1 r) <= 1 # 2 /\
    periods r = map (fun f => 1 / f) (fst (Stub.autopower (pass1 r))) /\
    power r = snd (Stub.autopower (pass1 r)) /\
    peak_of Stub.autopower (pass1 r) (per r).
Proof.
  eexists. split; [vm_compute; reflexivity|].
  split; [reflexivity|]. split; [reflexivity|].
  split; [reflexivity|]. split; [reflexivity|].
  apply (first_pass_window_is_proper Stub.sqrt Stub.sin Stub.cos Stub.pi
           Stub.autopower Stub.wls_params example_fitter).
  - vm_compute. reflexivity.
  - cbn [epochs example_fitter].
    repeat constructor; [exists 0%Z | exists 4%Z | exists 8%Z]; reflexivity.
  - exists 0, 4. cbn [epochs example_fitter]. split; [left; reflexivity|].
    split; [right; left; reflexivity | reflexivity].
Defined.

(** The window of the second pass on the small dataset: the least spacing
    is 4, and the estimator is asked for the frequencies between 1/50 and
    1/8. *)
Lemma second_pass_window_example :
  exists r,
    Stub.periodogram_of example_fitter = Ok r /\
    minper r = 8 /\
    minimum_frequency (pass2 r) = 1 # 50 /\ maximum_frequency (pass2 r) = 1 # 8 /\
    exists dmin,
      dmin == 4 /\
      min_spacing (epochs example_fitter) dmin /\
      is_larger_of 2 (2 * dmin) (minper r) /\
      minimum_frequency (pass2 r) = 1 / 50 /\
      maximum_frequency (pass2 r) = 1 / minper r /\
      peak_of Stub.autopower (pass2 r) (per2 r) /\
      (minimum_frequency (pass2 r) < maximum_frequency (pass2 r) <-> dmin < 25) /\
      (25 <= dmin -> maximum_frequency (pass2 r) <= minimum_frequency (pass2 r)).
Proof.
  assert (E : exists r,
             Stub.periodogram_of example_fitter = Ok r /\ minper r = 8 /\
             minimum_frequency (pass2 r) = 1 # 50 /\
             maximum_frequency (pass2 r) = 1 # 8).
  { eexists. split; [vm_compute; reflexivity|]. repeat split; reflexivity. }
  destruct E as (r & E & Hminper & Hf1 & Hf2).
  destruct (second_pass_window Stub.sqrt Stub.sin Stub.cos Stub.pi
              Stub.autopower Stub.wls_params example_fitter r E)
    as (dmin & Hsp & Hlarger & Hrest).
  exists r. split; [exact E|]. split; [exact Hminper|].
  split; [exact Hf1|]. split; [exact Hf2|].
  exists dmin. split.
  - destruct Hlarger as (_ & _ & [E2 | E2]); rewrite Hminper in E2; [discriminate|].
    assert (E3 : 8 == 2 * dmin) by (rewrite <- E2; reflexivity). lra.
  - split; [exact Hsp|]. split; [exact Hlarger|]. exact Hrest.
Defined.

(** The first and the third epoch of the small dataset, one period apart. *)
Lemma folded_phase_example :
  exists r,
    Stub.periodogram_of example_fitter = Ok r /\
    nth 0 (newphase r) 0 == nth 2 (newphase r) 0 /\
    Np.digitize (nth 0 (newphase r) 0) bins = Np.digitize (nth 2 (newphase r) 0) bins.
Proof.
  eexists. split; [vm_compute; reflexivity|].
  match goal with
  | |- nth 0 (newphase ?r) 0 == _ /\ _ =>
      destruct (folded_phase_is_periodic Stub.sqrt Stub.sin Stub.cos Stub.pi
                  Stub.autopower Stub.wls_params example_fitter r 0 2 0 8 1) as [H _]
  end.
  - vm_compute. reflexivity.
  - reflexivity.
  - reflexivity.
  - apply H.
    + intros E. vm_compute in E. discriminate E.
    + vm_compute. reflexivity.
Defined.

(** The slots of the small dataset. *)
Lemma binning_partition_example :
  exists r,
    Stub.periodogram_of example_fitter = Ok r /\
    Permutation (all_slot_points (newphase r) (residuals example_fitter)
                   (dataerr example_fitter))
                (combine (residuals example_fitter) (dataerr example_fitter)) /\
    Permutation (all_slot_points (newphase2 r) (detrended r) (dataerr example_fitter))
                (combine (detrended r) (dataerr example_fitter)).
Proof.
  eexists. split; [vm_compute; reflexivity|].
  apply (binning_partitions_the_data Stub.sqrt Stub.sin Stub.cos Stub.pi
           Stub.autopower Stub.wls_params example_fitter).
  - vm_compute. reflexivity.
  - reflexivity.
  - reflexivity.
Defined.

(** The phase 1/2 falls in the slot 4, between 3/7 and 4/7. *)
Lemma slots_example :
  Np.digitize (1 # 2) bins = 4%nat <->
  (1 <= 4 <= 7)%nat /\
  inject_Z (Z.of_nat 4 - 1) / 7 <= 1 # 2 /\ 1 # 2 < inject_Z (Z.of_nat 4) / 7.
Proof.
  apply (slots_are_sevenths (1 # 2) 4).
  split; [discriminate | reflexivity].
Defined.

(** The harmonic signal on the small dataset, where the regression finds
    none: the second pass searches the residuals themselves, at the epochs 0,
    4 and 8. *)
Lemma harmonic_signal_example :
  exists r,
    Stub.periodogram_of example_fitter = Ok r /\
    coeffs r = [0; 0; 0] /\
    ls_t (pass2 r) = [0; 4; 8] /\
    Forall2 Qeq (ls_y (pass2 r)) [1 # 2; 0; 1 # 4] /\
    ls_dy (pass2 r) = [1 # 100; 2 # 100; 3 # 100] /\
    ls_y (pass2 r) = detrended r /\
    peak_of Stub.autopower (pass2 r) (per2 r) /\
    exists y,
      nth_error (y_bestfit r) 1 = Some y /\
      y == 0 * Stub.sin (2 * Stub.pi * 4 / per r)
           + 0 * Stub.cos (2 * Stub.pi * 4 / per r) + 0.
Proof.
  assert (E : exists r,
             Stub.periodogram_of example_fitter = Ok r /\ coeffs r = [0; 0; 0] /\
             ls_t (pass2 r) = [0; 4; 8] /\
             Forall2 Qeq (ls_y (pass2 r)) [1 # 2; 0; 1 # 4] /\
             ls_dy (pass2 r) = [1 # 100; 2 # 100; 3 # 100]).
  { eexists. split; [vm_compute; reflexivity|]. split; [reflexivity|].
    split; [reflexivity|]. split; [|reflexivity].
    repeat constructor; reflexivity. }
  destruct E as (r & E & Hc & Ht & Hy & Hdy).
  destruct (first_harmonic_signal Stub.sqrt Stub.sin Stub.cos Stub.pi
              Stub.autopower Stub.wls_params example_fitter r 0 0 0 E Hc)
    as (_ & _ & H1 & _ & Hpk & H2).
  exists r. repeat (split; [assumption|]).
  destruct (H2 1%nat 4 0) as (y & Hy1 & Hv & _).
  - reflexivity.
  - reflexivity.
  - exists y. split; [exact Hy1 | exact Hv].
Defined.

(** The masks of two samples, of which the first lies within one deviation
    of the estimates and the second outside three; and the fitted object of
    the small dataset, whose deviations are zero: its masks are empty, and
    [plot_triangle] ends in the exception of the percentile of an empty
    array. *)
Lemma triangle_masks_example :
  (exists t,
     plot_triangle StubPlot.percentile example_fitter StubPlot.samples = Ok t /\
     mask1 t = [true; false] /\ mask2 t = [true; false] /\ mask3 t = [true; false]) /\
  (exists self,
     Stub.init Example.d Example.derr (Some Example.bounds) (Some Example.prior) = Ok self /\
     getitem (errors self) "m" = Ok 0 /\
     plot_triangle StubPlot.percentile self StubPlot.samples
     = Raise (IndexError "index -1 is out of bounds for axis 0 with size 0")).
Proof.
  split.
  - assert (E : exists t, plot_triangle StubPlot.percentile example_fitter StubPlot.samples
                          = Ok t)
      by (eexists; vm_compute; reflexivity).
    destruct E as [t E]. exists t. split; [exact E|].
    destruct (triangle_masks StubPlot.percentile example_fitter StubPlot.samples eq_refl)
      as [H _].
    destruct (H t E) as ((H1 & H2 & H3) & _).
    rewrite H1, H2, H3. repeat split; vm_compute; reflexivity.
  - assert (E : exists self,
               Stub.init Example.d Example.derr (Some Example.bounds) (Some Example.prior)
               = Ok self /\
               getitem (errors self) "m" = Ok 0 /\
               keys (quantiles self) = ["m"; "b"]%string /\
               (exists pm, getitem (parameters self) "m" = Ok pm) /\
               (exists pb, getitem (parameters self) "b" = Ok pb) /\
               (exists eb, getitem (errors self) "b" = Ok eb)).
    { eexists. split; [vm_compute; reflexivity|]. split; [reflexivity|].
      split; [reflexivity|]. repeat split; eexists; reflexivity. }
    destruct E as (self & E & Hem & Hk & [pm Hpm] & [pb Hpb] & [eb Heb]).
    exists self. split; [exact E|]. split; [exact Hem|].
    destruct (triangle_masks StubPlot.percentile self StubPlot.samples eq_refl)
      as [_ H].
    apply H.
    + rewrite Hk. intros key [<- | [<- | []]]; eauto.
    + rewrite Hk. repeat constructor.
    + exists "m"%string, 0. rewrite Hk. split; [left; reflexivity|].
      split; [reflexivity|]. split; [exact Hem | apply Qle_refl].
    + reflexivity.
Defined.

(** [plot_oc] on the small dataset. *)
Lemma prior_overlay_example :
  exists r,
    plot_oc Stub.sqrt StubPlot.percentile0 StubPlot.random_normal example_fitter
      "none" false = Ok r /\
    List.length (hidden_line r) = 1000%nat /\
    Forall (fun x => x == 0) (hidden_line r).
Proof.
  destruct (plot_oc_returns Stub.sqrt StubPlot.percentile0 StubPlot.random_normal
              example_fitter "none" false 2 0 1 1 (2, 1 # 10) (0, 1 # 10)) as [r E];
    try discriminate; try reflexivity; try (eexists; reflexivity).
  exists r. split; [exact E|].
  destruct (prior_overlay_line_is_zero Stub.sqrt StubPlot.percentile0
              StubPlot.random_normal example_fitter "none" false r 2 (2, 1 # 10) E)
    as (H1 & H2 & _).
  - reflexivity.
  - intros H. vm_compute in H. discriminate H.
  - reflexivity.
  - intros H. vm_compute in H. discriminate H.
  - split; assumption.
Defined.

(** [plot_oc] after the constructor on the small dataset: with the prior of
    the dataset it returns; with a prior that has no key 'b' the constructor
    returns the same fit, and [plot_oc] raises. *)
Lemma plot_oc_after_fit_example :
  (exists self r,
     __init__ Stub.run Example.d Example.derr (Some Example.bounds) (Some Example.prior)
     = Ok self /\
     plot_oc Stub.sqrt StubPlot.percentile0 StubPlot.random_normal self "none" false = Ok r /\
     In "m"%string (keys Example.prior) /\ In "b"%string (keys Example.prior)) /\
  (exists self e,
     __init__ Stub.run Example.d Example.derr (Some Example.bounds)
       (Some [("m"%string, (2, 1 # 10))]) = Ok self /\
     prior self = [("m"%string, (2, 1 # 10))] /\
     plot_oc Stub.sqrt StubPlot.percentile0 StubPlot.random_normal self "none" false
     = Raise e).
Proof.
  split.
  - assert (E : exists self,
               __init__ Stub.run Example.d Example.derr (Some Example.bounds)
                 (Some Example.prior) = Ok self /\
               exists r,
                 plot_oc Stub.sqrt StubPlot.percentile0 StubPlot.random_normal self
                   "none" false = Ok r).
    { eexists. split; [vm_compute; reflexivity|].
      apply (plot_oc_returns _ _ _ _ _ _ (4 # 2) (0 # 2) 0 0 (2, 1 # 10) (0, 1 # 10));
        try discriminate; try reflexivity; try (eexists; reflexivity). }
    destruct E as (self & E & r & Hr). exists self, r.
    split; [exact E|]. split; [exact Hr|].
    destruct (plot_oc_needs_the_prior_keys Stub.sqrt StubPlot.percentile0
                StubPlot.random_normal Stub.run Example.d Example.derr Example.bounds
                Example.prior self E) as (_ & _ & H & _).
    exact (H _ _ _ Hr).
  - assert (E : exists self,
               __init__ Stub.run Example.d Example.derr (Some Example.bounds)
                 (Some [("m"%string, (2, 1 # 10))]) = Ok self)
      by (eexists; vm_compute; reflexivity).
    destruct E as (self & E).
    destruct (plot_oc_needs_the_prior_keys Stub.sqrt StubPlot.percentile0
                StubPlot.random_normal Stub.run Example.d Example.derr Example.bounds
                [("m"%string, (2, 1 # 10))] self E) as (Hp & _ & _ & H).
    assert (Hno : ~ (In "m"%string (keys [("m"%string, (2, 1 # 10))]) /\
                     In "b"%string (keys [("m"%string, (2, 1 # 10))])))
      by (intros [_ [F | []]]; discriminate F).
    destruct (H Hno "none"%string false) as [e He].
    exists self, e. split; [exact E|]. split; [exact Hp | exact He].
Defined.

(** [main] with two regressions that agree on the intercept. *)
Lemma main_intercept_example :
  main Stub.sqrt StubPlot.wls_fit Stub.run = main (fun x => x) StubPlot.wls_fit' Stub.run.
Proof.
  apply (main_fit_uses_only_the_intercept Stub.sqrt (fun x => x) StubPlot.wls_fit
           StubPlot.wls_fit' Stub.run (245391251471333 # 100000000)).
  - vm_compute. reflexivity.
  - cbn. lia.
  - cbn. lia.
  - cbn. lia.
  - cbn. lia.
  - reflexivity.
Defined.

(** The fitter of [main]. *)
Lemma main_fitter_example :
  exists self intercept,
    main Stub.sqrt StubPlot.wls_fit Stub.run = Ok self /\
    bounds self = [("m"%string, (P - (1 # 10), P + (1 # 10)));
                   ("b"%string, (intercept - (1 # 10), intercept + (1 # 10)))] /\
    prior self = main_prior /\
    epochs self = map (fun t => Np.round ((t - intercept) / P)) Tc.
Proof.
  assert (E : exists self, main Stub.sqrt StubPlot.wls_fit Stub.run = Ok self)
    by (eexists; vm_compute; reflexivity).
  destruct E as [self E].
  destruct (main_builds_the_fitter Stub.sqrt StubPlot.wls_fit Stub.run
              (245391251471333 # 100000000) self) as (c & _ & Hb & Hp & _ & _ & He).
  - vm_compute. reflexivity.
  - exact E.
  - exists self, c. repeat (split; [assumption|]). exact He.
Defined.
